(** * The image-discovery pipeline of [zillow_image_scraper.py]

    A shallow embedding of the scraping script's pipeline: URL
    classification, structured-data mining, the markup fallback, the
    deduplicator with its resolution resolver, and the fetch/upload loop.

    Conventions of the embedding.
    - A Python [str] is a [string]; a character is a code point below 256.
      On that range [\d] is [0-9], [\s] is the Latin-1 white space and
      [str.lower] moves [A-Z] and the accented capitals by 32.
    - Python integers are unbounded ([N], [Z]); the limit that recent
      interpreters put on the number of digits [int] accepts (4300 unless
      configured otherwise) is not modelled.
    - Python values that reach the pipeline (JSON trees, result
      dictionaries) are [pyval]; JSON numbers with a fraction or exponent
      are outside the model.
    - Exceptions are values of [exc]; [try/except] is a [match]. What the
      extraction functions print is left out; what the fetch/upload loop
      prints is kept as a list of events.
    - The libraries the script calls ([BeautifulSoup], [json.loads],
      [requests], [boto3], [urlparse], the iteration order of [set]) are
      parameters of the functions that use them. *)

From Stdlib Require Import Bool List Arith NArith ZArith Lia Ascii String.
From Stdlib Require DecimalString.
From Stdlib Require Import Permutation.
Import ListNotations.

Set Implicit Arguments.
Set Warnings "-register-all".
Open Scope string_scope.

(* ================================================================== *)
(** * Characters and strings *)
(* ================================================================== *)

Module Str.

Definition code (c : ascii) : N := N_of_ascii c.

Definition in_range (lo hi : N) (c : ascii) : bool :=
  (lo <=? code c)%N && (code c <=? hi)%N.

(** [\d] on code points below 256. *)
Definition is_digit (c : ascii) : bool := in_range 48 57 c.

(** [[a-f0-9]]. *)
Definition is_hex_lower (c : ascii) : bool := in_range 97 102 c || is_digit c.

(** [\s] on code points below 256: TAB..CR, FS..US, space, NEL, NBSP. *)
Definition is_space (c : ascii) : bool :=
  in_range 9 13 c || in_range 28 32 c || (code c =? 133)%N || (code c =? 160)%N.

(** [.] without [re.DOTALL]. *)
Definition not_newline (c : ascii) : bool := negb (code c =? 10)%N.

(** [.] under [re.DOTALL]. *)
Definition any_char (_ : ascii) : bool := true.

(** [[^...]] over an explicit list of characters. *)
Definition none_of (cs : string) (c : ascii) : bool :=
  negb (existsb (Ascii.eqb c) (list_ascii_of_string cs)).

Definition one_of (cs : string) (c : ascii) : bool :=
  existsb (Ascii.eqb c) (list_ascii_of_string cs).

(** [str.lower] on one code point below 256. *)
Definition lower_char (c : ascii) : ascii :=
  if in_range 65 90 c
     || (in_range 192 222 c && negb (code c =? 215)%N)
  then ascii_of_N (code c + 32) else c.

Fixpoint lower (s : string) : string :=
  match s with
  | EmptyString => EmptyString
  | String c s' => String (lower_char c) (lower s')
  end.

(** [s.startswith(p)]. *)
Definition startswith (p s : string) : bool := String.prefix p s.

(** [p in s] for two strings. *)
Fixpoint contains (p s : string) : bool :=
  String.prefix p s ||
  match s with
  | EmptyString => false
  | String _ s' => contains p s'
  end.

(** The first [n] characters. *)
Fixpoint take (n : nat) (s : string) : string :=
  match n, s with
  | S n', String c s' => String c (take n' s')
  | _, _ => EmptyString
  end.

(** [int(s)] for a string of decimal digits. *)
Definition digit_value (c : ascii) : N := (code c - 48)%N.

Fixpoint int_acc (acc : N) (s : string) : N :=
  match s with
  | EmptyString => acc
  | String c s' => int_acc (10 * acc + digit_value c)%N s'
  end.

Definition int (s : string) : N := int_acc 0 s.

(** [str(n)] for a natural number. *)
Definition of_nat (n : nat) : string :=
  DecimalString.NilZero.string_of_uint (Nat.to_uint n).

(** Left padding with zeros to width [w], as the format [{n:0wd}] does. *)
Fixpoint zeros (k : nat) : string :=
  match k with O => EmptyString | S k' => String "0" (zeros k') end.

Definition of_nat_pad (w n : nat) : string :=
  let d := of_nat n in zeros (w - String.length d) ++ d.

End Str.

(* ================================================================== *)
(** * Regular expressions

    The fragment of Python's [re] the script uses: literals, character
    classes, alternation, greedy and lazy repetition of one character
    class, bounded repetition and capturing groups, matched by
    backtracking in the order [re] tries alternatives. Groups are neither
    nested nor placed under an alternation in any pattern of the script,
    so captures are collected in the order the groups close. *)
(* ================================================================== *)

Module Re.

Inductive regex : Type :=
| Lit (s : string)                      (* a literal run of characters *)
| Chr (p : ascii -> bool)               (* one character of a class *)
| Seq (r1 r2 : regex)
| Alt (r1 r2 : regex)                   (* r1|r2, r1 tried first *)
| Star (p : ascii -> bool)              (* c*  greedy *)
| StarLazy (p : ascii -> bool)          (* c*? *)
| Opt (p : ascii -> bool)               (* c?  greedy *)
| Rep (n : nat) (p : ascii -> bool)     (* c{n} *)
| Grp (r : regex).                      (* ( r ) *)

(** [c+] *)
Definition Plus (p : ascii -> bool) : regex := Seq (Chr p) (Star p).

Fixpoint seqs (rs : list regex) : regex :=
  match rs with
  | [] => Lit EmptyString
  | [r] => r
  | r :: rs' => Seq r (seqs rs')
  end.

Fixpoint alts (r : regex) (rs : list regex) : regex :=
  match rs with
  | [] => r
  | r' :: rs' => Alt r (alts r' rs')
  end.

(** [a|b|c] over literals. *)
Definition lits (s : string) (ss : list string) : regex :=
  alts (Lit s) (map Lit ss).

Fixpoint strip_prefix (p s : string) : option string :=
  match p, s with
  | EmptyString, _ => Some s
  | String a p', String b s' => if Ascii.eqb a b then strip_prefix p' s' else None
  | String _ _, EmptyString => None
  end.

Fixpoint strip_n (n : nat) (p : ascii -> bool) (s : string) : option string :=
  match n, s with
  | O, _ => Some s
  | S n', String c s' => if p c then strip_n n' p s' else None
  | S _, EmptyString => None
  end.

Section Matcher.
Variable A : Type.

(** [step r s caps k]: match [r] at the head of [s], then hand the
    remaining input and the captures to [k]; when [k] fails, try the
    next way of matching [r]. *)
Fixpoint step (r : regex) (s : string) (caps : list string)
         (k : string -> list string -> option A) {struct r} : option A :=
  match r with
  | Lit l =>
      match strip_prefix l s with
      | Some s' => k s' caps
      | None => None
      end
  | Chr p =>
      match s with
      | String c s' => if p c then k s' caps else None
      | EmptyString => None
      end
  | Seq r1 r2 => step r1 s caps (fun s' caps' => step r2 s' caps' k)
  | Alt r1 r2 =>
      match step r1 s caps k with
      | Some x => Some x
      | None => step r2 s caps k
      end
  | Star p =>
      (fix loop (s : string) : option A :=
         match s with
         | String c s' =>
             if p c then
               match loop s' with
               | Some x => Some x
               | None => k s caps
               end
             else k s caps
         | EmptyString => k s caps
         end) s
  | StarLazy p =>
      (fix loop (s : string) : option A :=
         match k s caps with
         | Some x => Some x
         | None =>
             match s with
             | String c s' => if p c then loop s' else None
             | EmptyString => None
             end
         end) s
  | Opt p =>
      match s with
      | String c s' =>
          if p c then
            match k s' caps with
            | Some x => Some x
            | None => k s caps
            end
          else k s caps
      | EmptyString => k s caps
      end
  | Rep n p =>
      match strip_n n p s with
      | Some s' => k s' caps
      | None => None
      end
  | Grp r1 =>
      step r1 s caps
           (fun s' caps' =>
              k s' (caps' ++ [Str.take (String.length s - String.length s') s])%list)
  end.
End Matcher.

(** A match object: the matched text, its groups, what follows it. *)
Record rmatch : Type := MkMatch {
  m_text : string;
  m_groups : list string;
  m_rest : string
}.

(** [pattern.match(s)]: a match anchored at the head of [s]. *)
Definition match_here (r : regex) (s : string) : option rmatch :=
  step r s []
       (fun s' caps =>
          Some (MkMatch (Str.take (String.length s - String.length s') s) caps s')).

(** [re.search(r, s)]: the leftmost match. *)
Fixpoint search (r : regex) (s : string) : option rmatch :=
  match match_here r s with
  | Some m => Some m
  | None =>
      match s with
      | EmptyString => None
      | String _ s' => search r s'
      end
  end.

(** [m.group(i)] for [i >= 1]. *)
Definition group (i : nat) (m : rmatch) : string := nth (i - 1) (m_groups m) EmptyString.

(** The non-overlapping matches from left to right; [skip] counts the
    characters of the previous match that are still to be passed. (No
    pattern of the script matches the empty string.) *)
Fixpoint finditer (r : regex) (skip : nat) (s : string) : list rmatch :=
  match skip with
  | S n =>
      match s with
      | String _ s' => finditer r n s'
      | EmptyString => []
      end
  | O =>
      match match_here r s with
      | Some m =>
          m :: match s with
               | String _ s' => finditer r (String.length (m_text m) - 1) s'
               | EmptyString => []
               end
      | None =>
          match s with
          | String _ s' => finditer r 0 s'
          | EmptyString => []
          end
      end
  end.

(** [re.findall] for a pattern without a group: the matched texts. *)
Definition findall0 (r : regex) (s : string) : list string :=
  map m_text (finditer r 0 s).

(** [re.findall] for a pattern with one group: the group's texts. *)
Definition findall1 (r : regex) (s : string) : list string :=
  map (group 1) (finditer r 0 s).

(** [re.findall] for a pattern with two groups: pairs of texts. *)
Definition findall2 (r : regex) (s : string) : list (string * string) :=
  map (fun m => (group 1 m, group 2 m)) (finditer r 0 s).

End Re.

(* ================================================================== *)
(** * Python values and exceptions *)
(* ================================================================== *)

Inductive pyval : Type :=
| PNone
| PBool (b : bool)
| PInt (z : Z)
| PStr (s : string)
| PList (l : list pyval)
| PDict (d : list (string * pyval)).

(** The classes of exception the script raises, catches or lets pass. *)
Inductive exn_class : Type :=
| TypeError | IndexError | ValueError | AttributeError
| JSONDecodeError
| RequestException
| ClientError | NoCredentialsError
| OtherError.

Record exn : Type := MkExn { exn_cls : exn_class; exn_msg : string }.

Inductive exc (A : Type) : Type :=
| Ok (a : A)
| Raise (e : exn).
Arguments Ok {A} a.
Arguments Raise {A} e.

Definition bind {A B : Type} (m : exc A) (f : A -> exc B) : exc B :=
  match m with
  | Ok a => f a
  | Raise e => Raise e
  end.

Notation "x <- m ;; k" := (bind m (fun x => k))
  (at level 61, m at next level, right associativity).

Definition raises {A : Type} (m : exc A) : Prop := exists e, m = Raise e.
Definition returns {A : Type} (m : exc A) : Prop := exists a, m = Ok a.

Definition exn_class_eqb (a b : exn_class) : bool :=
  match a, b with
  | TypeError, TypeError | IndexError, IndexError | ValueError, ValueError
  | AttributeError, AttributeError | JSONDecodeError, JSONDecodeError
  | RequestException, RequestException | ClientError, ClientError
  | NoCredentialsError, NoCredentialsError | OtherError, OtherError => true
  | _, _ => false
  end.

Module Py.

(** [bool(v)]. *)
Definition truthy (v : pyval) : bool :=
  match v with
  | PNone => false
  | PBool b => b
  | PInt z => negb (z =? 0)%Z
  | PStr s => negb (s =? EmptyString)
  | PList l => match l with [] => false | _ => true end
  | PDict d => match d with [] => false | _ => true end
  end.

Definition is_str (v : pyval) : bool :=
  match v with PStr _ => true | _ => false end.

Definition is_dict (v : pyval) : bool :=
  match v with PDict _ => true | _ => false end.

(** [d.get(k)] on the items of a dictionary. *)
Fixpoint lookup {V : Type} (k : string) (d : list (string * V)) : option V :=
  match d with
  | [] => None
  | (k', v) :: d' => if k' =? k then Some v else lookup k d'
  end.

Definition has_key {V : Type} (k : string) (d : list (string * V)) : bool :=
  match lookup k d with Some _ => true | None => false end.

(** [d[k] = v]: a present key keeps its place, a new one goes last. *)
Fixpoint setitem {V : Type} (k : string) (v : V) (d : list (string * V))
  : list (string * V) :=
  match d with
  | [] => [(k, v)]
  | (k', v') :: d' =>
      if k' =? k then (k', v) :: d' else (k', v') :: setitem k v d'
  end.

End Py.

Module PySet.

Definition hashable (v : pyval) : bool :=
  match v with
  | PList _ | PDict _ => false
  | _ => true
  end.

Definition num_of_bool (b : bool) : Z := if b then 1%Z else 0%Z.

(** [a == b] on hashable values: [True == 1] and [False == 0]. *)
Definition eqb (a b : pyval) : bool :=
  match a, b with
  | PNone, PNone => true
  | PBool x, PBool y => Bool.eqb x y
  | PBool x, PInt z | PInt z, PBool x => (num_of_bool x =? z)%Z
  | PInt x, PInt y => (x =? y)%Z
  | PStr x, PStr y => (x =? y)
  | _, _ => false
  end.

(** The members of [set(l)]: of equal values the first one inserted. *)
Fixpoint members_acc (seen l : list pyval) : list pyval :=
  match l with
  | [] => []
  | x :: l' =>
      if existsb (eqb x) seen then members_acc seen l'
      else x :: members_acc (x :: seen) l'
  end.

Definition members (l : list pyval) : list pyval := members_acc [] l.

(** An iteration order for sets: for every list of hashable values, an
    arrangement of the members of the set built from it. The order a
    Python process uses follows the hash values of the members, which
    for strings are salted anew in every process. *)
Definition iteration_order (order : list pyval -> list pyval) : Prop :=
  forall l, Permutation (order l) (members l).

End PySet.

Definition type_error (msg : string) : exn := MkExn TypeError msg.
Definition index_error : exn := MkExn IndexError "list index out of range".

(** [l[0]]. *)
Definition index0 {A : Type} (l : list A) : exc A :=
  match l with
  | [] => Raise index_error
  | x :: _ => Ok x
  end.

(** A loop whose body may raise: the first exception ends it. *)
Fixpoint foldM {A S : Type} (f : S -> A -> exc S) (l : list A) (s : S) : exc S :=
  match l with
  | [] => Ok s
  | x :: l' => s' <- f s x ;; foldM f l' s'
  end.

(** [re.search(pattern, v)] raises [TypeError] unless [v] is a string. *)
Definition re_search (r : Re.regex) (v : pyval) : exc (option Re.rmatch) :=
  match v with
  | PStr s => Ok (Re.search r s)
  | _ => Raise (type_error "expected string or bytes-like object")
  end.

Definition is_some {A : Type} (o : option A) : bool :=
  match o with Some _ => true | None => false end.

(* ================================================================== *)
(** * URL classifier: [is_image_url] *)
(* ================================================================== *)

Definition image_extensions : list string :=
  [".jpg"; ".jpeg"; ".png"; ".gif"; ".webp"; ".bmp"; ".tiff"].

(** [(jpg|jpeg|png|gif|webp|bmp|tiff)] and [(jpg|jpeg|png|gif|webp)]. *)
Definition ext7 : Re.regex :=
  Re.Grp (Re.lits "jpg" ["jpeg"; "png"; "gif"; "webp"; "bmp"; "tiff"]).
Definition ext5 : Re.regex :=
  Re.Grp (Re.lits "jpg" ["jpeg"; "png"; "gif"; "webp"]).

Definition image_patterns : list Re.regex :=
  [ (* \.(jpg|jpeg|png|gif|webp|bmp|tiff) *)
    Re.seqs [Re.Lit "."; ext7];
    (* zillow.*\.(jpg|jpeg|png|gif|webp) *)
    Re.seqs [Re.Lit "zillow"; Re.Star Str.not_newline; Re.Lit "."; ext5];
    (* photos.*\.(jpg|jpeg|png|gif|webp) *)
    Re.seqs [Re.Lit "photos"; Re.Star Str.not_newline; Re.Lit "."; ext5];
    (* images.*\.(jpg|jpeg|png|gif|webp) *)
    Re.seqs [Re.Lit "images"; Re.Star Str.not_newline; Re.Lit "."; ext5] ].

Definition is_image_url (url : pyval) : bool :=
  if negb (Py.truthy url) || negb (Py.is_str url) then false
  else
    match url with
    | PStr s =>
        let url_lower := Str.lower s in
        if existsb (fun ext => Str.contains ext url_lower) image_extensions
        then true
        else if existsb (fun pattern => is_some (Re.search pattern url_lower))
                        image_patterns
        then true
        else false
    | _ => false
    end.

(* ================================================================== *)
(** * Resolution resolver: [select_highest_resolution] *)
(* ================================================================== *)

(** [-cc_ft_(\d+)\.] *)
Definition resolution_pattern : Re.regex :=
  Re.seqs [Re.Lit "-cc_ft_"; Re.Grp (Re.Plus Str.is_digit); Re.Lit "."].

(** One turn of the loop that fills [url_resolutions]. *)
Definition url_resolution (url : pyval) : exc (N * pyval) :=
  res_match <- re_search resolution_pattern url ;;
  match res_match with
  | Some m => Ok (Str.int (Re.group 1 m), url)
  | None => Ok (0%N, url)
  end.

Fixpoint mapM {A B : Type} (f : A -> exc B) (l : list A) : exc (list B) :=
  match l with
  | [] => Ok []
  | x :: l' => y <- f x ;; ys <- mapM f l' ;; Ok (y :: ys)
  end.

(** [list.sort(key=lambda x: x[0], reverse=True)]: a stable sort on the
    key, largest first; entries with equal keys keep their order. *)
Fixpoint insert_desc {A : Type} (x : N * A) (l : list (N * A)) : list (N * A) :=
  match l with
  | [] => [x]
  | y :: l' =>
      if (fst y <=? fst x)%N then x :: y :: l' else y :: insert_desc x l'
  end.

Fixpoint sort_desc {A : Type} (l : list (N * A)) : list (N * A) :=
  match l with
  | [] => []
  | x :: l' => insert_desc x (sort_desc l')
  end.

Definition select_highest_resolution (urls : list pyval) : exc pyval :=
  let attempt :=
    url_resolutions <- mapM url_resolution urls ;;
    best <- index0 (sort_desc url_resolutions) ;;
    Ok (snd best) in
  match attempt with
  | Ok url => Ok url
  | Raise _ => index0 urls          (* except Exception: return urls[0] *)
  end.

(* ================================================================== *)
(** * Deduplicator: [filter_unique_images] *)
(* ================================================================== *)

(** [/([a-f0-9]{32})-cc_ft_\d+\.(jpg|webp|png)] *)
Definition base_pattern : Re.regex :=
  Re.seqs [Re.Lit "/"; Re.Grp (Re.Rep 32 Str.is_hex_lower); Re.Lit "-cc_ft_";
           Re.Plus Str.is_digit; Re.Lit "."; Re.Grp (Re.lits "jpg" ["webp"; "png"])].

(** [image_groups]: a dictionary from keys to lists of URLs, in the order
    the keys were first inserted. *)
Definition groups : Type := list (string * list pyval).

(** [image_groups[k].append(url)] for a key that is present. *)
Fixpoint append_at (k : string) (url : pyval) (g : groups) : groups :=
  match g with
  | [] => []
  | (k', urls) :: g' =>
      if k' =? k then (k', (urls ++ [url])%list) :: g'
      else (k', urls) :: append_at k url g'
  end.

(** One turn of the grouping loop. *)
Definition group_url (image_groups : groups) (url : pyval) : exc groups :=
  base_match <- re_search base_pattern url ;;
  match base_match, url with
  | Some m, _ =>
      let base_id := Re.group 1 m in
      let image_groups' :=
        if negb (Py.has_key base_id image_groups)
        then Py.setitem base_id [] image_groups
        else image_groups in
      Ok (append_at base_id url image_groups')
  | None, PStr s => Ok (Py.setitem s [url] image_groups)
  | None, _ => Raise (type_error "unhashable key")
  end.

(** The loop over [image_groups.items()]. *)
Fixpoint select_from_groups (items : groups) : exc (list pyval) :=
  match items with
  | [] => Ok []
  | (base_id, urls) :: items' =>
      best_url <- (if (List.length urls =? 1)%nat then index0 urls
                   else select_highest_resolution urls) ;;
      unique_images <- select_from_groups items' ;;
      Ok (best_url :: unique_images)
  end.

(** [list(set(image_urls))]. *)
Definition list_of_set (set_order : list pyval -> list pyval)
           (image_urls : list pyval) : exc (list pyval) :=
  if forallb PySet.hashable image_urls then Ok (set_order image_urls)
  else Raise (type_error "unhashable type").

(** The body of the [try] block. *)
Definition filter_attempt (image_urls : list pyval) : exc (list pyval) :=
  image_groups <- foldM group_url image_urls [] ;;
  select_from_groups image_groups.

Definition filter_unique_images (set_order : list pyval -> list pyval)
           (image_urls : list pyval) : exc (list pyval) :=
  match filter_attempt image_urls with
  | Ok unique_images => Ok unique_images
  | Raise _ => list_of_set set_order image_urls   (* except Exception *)
  end.

(** The lists the loop over the items hands to
    [select_highest_resolution]: the groups whose length is not 1. *)
Definition resolver_calls (items : groups) : list (list pyval) :=
  filter (fun urls => negb (List.length urls =? 1)%nat) (map snd items).

(** The asset identity of a URL: the key under which the grouping loop
    files it. *)
Definition asset_key (url : string) : string :=
  match Re.search base_pattern url with
  | Some m => Re.group 1 m
  | None => url
  end.

(** Whether a URL matches the photo pattern, and its resolution token. *)
Definition has_identity (url : string) : bool :=
  is_some (Re.search base_pattern url).

Definition resolution (url : string) : N :=
  match Re.search resolution_pattern url with
  | Some m => Str.int (Re.group 1 m)
  | None => 0%N
  end.

(** The candidates of [xs] that share the asset identity [k]. *)
Definition asset_group (k : string) (xs : list string) : list string :=
  filter (fun s => has_identity s && (asset_key s =? k)) xs.


(** Three candidates used as a running example: two sizes of one photo
    and a candidate whose whole text is that photo's identifier. *)
Definition photo_id : string := "0123456789abcdef0123456789abcdef".

Definition photo_url (size ext : string) : string :=
  "https://photos.zillowstatic.com/fp/" ++ photo_id ++ "-cc_ft_" ++ size ++ "." ++ ext.

(* ================================================================== *)
(** * The parse tree of a page

    What [BeautifulSoup(html_content, 'html.parser')] hands to the script:
    a tree of tags and strings, with the queries the script makes on it.
    Turning the text of a page into the tree is the parser's work and is
    a parameter of the extractors. *)
(* ================================================================== *)

Module BS4.

Inductive node : Type :=
| Text (s : string)                               (* a NavigableString *)
| Tag (name : string) (attrs : list (string * string)) (contents : list node).

(** The top-level contents of the soup. *)
Definition soup : Type := list node.

(** The descendants of a node in document order. *)
Fixpoint descendants (n : node) : list node :=
  match n with
  | Text _ => []
  | Tag _ _ contents =>
      (fix each (cs : list node) : list node :=
         match cs with
         | [] => []
         | c :: cs' => (c :: descendants c ++ each cs')%list
         end) contents
  end.

Definition all_nodes (s : soup) : list node :=
  flat_map (fun c => c :: descendants c) s.

Definition name_is (name : string) (n : node) : bool :=
  match n with
  | Tag name' _ _ => name' =? name
  | Text _ => false
  end.

(** [tag.get(attr)]. *)
Definition get (attr : string) (n : node) : option string :=
  match n with
  | Tag _ attrs _ => Py.lookup attr attrs
  | Text _ => None
  end.

(** [tag.string]: the only child when it is a string, or the [string]
    of the only child when it is a tag; [None] otherwise. *)
Fixpoint string_of (n : node) : option string :=
  match n with
  | Text s => Some s
  | Tag _ _ [c] => string_of c
  | Tag _ _ _ => None
  end.

(** [soup.find_all(name)] and [tag.find_all(name)]. *)
Definition find_all (name : string) (s : soup) : list node :=
  filter (name_is name) (all_nodes s).

Definition find_all_in (name : string) (n : node) : list node :=
  filter (name_is name) (descendants n).

(** [soup.find_all(name, attr=value)]. *)
Definition find_all_with (name attr value : string) (s : soup) : list node :=
  filter (fun n => name_is name n &&
                   match get attr n with
                   | Some v => v =? value
                   | None => false
                   end) (all_nodes s).

(** [soup.find_all(attrs={attr: re.compile(r)})]. *)
Definition find_all_attr_re (attr : string) (r : Re.regex) (s : soup) : list node :=
  filter (fun n => match get attr n with
                   | Some v => is_some (Re.search r v)
                   | None => false
                   end) (all_nodes s).

(** [soup.find_all(attrs={attr: True})]. *)
Definition find_all_attr (attr : string) (s : soup) : list node :=
  filter (fun n => is_some (get attr n)) (all_nodes s).

End BS4.

(** A double quote, and a text between double quotes. *)
Definition dquote : ascii := "034"%char.
Definition quoted (s : string) : string := String dquote (s ++ String dquote EmptyString).

(** [needle in v]. *)
Definition py_in (needle : string) (v : pyval) : exc bool :=
  match v with
  | PDict d => Ok (Py.has_key needle d)
  | PList l => Ok (existsb (fun x => match x with
                                     | PStr s => s =? needle
                                     | _ => false
                                     end) l)
  | PStr s => Ok (Str.contains needle s)
  | _ => Raise (type_error "argument is not iterable")
  end.

(** [k1 in v or k2 in v or ...], evaluated from the left. *)
Fixpoint py_in_any (needles : list string) (v : pyval) : exc bool :=
  match needles with
  | [] => Ok false
  | k :: ks => b <- py_in k v ;; if b then Ok true else py_in_any ks v
  end.

(** A loop that returns from the function at the first result. *)
Fixpoint first_result {A B : Type} (f : A -> exc (option B)) (l : list A)
  : exc (option B) :=
  match l with
  | [] => Ok None
  | x :: l' =>
      r <- f x ;;
      match r with
      | Some y => Ok (Some y)
      | None => first_result f l'
      end
  end.

(** [try: body except (classes): continue] inside such a loop. *)
Definition continue_on {B : Type} (classes : list exn_class) (body : exc (option B))
  : exc (option B) :=
  match body with
  | Raise e => if existsb (exn_class_eqb (exn_cls e)) classes then Ok None else Raise e
  | r => r
  end.

Definition str_truthy (o : option string) : bool :=
  match o with
  | Some s => negb (s =? EmptyString)
  | None => false
  end.

(* ================================================================== *)
(** * Structured-data extractor: [extract_json_from_page] *)
(* ================================================================== *)

(** [\s*] and the lazy [.*?] under [re.DOTALL]. *)
Definition ws : Re.regex := Re.Star Str.is_space.

(** [window\.NAME\s*=\s*({.*?});] *)
Definition state_pattern (name : string) : Re.regex :=
  Re.seqs [Re.Lit ("window." ++ name); ws; Re.Lit "="; ws;
           Re.Grp (Re.seqs [Re.Lit "{"; Re.StarLazy Str.any_char; Re.Lit "}"]);
           Re.Lit ";"].

(** [<q>KEY<q>:\s*(\[.*?\])], where [<q>] is a double quote. *)
Definition array_pattern (key : string) : Re.regex :=
  Re.seqs [Re.Lit (quoted key ++ ":"); ws;
           Re.Grp (Re.seqs [Re.Lit "["; Re.StarLazy Str.any_char; Re.Lit "]"])].

Definition patterns : list Re.regex :=
  [ state_pattern "__INITIAL_STATE__";
    state_pattern "__APP_STATE__";
    state_pattern "__PRELOADED_STATE__";
    state_pattern "__APOLLO_STATE__";
    array_pattern "photoGallery";
    array_pattern "images";
    array_pattern "photos";
    array_pattern "media" ].

(** [\{[^{}]*(?:<q>url<q>|<q>href<q>|<q>src<q>|<q>photo<q>|<q>image<q>)[^{}]*\}] *)
Definition fragment_pattern : Re.regex :=
  Re.seqs [Re.Lit "{"; Re.Star (Str.none_of "{}");
           Re.lits (quoted "url") [quoted "href"; quoted "src"; quoted "photo"; quoted "image"];
           Re.Star (Str.none_of "{}"); Re.Lit "}"].

Section StructuredData.

(** [BeautifulSoup(html_content, 'html.parser')] and [json.loads] on a
    string. *)
Variable html_parser : string -> exc BS4.soup.
Variable json_loads : string -> exc pyval.

(** [json.loads(script.string)]: [None] is not accepted. *)
Definition loads (o : option string) : exc pyval :=
  match o with
  | Some s => json_loads s
  | None => Raise (type_error "the JSON object must be str, bytes or bytearray, not NoneType")
  end.

(** Method 1, the body of the loop over the JSON script tags. *)
Definition method1_script (script : BS4.node) : exc (option pyval) :=
  continue_on [JSONDecodeError; AttributeError]
    (json_data <- loads (BS4.string_of script) ;;
     found <- py_in_any ["photoGallery"; "images"] json_data ;;
     Ok (if found then Some json_data else None)).

(** Method 2, the body of the loop over the matches of one pattern. *)
Definition looks_like_image_item (item : pyval) : bool :=
  match item with
  | PDict d => Py.has_key "url" d || Py.has_key "href" d || Py.has_key "src" d
  | _ => false
  end.

Definition method2_match (m : string) : exc (option pyval) :=
  continue_on [JSONDecodeError]
    (if Str.startswith "{" m then
       json_data <- json_loads m ;;
       found <- py_in_any ["photoGallery"; "images"; "photos"] json_data ;;
       Ok (if found then Some json_data else None)
     else if Str.startswith "[" m then
       json_data <- json_loads m ;;
       match json_data with
       | PList (_ :: _ as items) =>
           Ok (if existsb looks_like_image_item items
               then Some (PDict [("images", json_data)])
               else None)
       | _ => Ok None
       end
     else Ok None).

Definition method2_script (script : BS4.node) : exc (option pyval) :=
  if str_truthy (BS4.string_of script) then
    match BS4.string_of script with
    | Some script_content =>
        first_result
          (fun pattern => first_result method2_match (Re.findall1 pattern script_content))
          patterns
    | None => Ok None
    end
  else Ok None.

(** Method 3, the body of the loop over the fragments of one script. *)
Definition method3_match (m : string) : exc (option pyval) :=
  continue_on [JSONDecodeError]
    (json_data <- json_loads m ;;
     found <- py_in_any ["url"; "href"; "src"; "photo"; "image"] json_data ;;
     Ok (if found then Some json_data else None)).

Definition method3_script (script : BS4.node) : exc (option pyval) :=
  match BS4.string_of script with
  | Some text =>
      if negb (text =? EmptyString)
         && (Str.contains "photo" (Str.lower text) || Str.contains "image" (Str.lower text))
      then first_result method3_match (Re.findall0 fragment_pattern text)
      else Ok None
  | None => Ok None
  end.

(** A sequence of strategies: the first one that returns a result ends
    the function. *)
Definition or_else {B : Type} (a b : exc (option B)) : exc (option B) :=
  r <- a ;;
  match r with
  | Some y => Ok (Some y)
  | None => b
  end.

(** The body of the [try] block. *)
Definition extract_json_attempt (html_content : string) : exc (option pyval) :=
  soup <- html_parser html_content ;;
  or_else (first_result method1_script
             (BS4.find_all_with "script" "type" "application/json" soup))
    (or_else (first_result method2_script (BS4.find_all "script" soup))
       (first_result method3_script (BS4.find_all "script" soup))).

(** [None] stands for the function's [return None]. *)
Definition extract_json_from_page (html_content : string) : exc (option pyval) :=
  match extract_json_attempt html_content with
  | Ok json_data => Ok json_data
  | Raise _ => Ok None                         (* except Exception *)
  end.

End StructuredData.

(* ================================================================== *)
(** * Walking the payload: [extract_image_urls] *)
(* ================================================================== *)

Definition photo_keys : list string := ["photoGallery"; "images"; "photos"; "pictures"].
Definition url_fields : list string := ["url"; "href"; "src"; "imageUrl"; "photoUrl"].

(** The loop over [url_fields] for one item of a photo collection. *)
Definition item_urls (item : list (string * pyval)) : list pyval :=
  flat_map (fun url_field =>
              match Py.lookup url_field item with
              | Some v => if Py.truthy v then [v] else []
              | None => []
              end) url_fields.

(** [search_for_images]: the values appended to [image_urls], in the
    order they are appended. *)
Fixpoint search_for_images (data : pyval) : list pyval :=
  match data with
  | PDict d =>
      (fix items (d : list (string * pyval)) : list pyval :=
         match d with
         | [] => []
         | (key, value) :: d' =>
             ((if existsb (String.eqb (Str.lower key)) photo_keys then
                 match value with
                 | PList l =>
                     (fix each (l : list pyval) : list pyval :=
                        match l with
                        | [] => []
                        | item :: l' =>
                            (match item with
                             | PDict fields => item_urls fields ++ search_for_images item
                             | _ => []
                             end ++ each l')%list
                        end) l
                 | PStr _ => if is_image_url value then [value] else []
                 | _ => []
                 end
               else search_for_images value) ++ items d')%list
         end) d
  | PList l =>
      (fix each (l : list pyval) : list pyval :=
         match l with
         | [] => []
         | item :: l' => (search_for_images item ++ each l')%list
         end) l
  | PStr _ => if is_image_url data then [data] else []
  | _ => []
  end.

Definition extract_image_urls (set_order : list pyval -> list pyval)
           (json_data : pyval) : exc (list pyval) :=
  list_of_set set_order (search_for_images json_data).

(* ================================================================== *)
(** * Markup fallback extractor: [extract_images_from_html] *)
(* ================================================================== *)

(** The conversion of relative URLs. *)
Definition absolute (src : string) : string :=
  if Str.startswith "//" src then "https:" ++ src
  else if Str.startswith "/" src then "https://www.zillow.com" ++ src
  else src.

Definition src_attrs : list string :=
  ["src"; "data-src"; "data-lazy-src"; "data-original"; "data-srcset"].

(** The loop over [src_attrs] for one [img] tag, left at the first
    attribute that holds an image URL. *)
Fixpoint img_source (img : BS4.node) (attrs : list string) : list string :=
  match attrs with
  | [] => []
  | attr :: attrs' =>
      if str_truthy (BS4.get attr img) then
        match BS4.get attr img with
        | Some src => if is_image_url (PStr src) then [absolute src]
                      else img_source img attrs'
        | None => img_source img attrs'
        end
      else img_source img attrs'
  end.

(** [([^\s,]+)] *)
Definition srcset_pattern : Re.regex :=
  Re.Grp (Re.Plus (fun c => negb (Str.is_space c || Ascii.eqb c ","%char))).

Definition image_urls_of (urls : list string) : list string :=
  flat_map (fun url => if is_image_url (PStr url) then [absolute url] else []) urls.

Definition source_urls (source : BS4.node) : list string :=
  match BS4.get "srcset" source with
  | Some srcset =>
      if negb (srcset =? EmptyString)
      then image_urls_of (Re.findall1 srcset_pattern srcset)
      else []
  | None => []
  end.

Definition picture_urls (picture : BS4.node) : list string :=
  flat_map source_urls (BS4.find_all_in "source" picture).

(** [background-image] and [background-image:\s*url\([Q]?([^Q]+)[Q]?\)],
    where [Q] is a single or a double quote. *)
Definition is_quote (c : ascii) : bool := Ascii.eqb c dquote || Ascii.eqb c "'"%char.

Definition style_pattern : Re.regex := Re.Lit "background-image".

Definition background_pattern : Re.regex :=
  Re.seqs [Re.Lit "background-image:"; ws; Re.Lit "url("; Re.Opt is_quote;
           Re.Grp (Re.Plus (fun c => negb (is_quote c)));
           Re.Opt is_quote; Re.Lit ")"].

Definition background_urls (element : BS4.node) : list string :=
  let style := match BS4.get "style" element with Some s => s | None => EmptyString end in
  match Re.search background_pattern style with
  | Some bg_match => image_urls_of [Re.group 1 bg_match]
  | None => []
  end.

Definition data_src_urls (element : BS4.node) : list string :=
  if str_truthy (BS4.get "data-src" element) then
    match BS4.get "data-src" element with
    | Some data_src => image_urls_of [data_src]
    | None => []
    end
  else [].

(** [https://photos\.zillowstatic\.com/fp/([a-f0-9]{32})-cc_ft_\d+\.(jpg|webp|png)] *)
Definition zillow_photo_pattern : Re.regex :=
  Re.seqs [Re.Lit "https://photos.zillowstatic.com/fp/";
           Re.Grp (Re.Rep 32 Str.is_hex_lower); Re.Lit "-cc_ft_";
           Re.Plus Str.is_digit; Re.Lit "."; Re.Grp (Re.lits "jpg" ["webp"; "png"])].

(** The URL built for one match of the photo pattern. *)
Definition full_url (m : string * string) : string :=
  "https://photos.zillowstatic.com/fp/" ++ fst m ++ "-cc_ft_1536." ++ snd m.

(** The candidates collected from the tree: [img] tags, [picture] tags,
    background styles and [data-src] attributes, in the order they are
    appended to [image_urls]. *)
Definition tree_candidates (soup : BS4.soup) : list string :=
  (flat_map (fun img => img_source img src_attrs) (BS4.find_all "img" soup)
   ++ flat_map picture_urls (BS4.find_all "picture" soup)
   ++ flat_map background_urls (BS4.find_all_attr_re "style" style_pattern soup)
   ++ flat_map data_src_urls (BS4.find_all_attr "data-src" soup))%list.

(** The candidates built from the matches of the photo pattern in the
    raw text. *)
Definition raw_candidates (html_content : string) : list string :=
  map full_url (Re.findall2 zillow_photo_pattern html_content).

Definition html_candidates (soup : BS4.soup) (html_content : string) : list string :=
  (tree_candidates soup ++ raw_candidates html_content)%list.

Section Pipeline.

Variable html_parser : string -> exc BS4.soup.
Variable json_loads : string -> exc pyval.
Variable set_order : list pyval -> list pyval.

(** The body of the [try] block. *)
Definition extract_images_attempt (html_content : string) : exc (list pyval) :=
  soup <- html_parser html_content ;;
  filter_unique_images set_order (map PStr (html_candidates soup html_content)).

Definition extract_images_from_html (html_content : string) : exc (list pyval) :=
  match extract_images_attempt html_content with
  | Ok unique_images => Ok unique_images
  | Raise _ => Ok []                            (* except Exception *)
  end.

(** The part of [main] that turns the text of the page into the list
    of image URLs (from the extraction of the JSON data to the filtered
    list). *)
Definition main_image_urls (html_content : string) : exc (list pyval) :=
  json_data <- extract_json_from_page html_parser json_loads html_content ;;
  image_urls <-
    match json_data with
    | Some data => if Py.truthy data then extract_image_urls set_order data else Ok []
    | None => Ok []
    end ;;
  match image_urls with
  | [] => extract_images_from_html html_content
  | _ => filter_unique_images set_order image_urls
  end.

End Pipeline.

(* ================================================================== *)
(** * Fetch/upload orchestrator: [download_and_upload_to_s3] *)
(* ================================================================== *)

(** What the script prints, one constructor per message. *)
Inductive event : Type :=
| EvNoCredentials                          (* AWS credentials not found ... *)
| EvS3Access (detail : string)             (* Error accessing S3: {e} *)
| EvFallbackLocal                          (* S3 not available, falling back ... *)
| EvStart (total : nat)                    (* Downloading {n} images and uploading to S3... *)
| EvProcessing (i total : nat) (url : pyval)   (* Processing image {i}/{n}: {url} *)
| EvUploadError (detail : string)          (* Error uploading to S3: {e} *)
| EvUploaded (filename : string)           (* Uploaded: {filename} *)
| EvUploadFailed (filename : string)       (* Failed to upload: {filename} *)
| EvError (url : pyval) (detail : string)  (* Error processing {url}: {e} *)
| EvSummary (uploaded total : nat).        (* Uploaded {k} out of {n} images to S3. *)

Module Path.

(** [os.path.basename]: what follows the last slash. *)
Fixpoint basename_acc (acc s : string) : string :=
  match s with
  | EmptyString => acc
  | String c s' =>
      if Ascii.eqb c "/"%char then basename_acc EmptyString s'
      else basename_acc (acc ++ String c EmptyString) s'
  end.

Definition basename (path : string) : string := basename_acc EmptyString path.

Fixpoint rev_acc (acc s : string) : string :=
  match s with
  | EmptyString => acc
  | String c s' => rev_acc (String c acc) s'
  end.

(** [s.endswith(p)]. *)
Definition endswith (p s : string) : bool :=
  String.prefix (rev_acc EmptyString p) (rev_acc EmptyString s).

End Path.

Section Orchestrator.

(** The world outside the script and the calls that reach it:
    - [http_get]: [requests.get(url, ...)] followed by
      [raise_for_status()], giving [response.content];
    - [s3_connect]: [boto3.client('s3')] followed by [list_buckets()];
    - [put_object]: the client's [put_object] with bucket, key, body
      and content type;
    - [getenv_bucket]: [os.getenv('S3_BUCKET_NAME', 'zillow-images')];
    - [url_path]: [urlparse(url).path];
    - [download_all_images]: the script's local-download path, taken
      as it comes: it is entered only when no S3 client is available. *)
Variable World : Type.
Variable http_get : pyval -> World -> exc string * World.
Variable s3_connect : World -> exc unit * World.
Variable put_object : string -> string -> string -> string -> World -> exc unit * World.
Variable getenv_bucket : World -> string.
Variable url_path : pyval -> exc string.

Record state : Type := MkState { world : World; printed : list event }.

(** A computation that may raise and that changes the world and the
    output. *)
Definition io (A : Type) : Type := state -> exc A * state.

Variable download_all_images : list pyval -> string -> io pyval.

Definition ret {A : Type} (a : A) : io A := fun st => (Ok a, st).

Definition io_bind {A B : Type} (m : io A) (f : A -> io B) : io B :=
  fun st =>
    match m st with
    | (Ok a, st') => f a st'
    | (Raise e, st') => (Raise e, st')
    end.

Definition print (ev : event) : io unit :=
  fun st => (Ok tt, MkState (world st) (printed st ++ [ev])).

Definition call {A : Type} (f : World -> exc A * World) : io A :=
  fun st => let (r, w) := f (world st) in (r, MkState w (printed st)).

Definition lift {A : Type} (r : exc A) : io A := fun st => (r, st).

(** [try: m except <classes> as e: handler e]; [None] catches all. *)
Definition try_except {A : Type} (m : io A) (classes : option (list exn_class))
           (handler : exn -> io A) : io A :=
  fun st =>
    match m st with
    | (Ok a, st') => (Ok a, st')
    | (Raise e, st') =>
        match classes with
        | None => handler e st'
        | Some cs =>
            if existsb (exn_class_eqb (exn_cls e)) cs then handler e st'
            else (Raise e, st')
        end
    end.

Notation "x <~ m ;; k" := (io_bind m (fun x => k))
  (at level 61, m at next level, right associativity).
Notation "m ;;; k" := (io_bind m (fun _ => k))
  (at level 61, right associativity).

(** Whether a client was obtained. *)
Definition get_s3_client : io bool :=
  fun st =>
    match call s3_connect st with
    | (Ok _, st') => (Ok true, st')
    | (Raise e, st') =>
        match exn_cls e with
        | NoCredentialsError => (print EvNoCredentials ;;; ret false) st'
        | ClientError => (print (EvS3Access (exn_msg e)) ;;; ret false) st'
        | _ => (Raise e, st')
        end
    end.

Definition upload_to_s3 (image_data bucket_name s3_key : string) : io bool :=
  try_except
    (call (put_object bucket_name s3_key image_data
             (if Path.endswith ".jpg" s3_key then "image/jpeg" else "image/webp")) ;;;
     ret true)
    (Some [ClientError])
    (fun e => print (EvUploadError (exn_msg e)) ;;; ret false).

(** The name under which image number [i] is stored. *)
Definition filename_of (path : string) (i : nat) : string :=
  let filename := Path.basename path in
  if (filename =? EmptyString) || negb (Str.contains "." filename)
  then "image_" ++ Str.of_nat_pad 3 i ++ ".jpg"
  else filename.

(** One turn of the loop over the URLs: the S3 URL when the image was
    uploaded. *)
Definition process_url (listing_id bucket_name : string) (total i : nat)
           (url : pyval) : io (option string) :=
  try_except
    (print (EvProcessing i total url) ;;;
     content <~ call (http_get url) ;;
     path <~ lift (url_path url) ;;
     let filename := filename_of path i in
     let s3_key := "listings/" ++ listing_id ++ "/" ++ filename in
     uploaded <~ upload_to_s3 content bucket_name s3_key ;;
     if uploaded then
       print (EvUploaded filename) ;;;
       ret (Some ("https://" ++ bucket_name ++ ".s3.amazonaws.com/" ++ s3_key))
     else
       print (EvUploadFailed filename) ;;; ret None)
    None
    (fun e => print (EvError url (exn_msg e)) ;;; ret None).

(** The loop: [i] counts from 1; [uploaded_count] and [s3_urls] grow
    together with every upload. *)
Fixpoint process_urls (listing_id bucket_name : string) (total i : nat)
         (urls : list pyval) (uploaded_count : nat) (s3_urls : list string)
  : io (nat * list string) :=
  match urls with
  | [] => ret (uploaded_count, s3_urls)
  | url :: urls' =>
      r <~ process_url listing_id bucket_name total i url ;;
      match r with
      | Some s3_url =>
          process_urls listing_id bucket_name total (S i) urls'
                       (uploaded_count + 1) (s3_urls ++ [s3_url])%list
      | None =>
          process_urls listing_id bucket_name total (S i) urls'
                       uploaded_count s3_urls
      end
  end.

Definition py_nat (n : nat) : pyval := PInt (Z.of_nat n).

Definition download_and_upload_to_s3 (image_urls : list pyval)
           (listing_id : string) (bucket_name : option string) : io pyval :=
  match image_urls with
  | [] => ret (PDict [("success", py_nat 0); ("total", py_nat 0); ("s3_urls", PList [])])
  | _ =>
      s3_client <~ get_s3_client ;;
      if negb s3_client then
        print EvFallbackLocal ;;;
        download_all_images image_urls ("zillow_images_" ++ listing_id)
      else
        bucket <~ (if str_truthy bucket_name
                   then ret (match bucket_name with Some b => b | None => EmptyString end)
                   else fun st => (Ok (getenv_bucket (world st)), st)) ;;
        print (EvStart (List.length image_urls)) ;;;
        done <~ process_urls listing_id bucket (List.length image_urls) 1 image_urls 0 [] ;;
        let (uploaded_count, s3_urls) := done in
        print (EvSummary uploaded_count (List.length image_urls)) ;;;
        ret (PDict [("success", py_nat uploaded_count);
                    ("total", py_nat (List.length image_urls));
                    ("s3_urls", PList (map PStr s3_urls));
                    ("bucket", PStr bucket);
                    ("listing_id", PStr listing_id)])
  end.

End Orchestrator.

(** A summary holds a record of a failed item: under one of its keys a
    list with a dictionary that names the item's URL and carries a
    non-empty error detail. *)
Definition has_failure_record (summary url : pyval) : Prop :=
  exists d key items record url_field detail_field detail,
    summary = PDict d /\
    Py.lookup key d = Some (PList items) /\
    In (PDict record) items /\
    Py.lookup url_field record = Some url /\
    Py.lookup detail_field record = Some (PStr detail) /\
    detail <> EmptyString.

(** * Example inputs *)

(** The payload [{<q>photos<q>:[{<q>url<q>:<q>https://x/a.jpg<q>},{<q>href<q>:<q>https://x/b.png<q>}]}]
    and the array inside it, as texts and as the trees [json.loads]
    makes of them. *)
Definition photos_array_text : string :=
  "[{" ++ quoted "url" ++ ":" ++ quoted "https://x/a.jpg" ++ "},{"
       ++ quoted "href" ++ ":" ++ quoted "https://x/b.png" ++ "}]".

Definition photos_payload_text : string :=
  "{" ++ quoted "photos" ++ ":" ++ photos_array_text ++ "}".

Definition photos_array : pyval :=
  PList [PDict [("url", PStr "https://x/a.jpg")];
         PDict [("href", PStr "https://x/b.png")]].

Definition photos_payload : pyval := PDict [("photos", photos_array)].

(** A [json.loads] that knows these two texts and rejects every other. *)
Definition loads_photos (s : string) : exc pyval :=
  if s =? photos_array_text then Ok photos_array
  else if s =? photos_payload_text then Ok photos_payload
  else Raise (MkExn JSONDecodeError "Expecting value").

(** A page whose only script block holds the payload: its text and its
    tree. *)
Definition json_script_open : string :=
  "<script type=" ++ quoted "application/json" ++ ">".

Definition photos_html : string :=
  "<html><body>" ++ json_script_open ++ photos_payload_text ++ "</script></body></html>".

Definition photos_page : BS4.soup :=
  [BS4.Tag "html" []
     [BS4.Tag "body" []
        [BS4.Tag "script" [("type", "application/json")]
           [BS4.Text photos_payload_text]]]].

(** A page with two JSON script blocks: the first has no text, the
    second holds [{<q>images<q>:[{<q>url<q>:<q>https://x/a.jpg<q>}]}]. *)
Definition images_payload_text : string :=
  "{" ++ quoted "images" ++ ":[{" ++ quoted "url" ++ ":" ++ quoted "https://x/a.jpg" ++ "}]}".

Definition images_payload : pyval :=
  PDict [("images", PList [PDict [("url", PStr "https://x/a.jpg")]])].

Definition loads_images (s : string) : exc pyval :=
  if s =? images_payload_text then Ok images_payload
  else Raise (MkExn JSONDecodeError "Expecting value").

Definition empty_json_script : BS4.node :=
  BS4.Tag "script" [("type", "application/json")] [].

Definition images_script : BS4.node :=
  BS4.Tag "script" [("type", "application/json")] [BS4.Text images_payload_text].

Definition empty_script_html : string :=
  "<html><head>" ++ json_script_open ++ "</script>"
  ++ json_script_open ++ images_payload_text ++ "</script></head></html>".

Definition empty_script_page : BS4.soup :=
  [BS4.Tag "html" [] [BS4.Tag "head" [] [empty_json_script; images_script]]].

(** A page without any script, [img] or [picture] tag, without a style
    or [data-src] attribute, whose text names a photo of the source site. *)
Definition text_only_html : string := "<p>" ++ photo_url "192" "jpg" ++ "</p>".

Definition text_only_page : BS4.soup :=
  [BS4.Tag "p" [] [BS4.Text (photo_url "192" "jpg")]].

(** The order in which a set is iterated, reversed. *)
Definition members_reversed (l : list pyval) : list pyval := rev (PySet.members l).

(** A world for a batch of three URLs in which the second fetch fails:
    fetching [https://x/b.jpg] raises a connection error, every other
    fetch and every upload succeeds. *)
Definition demo_http_get (url : pyval) (w : unit) : exc string * unit :=
  match url with
  | PStr "https://x/b.jpg" => (Raise (MkExn RequestException "connection refused"), w)
  | _ => (Ok "image bytes", w)
  end.

Definition demo_url_path (url : pyval) : exc string :=
  match url with
  | PStr "https://x/a.jpg" => Ok "/a.jpg"
  | PStr "https://x/b.jpg" => Ok "/b.jpg"
  | PStr "https://x/c.jpg" => Ok "/c.jpg"
  | _ => Ok EmptyString
  end.

Definition demo_run (image_urls : list pyval) : exc pyval * state unit :=
  download_and_upload_to_s3
    demo_http_get (fun w => (Ok tt, w)) (fun _ _ _ _ w => (Ok tt, w))
    (fun _ => "zillow-images") demo_url_path
    (fun _ _ st => (Ok (PInt 0), st))
    image_urls "zpid_1" None (MkState tt []).

(* ================================================================== *)
(** * What a match of a pattern looks like

    [matches r s s' caps]: the pattern [r] can take a prefix off [s],
    leaving [s'] and closing the groups [caps]. The matcher only ever
    returns such matches. *)
(* ================================================================== *)

Fixpoint all_chars (p : ascii -> bool) (s : string) : bool :=
  match s with
  | EmptyString => true
  | String c s' => p c && all_chars p s'
  end.

Inductive matches : Re.regex -> string -> string -> list string -> Prop :=
| M_Lit l s' : matches (Re.Lit l) (l ++ s') s' []
| M_Chr p c s' : p c = true -> matches (Re.Chr p) (String c s') s' []
| M_Seq r1 r2 s s1 s' n1 n2 :
    matches r1 s s1 n1 -> matches r2 s1 s' n2 ->
    matches (Re.Seq r1 r2) s s' (n1 ++ n2)%list
| M_Alt_l r1 r2 s s' n : matches r1 s s' n -> matches (Re.Alt r1 r2) s s' n
| M_Alt_r r1 r2 s s' n : matches r2 s s' n -> matches (Re.Alt r1 r2) s s' n
| M_Star p pre s' :
    all_chars p pre = true -> matches (Re.Star p) (pre ++ s') s' []
| M_StarLazy p pre s' :
    all_chars p pre = true -> matches (Re.StarLazy p) (pre ++ s') s' []
| M_Opt_none p s : matches (Re.Opt p) s s []
| M_Opt_some p c s' : p c = true -> matches (Re.Opt p) (String c s') s' []
| M_Rep n p pre s' :
    String.length pre = n -> all_chars p pre = true ->
    matches (Re.Rep n p) (pre ++ s') s' []
| M_Grp r s s' n :
    matches r s s' n ->
    matches (Re.Grp r) s s' (n ++ [Str.take (String.length s - String.length s') s])%list.

(** A 32-character identifier of the photo pattern. *)
Definition is_photo_id (id : string) : Prop :=
  String.length id = 32 /\ all_chars Str.is_hex_lower id = true.

Definition is_photo_ext (ext : string) : Prop :=
  ext = "jpg" \/ ext = "webp" \/ ext = "png".

(** A size token: one or more digits. *)
Definition nonempty_digits (size : string) : Prop :=
  size <> EmptyString /\ all_chars Str.is_digit size = true.

(** The URL of a photo of the source site at a given size. *)
Definition cdn_url (id size ext : string) : string :=
  "https://photos.zillowstatic.com/fp/" ++ id ++ "-cc_ft_" ++ size ++ "." ++ ext.

(** A page that shows one photo at three sizes, as three [img] tags. *)
Definition variants_html : string :=
  "<img src=" ++ quoted (photo_url "192" "jpg") ++ ">"
  ++ "<img src=" ++ quoted (photo_url "768" "jpg") ++ ">"
  ++ "<img src=" ++ quoted (photo_url "1536" "jpg") ++ ">".

Definition variants_page : BS4.soup :=
  [BS4.Tag "img" [("src", photo_url "192" "jpg")] [];
   BS4.Tag "img" [("src", photo_url "768" "jpg")] [];
   BS4.Tag "img" [("src", photo_url "1536" "jpg")] []].

(* ================================================================== *)
(** * Notions used to state the properties of the deduplicator *)
(* ================================================================== *)

(** What one turn of the grouping loop does to the dictionary when the
    candidate is a string. *)
Definition group_str (g : groups) (s : string) : groups :=
  if has_identity s
  then append_at (asset_key s) (PStr s)
         (if Py.has_key (asset_key s) g then g else Py.setitem (asset_key s) [] g)
  else Py.setitem s [PStr s] g.

(** Every group is filed under the key of each of its members, and no
    group is empty. *)
Definition group_ok (entry : string * list pyval) : Prop :=
  snd entry <> [] /\
  Forall (fun u => exists s, u = PStr s /\ asset_key s = fst entry) (snd entry).

Definition groups_ok (g : groups) : Prop :=
  NoDup (map fst g) /\ Forall group_ok g.

(** The first of the entries of [l] on which [f] is largest. *)
Definition first_max {A : Type} (f : A -> N) (l : list A) (b : A) : Prop :=
  exists pre post,
    l = (pre ++ b :: post)%list /\
    Forall (fun v => (f v < f b)%N) pre /\
    Forall (fun v => (f v <= f b)%N) post.

(** [y] is what the loop keeps of an entry. *)
Definition chosen (entry : string * list pyval) (y : string) : Prop :=
  exists zs, snd entry = map PStr zs /\ first_max resolution zs y /\
             asset_key y = fst entry.


(** What the walk appends for the items of a photo collection. *)
Definition collection_urls (l : list pyval) : list pyval :=
  flat_map (fun item =>
              match item with
              | PDict fields => (item_urls fields ++ search_for_images item)%list
              | _ => []
              end) l.

(** The texts of a page that the structured-data extractor may hand to
    [json.loads]: the texts of the JSON script blocks, the matches of the
    patterns of method 2 in every script text, and the fragments of
    method 3 in the script texts that mention photos or images. *)
Definition script_texts (scripts : list BS4.node) : list string :=
  flat_map (fun script => match BS4.string_of script with
                          | Some text => [text]
                          | None => []
                          end) scripts.

Definition json_fragments (soup : BS4.soup) : list string :=
  (script_texts (BS4.find_all_with "script" "type" "application/json" soup)
   ++ flat_map (fun text => flat_map (fun pattern => Re.findall1 pattern text) patterns)
               (script_texts (BS4.find_all "script" soup))
   ++ flat_map (fun text =>
                  if Str.contains "photo" (Str.lower text)
                     || Str.contains "image" (Str.lower text)
                  then Re.findall0 fragment_pattern text
                  else [])
               (script_texts (BS4.find_all "script" soup)))%list.

(** A strategy that produced no payload: it found nothing or it raised. *)
Definition no_result {B : Type} (r : exc (option B)) : Prop :=
  r = Ok None \/ raises r.

(** A page with a script block that holds no JSON. *)
Definition plain_script_html : string :=
  "<html>" ++ json_script_open ++ "not json</script><p>no photos</p></html>".

Definition plain_script_page : BS4.soup :=
  [BS4.Tag "html" []
     [BS4.Tag "script" [("type", "application/json")] [BS4.Text "not json"];
      BS4.Tag "p" [] [BS4.Text "no photos"]]].

From Stdlib Require DecimalNat DecimalFacts.

(* ================================================================== *)
(** * Further definitions *)
(* ================================================================== *)

(** The keys one of which a returned payload always mentions. *)
Definition payload_keys : list string :=
  ["photoGallery"; "images"; "photos"; "url"; "href"; "src"; "photo"; "image"].

(** A URL that the classifier accepts and that is not relative. *)
Definition absolute_image_url (u : string) : Prop :=
  is_image_url (PStr u) = true /\ Str.startswith "/" u = false.

(** Names of stored objects: not empty, with a dot, without a slash. *)
Definition no_slash (s : string) : bool :=
  all_chars (fun c => negb (Ascii.eqb c "/"%char)) s.

Definition object_name (filename : string) : Prop :=
  filename <> EmptyString /\ Str.contains "." filename = true /\ no_slash filename = true.

(** An S3 URL that points into the folder of a listing in a bucket. *)
Definition stored_under (bucket listing_id s3_url : string) : Prop :=
  exists filename,
    s3_url = "https://" ++ bucket ++ ".s3.amazonaws.com/" ++
             "listings/" ++ listing_id ++ "/" ++ filename /\
    object_name filename.

(* ================================================================== *)
(** * The identifier of a listing: [generate_listing_id] *)
(* ================================================================== *)

(** [/(\d+)_zpid/] *)
Definition zpid_pattern : Re.regex :=
  Re.seqs [Re.Lit "/"; Re.Grp (Re.Plus Str.is_digit); Re.Lit "_zpid/"].

Section ListingId.

(** The built-in [hash] on strings, salted anew in every process. *)
Variable hash : string -> Z.

(** [%] with a positive modulus gives a value from 0 to the modulus
    less one; [:06d] pads it with zeros to six digits. *)
Definition generate_listing_id (url : string) : string :=
  match Re.search zpid_pattern url with
  | Some zpid_match => "zpid_" ++ Re.group 1 zpid_match
  | None => "listing_" ++ Str.of_nat_pad 6 (Z.to_nat (hash url mod 1000000))
  end.

End ListingId.

(* ================================================================== *)
(** * Local download: [download_image], [download_all_images] *)
(* ================================================================== *)

Module OsPath.

(** [os.path.join(a, b)]. *)
Definition join (a b : string) : string :=
  if Str.startswith "/" b then b
  else if (a =? EmptyString) || Path.endswith "/" a then a ++ b
  else a ++ "/" ++ b.

(** [s.rfind(c)]: the index of the last [c] in [s], if there is one. *)
Fixpoint rfind_from (c : ascii) (s : string) (i : nat) (last : option nat) : option nat :=
  match s with
  | EmptyString => last
  | String x s' => rfind_from c s' (S i) (if Ascii.eqb x c then Some i else last)
  end.

Definition rfind (c : ascii) (s : string) : option nat := rfind_from c s 0 None.

(** [s[n:]]. *)
Fixpoint drop (n : nat) (s : string) : string :=
  match n, s with
  | S n', String _ s' => drop n' s'
  | _, _ => s
  end.

(** [os.path.splitext(p)]: the text is split at its last dot when that
    dot follows the last slash and some character between the two is
    not a dot; otherwise the extension is empty. *)
Definition splitext (p : string) : string * string :=
  match rfind "." p with
  | Some dotIndex =>
      let filenameIndex := match rfind "/" p with Some sepIndex => S sepIndex | None => 0 end in
      if (match rfind "/" p with Some sepIndex => (sepIndex <? dotIndex)%nat | None => true end)
         && negb (all_chars (fun c => Ascii.eqb c "."%char)
                            (Str.take (dotIndex - filenameIndex)%nat (drop filenameIndex p)))
      then (Str.take dotIndex p, drop dotIndex p)
      else (p, EmptyString)
  | None => (p, EmptyString)
  end.

End OsPath.

(** What the local download prints, one constructor per message. *)
Inductive local_event : Type :=
| EvNoImages                                     (* No images to download. *)
| EvDownloading (total : nat) (folder : string)  (* Downloading {n} images to '{folder}/' folder... *)
| EvDownloaded (filename : string)               (* Downloaded: {filename} *)
| EvDownloadError (url : pyval) (detail : string) (* Error downloading {url}: {e} *)
| EvDownloadSummary (downloaded total : nat).    (* Downloaded {k} out of {n} images. *)

(** [f<q>{base_name}_{counter}{ext}<q>] *)
Definition numbered (base_name ext : string) (counter : nat) : string :=
  base_name ++ "_" ++ Str.of_nat counter ++ ext.

Section LocalDownload.

(** The world of the local download:
    - [http_get]: as for the orchestrator;
    - [makedirs]: [os.makedirs(folder_name, exist_ok=True)];
    - [path_exists]: [os.path.exists];
    - [write_file]: [open(file_path, 'wb')] followed by the write;
    - [url_path]: [urlparse(url).path]. *)
Variable World : Type.
Variable http_get : pyval -> World -> exc string * World.
Variable makedirs : string -> World -> exc unit * World.
Variable path_exists : string -> World -> bool.
Variable write_file : string -> string -> World -> exc unit * World.
Variable url_path : pyval -> exc string.

Record local_state : Type := MkLocal { disk : World; shown : list local_event }.

Definition show (ev : local_event) (st : local_state) : local_state :=
  MkLocal (disk st) (shown st ++ [ev]).

(** [download_image]: every exception is caught and printed. *)
Definition download_image (url : pyval) (folder_path filename : string)
           (st : local_state) : bool * local_state :=
  match http_get url (disk st) with
  | (Ok content, w) =>
      match write_file (OsPath.join folder_path filename) content w with
      | (Ok _, w') => (true, show (EvDownloaded filename) (MkLocal w' (shown st)))
      | (Raise e, w') =>
          (false, show (EvDownloadError url (exn_msg e)) (MkLocal w' (shown st)))
      end
  | (Raise e, w) =>
      (false, show (EvDownloadError url (exn_msg e)) (MkLocal w (shown st)))
  end.

(** The loop that looks for a name that is not taken. It has no bound
    in the script; [fuel] bounds the number of tests here, and [None]
    stands for a search that has not ended within it. *)
Fixpoint free_name (fuel : nat) (folder_name base_name ext filename : string)
         (counter : nat) (w : World) : option string :=
  match fuel with
  | O => None
  | S fuel' =>
      if path_exists (OsPath.join folder_name filename) w
      then free_name fuel' folder_name base_name ext
                     (numbered base_name ext counter) (S counter) w
      else Some filename
  end.

(** One turn of the loop over the URLs; [urlparse] is not guarded. *)
Definition download_turn (fuel : nat) (folder_name : string) (i : nat) (url : pyval)
           (st : local_state) : option (exc bool * local_state) :=
  match url_path url with
  | Raise e => Some (Raise e, st)
  | Ok path =>
      let filename := filename_of path i in
      let (base_name, ext) := OsPath.splitext filename in
      match free_name fuel folder_name base_name ext filename 1 (disk st) with
      | None => None
      | Some filename' =>
          let (ok, st') := download_image url folder_name filename' st in
          Some (Ok ok, st')
      end
  end.

Fixpoint download_loop (fuel : nat) (folder_name : string) (i : nat)
         (urls : list pyval) (downloaded_count : nat) (st : local_state)
  : option (exc nat * local_state) :=
  match urls with
  | [] => Some (Ok downloaded_count, st)
  | url :: urls' =>
      match download_turn fuel folder_name i url st with
      | None => None
      | Some (Raise e, st') => Some (Raise e, st')
      | Some (Ok ok, st') =>
          download_loop fuel folder_name (S i) urls'
                        (if ok then downloaded_count + 1 else downloaded_count) st'
      end
  end.

Definition download_all_images (fuel : nat) (image_urls : list pyval)
           (folder_name : string) (st : local_state)
  : option (exc nat * local_state) :=
  match image_urls with
  | [] => Some (Ok 0, show EvNoImages st)
  | _ =>
      match makedirs folder_name (disk st) with
      | (Raise e, w) => Some (Raise e, MkLocal w (shown st))
      | (Ok _, w) =>
          match download_loop fuel folder_name 1 image_urls 0
                  (show (EvDownloading (List.length image_urls) folder_name)
                        (MkLocal w (shown st))) with
          | None => None
          | Some (Raise e, st') => Some (Raise e, st')
          | Some (Ok downloaded_count, st') =>
              Some (Ok downloaded_count,
                    show (EvDownloadSummary downloaded_count (List.length image_urls)) st')
          end
      end
  end.

End LocalDownload.

(** A world whose files are a finite map from paths to contents; the
    network and the permissions are left open. *)
Section FiniteDisk.

Variable Net : Type.
Variable net_get : pyval -> Net -> exc string * Net.
Variable writable : string -> bool.







End FiniteDisk.


(* ================================================================== *)
(** * The report of [main] on an upload *)
(* ================================================================== *)

(** [v[key]] for a string key. *)
Definition subscript (v : pyval) (key : string) : exc pyval :=
  match v with
  | PDict d =>
      match Py.lookup key d with
      | Some x => Ok x
      | None => Raise (MkExn OtherError ("KeyError: " ++ key))
      end
  | PStr _ => Raise (type_error "string indices must be integers")
  | PList _ => Raise (type_error "list indices must be integers or slices")
  | _ => Raise (type_error "object is not subscriptable")
  end.

(** The values a [for] loop over [v] visits. *)
Definition iterate (v : pyval) : exc (list pyval) :=
  match v with
  | PList l => Ok l
  | PStr s => Ok (map (fun c => PStr (String c EmptyString)) (list_ascii_of_string s))
  | PDict d => Ok (map (fun kv => PStr (fst kv)) d)
  | _ => Raise (type_error "object is not iterable")
  end.

(** The lines of the report, one constructor per message. *)
Inductive report_line : Type :=
| RlResults                                (* S3 Upload Results: *)
| RlUploaded (success total : pyval)       (* Successfully uploaded: {s}/{t} images *)
| RlBucket (bucket : pyval)                (* Bucket: {b} *)
| RlListing (listing_id : pyval)           (* Listing ID: {l} *)
| RlS3Urls                                 (* S3 URLs: *)
| RlS3Url (i : nat) (url : pyval).         (* {i}. {url} *)

Fixpoint enumerate_lines (i : nat) (urls : list pyval) : list report_line :=
  match urls with
  | [] => []
  | url :: urls' => RlS3Url i url :: enumerate_lines (S i) urls'
  end.

(** The prints that follow the call of the orchestrator in [main]: the
    lines printed, and whether the last of them raised. *)
Definition s3_report (result : pyval) : list report_line * exc unit :=
  match subscript result "success" with
  | Raise e => ([RlResults], Raise e)
  | Ok success =>
  match subscript result "total" with
  | Raise e => ([RlResults], Raise e)
  | Ok total =>
  match subscript result "bucket" with
  | Raise e => ([RlResults; RlUploaded success total], Raise e)
  | Ok bucket =>
  match subscript result "listing_id" with
  | Raise e => ([RlResults; RlUploaded success total; RlBucket bucket], Raise e)
  | Ok listing_id =>
  let head := [RlResults; RlUploaded success total; RlBucket bucket; RlListing listing_id] in
  match subscript result "s3_urls" with
  | Raise e => (head, Raise e)
  | Ok s3_urls =>
      if Py.truthy s3_urls then
        match iterate s3_urls with
        | Raise e => ((head ++ [RlS3Urls])%list, Raise e)
        | Ok urls => ((head ++ RlS3Urls :: enumerate_lines 1 urls)%list, Ok tt)
        end
      else (head, Ok tt)
  end end end end end.

Section MainUpload.

Variable World : Type.
Variable http_get : pyval -> World -> exc string * World.
Variable s3_connect : World -> exc unit * World.
Variable put_object : string -> string -> string -> string -> World -> exc unit * World.
Variable getenv_bucket : World -> string.
Variable url_path : pyval -> exc string.
Variable download_all_images : list pyval -> string -> io World pyval.

(** The branch of [main] taken with [--s3] and a list of URLs that is
    not empty: the outcome, the state, and the lines of the report. *)
Definition main_s3_branch (image_urls : list pyval) (listing_id : string)
           (bucket : option string) (st : state World)
  : (exc unit * state World) * list report_line :=
  match download_and_upload_to_s3 http_get s3_connect put_object getenv_bucket
          url_path download_all_images image_urls listing_id bucket st with
  | (Ok result, st') => let (lines, r) := s3_report result in ((r, st'), lines)
  | (Raise e, st') => ((Raise e, st'), [])
  end.

End MainUpload.


(* ================================================================== *)
(** * Properties of the deduplicator *)
(* ================================================================== *)

Section DictFacts.
Variable V : Type.
Implicit Types (d : list (string * V)) (k : string).

Lemma has_key_in_keys k d : Py.has_key k d = true <-> In k (map fst d).
Proof.
  unfold Py.has_key. induction d as [|[k' v] d IH]; simpl.
  - split; [discriminate | tauto].
  - destruct (String.eqb_spec k' k) as [->|Hne]; simpl.
    + split; auto.
    + rewrite IH. split; [auto | intros [H|H]; [congruence | exact H]].
Qed.

Lemma has_key_false k d : Py.has_key k d = false <-> ~ In k (map fst d).
Proof.
  rewrite <- has_key_in_keys. destruct (Py.has_key k d); split; congruence.
Qed.

Lemma setitem_new k v d :
  ~ In k (map fst d) -> Py.setitem k v d = (d ++ [(k, v)])%list.
Proof.
  induction d as [|[k' v'] d IH]; simpl; intros Hn; [reflexivity|].
  destruct (String.eqb_spec k' k) as [->|Hne]; [tauto|].
  rewrite IH; [reflexivity | tauto].
Qed.

Lemma setitem_keys_present k v d :
  In k (map fst d) -> map fst (Py.setitem k v d) = map fst d.
Proof.
  induction d as [|[k' v'] d IH]; simpl; intros Hin; [tauto|].
  destruct (String.eqb_spec k' k) as [->|Hne]; simpl; [reflexivity|].
  rewrite IH; [reflexivity | destruct Hin; [congruence | assumption]].
Qed.

Lemma setitem_nodup k v d :
  NoDup (map fst d) -> NoDup (map fst (Py.setitem k v d)).
Proof.
  intros Hnd. destruct (in_dec string_dec k (map fst d)) as [Hin|Hout].
  - rewrite setitem_keys_present; assumption.
  - rewrite setitem_new by assumption. rewrite map_app. simpl.
    apply NoDup_app; [assumption | constructor; [simpl; tauto | constructor] |].
    intros x Hx [<-|[]]. contradiction.
Qed.

Lemma setitem_forall (P : string * V -> Prop) k v d :
  Forall P d -> P (k, v) -> Forall P (Py.setitem k v d).
Proof.
  intros Hd Hk. induction Hd as [|[k' v'] d Hx Hd IH]; simpl.
  - constructor; [assumption | constructor].
  - destruct (String.eqb_spec k' k) as [->|Hne]; constructor; auto.
Qed.

End DictFacts.

Lemma append_at_keys k u (g : groups) : map fst (append_at k u g) = map fst g.
Proof.
  induction g as [|[k' us] g IH]; simpl; [reflexivity|].
  destruct (k' =? k); simpl; [reflexivity | now rewrite IH].
Qed.

Lemma append_at_forall (P : string * list pyval -> Prop) k u (g : groups) :
  Forall P g ->
  (forall us, P (k, us) -> P (k, (us ++ [u])%list)) ->
  Forall P (append_at k u g).
Proof.
  intros Hg Hk. induction Hg as [|[k' us] g Hx Hg IH]; simpl.
  - constructor.
  - destruct (String.eqb_spec k' k) as [->|Hne]; constructor; auto.
Qed.


(** ** The grouping loop on strings *)

Lemma group_url_str g s : group_url g (PStr s) = Ok (group_str g s).
Proof.
  unfold group_url, group_str, has_identity, asset_key, re_search. simpl.
  destruct (Re.search base_pattern s) as [m|]; simpl; [|reflexivity].
  destruct (Py.has_key (Re.group 1 m) g); reflexivity.
Qed.

Lemma asset_key_no_identity s : has_identity s = false -> asset_key s = s.
Proof.
  unfold has_identity, asset_key. now destruct (Re.search base_pattern s).
Qed.

Lemma group_url_ok_inv g v g' :
  group_url g v = Ok g' -> exists s, v = PStr s /\ g' = group_str g s.
Proof.
  destruct v as [| | |s| |]; try discriminate.
  rewrite group_url_str. intros [= <-]. eauto.
Qed.

Lemma foldM_group_str xs g :
  foldM group_url (map PStr xs) g = Ok (fold_left group_str xs g).
Proof.
  revert g. induction xs as [|x xs IH]; intros g; simpl; [reflexivity|].
  rewrite group_url_str. simpl. apply IH.
Qed.

Lemma foldM_group_ok_inv vs : forall g g',
  foldM group_url vs g = Ok g' ->
  exists xs, vs = map PStr xs /\ g' = fold_left group_str xs g.
Proof.
  induction vs as [|v vs IH]; intros g g'; simpl.
  - intros [= <-]. exists []. auto.
  - destruct (group_url g v) as [g1|e] eqn:E; simpl; [|discriminate].
    apply group_url_ok_inv in E as (s & -> & ->).
    intros H. apply IH in H as (xs & -> & ->). exists (s :: xs). auto.
Qed.

Lemma groups_ok_nil : groups_ok [].
Proof. split; constructor. Qed.

Lemma append_at_new k u us (g : groups) :
  ~ In k (map fst g) ->
  append_at k u (g ++ [(k, us)])%list = (g ++ [(k, (us ++ [u])%list)])%list.
Proof.
  induction g as [|[k' us'] g IH]; simpl; intros Hn.
  - now rewrite String.eqb_refl.
  - destruct (String.eqb_spec k' k) as [->|Hne]; [tauto|].
    rewrite IH; [reflexivity | tauto].
Qed.

(** The same turn, split on whether the key is already present. *)
Lemma group_str_cases g s :
  group_str g s =
  if Py.has_key (asset_key s) g
  then if has_identity s then append_at (asset_key s) (PStr s) g
       else Py.setitem (asset_key s) [PStr s] g
  else (g ++ [(asset_key s, [PStr s])])%list.
Proof.
  unfold group_str. destruct (has_identity s) eqn:Hid.
  - destruct (Py.has_key (asset_key s) g) eqn:Hk; [reflexivity|].
    apply has_key_false in Hk.
    rewrite setitem_new by assumption. now rewrite append_at_new.
  - rewrite (asset_key_no_identity _ Hid).
    destruct (Py.has_key s g) eqn:Hk; [reflexivity|].
    apply has_key_false in Hk. now apply setitem_new.
Qed.

Lemma group_ok_single s : group_ok (asset_key s, [PStr s]).
Proof.
  split; simpl; [discriminate|]. constructor; [eauto | constructor].
Qed.

Lemma group_str_ok g s : groups_ok g -> groups_ok (group_str g s).
Proof.
  intros [Hnd Hall]. rewrite group_str_cases.
  destruct (Py.has_key (asset_key s) g) eqn:Hk.
  - destruct (has_identity s).
    + split; [now rewrite append_at_keys|].
      apply append_at_forall; [assumption|].
      intros us [Hne Hus]; simpl in *. split; simpl.
      * destruct us; discriminate.
      * apply Forall_app. split; [assumption|]. constructor; [eauto | constructor].
    + split; [now apply setitem_nodup|].
      apply setitem_forall; [assumption | apply group_ok_single].
  - apply has_key_false in Hk. split.
    + rewrite map_app. simpl.
      apply NoDup_app; [assumption | constructor; [simpl; tauto | constructor] |].
      intros x Hx [<-|[]]. contradiction.
    + apply Forall_app. split; [assumption|].
      constructor; [apply group_ok_single | constructor].
Qed.

Lemma fold_group_str_ok xs : forall g,
  groups_ok g -> groups_ok (fold_left group_str xs g).
Proof.
  induction xs as [|x xs IH]; intros g Hg; simpl; [assumption|].
  apply IH. now apply group_str_ok.
Qed.

(** ** The resolution resolver *)

Lemma first_max_in {A : Type} (f : A -> N) l b : first_max f l b -> In b l.
Proof. intros (pre & post & -> & _). apply in_elt. Qed.


Lemma first_max_single {A : Type} (f : A -> N) b : first_max f [b] b.
Proof. exists [], []. repeat split; constructor. Qed.

Lemma hd_insert_desc {A : Type} (x : N * A) l :
  hd_error (insert_desc x l) =
  Some match l with
       | [] => x
       | y :: _ => if (fst y <=? fst x)%N then x else y
       end.
Proof.
  destruct l as [|y l]; simpl; [reflexivity|].
  destruct (fst y <=? fst x)%N; reflexivity.
Qed.

Lemma insert_desc_nonnil {A : Type} (x : N * A) l : insert_desc x l <> [].
Proof. destruct l; simpl; [|destruct (_ <=? _)%N]; discriminate. Qed.

Lemma sort_desc_nil_inv {A : Type} (l : list (N * A)) : sort_desc l = [] -> l = [].
Proof.
  destruct l; [reflexivity|]. simpl. intros H. now apply insert_desc_nonnil in H.
Qed.

(** The head of the sorted list is the first entry with the largest key. *)
Lemma sort_desc_head {A : Type} (l : list (N * A)) :
  l <> [] -> exists b, hd_error (sort_desc l) = Some b /\ first_max fst l b.
Proof.
  induction l as [|x l IH]; [congruence|]. intros _. simpl.
  rewrite hd_insert_desc.
  destruct (sort_desc l) as [|y s] eqn:Es.
  - apply sort_desc_nil_inv in Es. subst l. eexists. split; [reflexivity|].
    apply first_max_single.
  - assert (Hl : l <> []) by (intros ->; discriminate).
    destruct (IH Hl) as (b & Hb & pre & post & El & Hpre & Hpost).
    simpl in Hb. injection Hb as ->.
    destruct (fst b <=? fst x)%N eqn:Hle; eexists; (split; [reflexivity|]).
    + apply N.leb_le in Hle. exists [], l. split; [reflexivity|]. split; [constructor|].
      subst l. apply Forall_app. split.
      * eapply Forall_impl; [|exact Hpre]. simpl. intros; lia.
      * constructor; [assumption|].
        eapply Forall_impl; [|exact Hpost]. simpl. intros; lia.
    + apply N.leb_gt in Hle. exists (x :: pre), post. subst l.
      split; [reflexivity|]. split; [constructor; assumption | assumption].
Qed.

Lemma url_resolution_str s : url_resolution (PStr s) = Ok (resolution s, PStr s).
Proof.
  unfold url_resolution, resolution, re_search. simpl.
  destruct (Re.search resolution_pattern s); reflexivity.
Qed.

Lemma mapM_url_resolution_str xs :
  mapM url_resolution (map PStr xs) = Ok (map (fun s => (resolution s, PStr s)) xs).
Proof.
  induction xs as [|x xs IH]; simpl; [reflexivity|].
  rewrite url_resolution_str. simpl. rewrite IH. reflexivity.
Qed.

Lemma mapM_url_resolution_snd urls : forall rs,
  mapM url_resolution urls = Ok rs -> map snd rs = urls.
Proof.
  induction urls as [|u urls IH]; simpl; intros rs.
  - intros [= <-]. reflexivity.
  - destruct (url_resolution u) as [[n v]|e] eqn:Eu; simpl; [|discriminate].
    destruct (mapM url_resolution urls) as [rs'|e]; simpl; [|discriminate].
    intros [= <-]. simpl. rewrite (IH rs' eq_refl). f_equal.
    unfold url_resolution in Eu.
    destruct (re_search resolution_pattern u) as [[m|]|]; simpl in Eu; congruence.
Qed.

Lemma first_max_map {A B : Type} (f : B -> N) (h : A -> B) l y :
  first_max f (map h l) y ->
  exists b, y = h b /\ first_max (fun a => f (h a)) l b.
Proof.
  intros (pre & post & E & Hpre & Hpost).
  apply map_eq_app in E as (pre' & l2 & -> & <- & E2).
  apply map_eq_cons in E2 as (b & post' & -> & <- & <-).
  exists b. split; [reflexivity|]. exists pre', post'. split; [reflexivity|].
  split.
  - exact (proj1 (Forall_map h _ pre') Hpre).
  - exact (proj1 (Forall_map h _ post') Hpost).
Qed.

(** On strings the resolver returns the first URL of largest resolution. *)
Lemma select_highest_resolution_str xs :
  xs <> [] ->
  exists b, select_highest_resolution (map PStr xs) = Ok (PStr b) /\
            first_max resolution xs b.
Proof.
  intros Hne. unfold select_highest_resolution.
  rewrite mapM_url_resolution_str. simpl.
  destruct (sort_desc_head (l := map (fun s => (resolution s, PStr s)) xs))
    as (y & Hy & Hmax).
  { destruct xs; [congruence | discriminate]. }
  destruct (sort_desc _) as [|z zs]; [discriminate|].
  simpl in Hy. injection Hy as ->. simpl.
  apply first_max_map in Hmax as (b & -> & Hb). simpl. eauto.
Qed.

(** On any non-empty list the resolver returns one of its entries. *)
Lemma select_highest_resolution_total urls :
  urls <> [] -> exists u, select_highest_resolution urls = Ok u /\ In u urls.
Proof.
  intros Hne. unfold select_highest_resolution.
  destruct (mapM url_resolution urls) as [rs|e] eqn:Em; simpl.
  - pose proof (mapM_url_resolution_snd _ Em) as Hsnd.
    assert (Hrs : rs <> []) by (intros ->; simpl in Hsnd; congruence).
    destruct (sort_desc_head Hrs) as (y & Hy & Hmax).
    destruct (sort_desc rs) as [|z zs]; [discriminate|].
    simpl in Hy. injection Hy as ->. simpl.
    exists (snd y). split; [reflexivity|].
    rewrite <- Hsnd. apply in_map. eapply first_max_in; eassumption.
  - destruct urls as [|u urls]; [congruence|]. simpl.
    exists u. split; [reflexivity | now left].
Qed.

Lemma select_highest_resolution_empty :
  select_highest_resolution [] = Raise index_error.
Proof. reflexivity. Qed.

(** ** The loop over the groups *)

Lemma group_ok_strings entry :
  group_ok entry ->
  exists zs, snd entry = map PStr zs /\ zs <> [] /\
             Forall (fun z => asset_key z = fst entry) zs.
Proof.
  destruct entry as [k us]. unfold group_ok. simpl. intros [Hne Hall].
  assert (H : exists zs, us = map PStr zs /\ Forall (fun z => asset_key z = k) zs).
  { clear Hne. induction Hall as [|u us (s & -> & Hk) Hall (zs & -> & Hzs)].
    - exists []. split; [reflexivity | constructor].
    - exists (s :: zs). split; [reflexivity | constructor; assumption]. }
  destruct H as (zs & -> & Hzs). exists zs. repeat split; try assumption.
  intros ->. now apply Hne.
Qed.

Lemma select_from_groups_ok g :
  Forall group_ok g ->
  exists ys, select_from_groups g = Ok (map PStr ys) /\ Forall2 chosen g ys.
Proof.
  induction 1 as [|[k us] g Hx Hg (ys & Hys & Hch)]; simpl.
  - exists []. split; [reflexivity | constructor].
  - destruct (group_ok_strings Hx) as (zs & Hus & Hne & Hk). simpl in *. subst us.
    assert (Hbest : exists b,
      (if (List.length (map PStr zs) =? 1)%nat then index0 (map PStr zs)
       else select_highest_resolution (map PStr zs)) = Ok (PStr b) /\
      first_max resolution zs b).
    { destruct zs as [|z [|z' zs]]; [congruence | |].
      - exists z. split; [reflexivity | apply first_max_single].
      - apply select_highest_resolution_str. discriminate. }
    destruct Hbest as (b & -> & Hb). simpl. rewrite Hys. simpl.
    exists (b :: ys). split; [reflexivity|]. constructor; [|assumption].
    exists zs. simpl. repeat split; try assumption.
    rewrite Forall_forall in Hk. apply Hk. eapply first_max_in; eassumption.
Qed.

Lemma chosen_keys g ys : Forall2 chosen g ys -> map asset_key ys = map fst g.
Proof.
  induction 1 as [|e y g ys (zs & _ & _ & Hk) _ IH]; simpl; congruence.
Qed.

(** On strings the body of the [try] block returns. *)
Lemma filter_attempt_str xs :
  exists ys, filter_attempt (map PStr xs) = Ok (map PStr ys) /\
             groups_ok (fold_left group_str xs []) /\
             Forall2 chosen (fold_left group_str xs []) ys.
Proof.
  unfold filter_attempt. rewrite foldM_group_str. simpl.
  pose proof (fold_group_str_ok xs groups_ok_nil) as Hok.
  destruct (select_from_groups_ok (proj2 Hok)) as (ys & Hys & Hch).
  exists ys. auto.
Qed.

(** ** A second pass over the result *)

Lemma fold_group_str_distinct ys : forall g,
  NoDup (map fst g ++ map asset_key ys) ->
  fold_left group_str ys g =
  (g ++ map (fun y => (asset_key y, [PStr y])) ys)%list.
Proof.
  induction ys as [|y ys IH]; intros g Hnd; simpl.
  - now rewrite app_nil_r.
  - rewrite group_str_cases.
    assert (Hk : Py.has_key (asset_key y) g = false).
    { apply has_key_false. intros Hin. simpl in Hnd.
      apply NoDup_remove_2 in Hnd. apply Hnd. apply in_or_app. now left. }
    rewrite Hk. rewrite IH.
    + rewrite <- app_assoc. reflexivity.
    + rewrite map_app, <- app_assoc. exact Hnd.
Qed.

Lemma select_from_singletons ys :
  select_from_groups (map (fun y => (asset_key y, [PStr y])) ys) = Ok (map PStr ys).
Proof.
  induction ys as [|y ys IH]; simpl; [reflexivity|]. now rewrite IH.
Qed.

Lemma filter_attempt_distinct ys :
  NoDup (map asset_key ys) -> filter_attempt (map PStr ys) = Ok (map PStr ys).
Proof.
  intros Hnd. unfold filter_attempt. rewrite foldM_group_str. simpl.
  rewrite fold_group_str_distinct by exact Hnd. simpl.
  apply select_from_singletons.
Qed.

(** ** The content of one group *)



Lemma lookup_in {V : Type} k (v : V) d :
  In (k, v) d -> NoDup (map fst d) -> Py.lookup k d = Some v.
Proof.
  induction d as [|[k' v'] d IH]; simpl; [tauto|].
  intros [H|H] Hnd; inversion Hnd as [|? ? Hnot Hnd']; subst.
  - injection H as -> ->. now rewrite String.eqb_refl.
  - destruct (String.eqb_spec k' k) as [->|Hne]; [|auto].
    exfalso. apply Hnot. change k with (fst (k, v)). now apply in_map.
Qed.

Lemma map_PStr_inj xs ys : map PStr xs = map PStr ys -> xs = ys.
Proof.
  revert ys. induction xs as [|x xs IH]; intros [|y ys]; simpl; try discriminate.
  - reflexivity.
  - intros [= -> H]. f_equal. auto.
Qed.

Lemma filter_unique_key {A : Type} (f : A -> string) ys b :
  NoDup (map f ys) -> In b ys ->
  filter (fun y => f y =? f b) ys = [b].
Proof.
  induction ys as [|y ys IH]; simpl; [tauto|].
  intros Hnd [->|Hin]; inversion Hnd as [|? ? Hnot Hnd']; subst.
  - rewrite String.eqb_refl. f_equal.
    clear - Hnot. induction ys as [|y ys IH]; simpl; [reflexivity|].
    simpl in Hnot. destruct (String.eqb_spec (f y) (f b)) as [E|E].
    + exfalso. apply Hnot. now left.
    + apply IH. tauto.
  - destruct (String.eqb_spec (f y) (f b)) as [E|E].
    + exfalso. apply Hnot. rewrite E. now apply in_map.
    + now apply IH.
Qed.


(** ** The claims about the deduplicator *)

(** On strings the deduplicator returns what the [try] block returns,
    one URL per group, each the first of largest resolution in its group. *)
Lemma filter_unique_images_str set_order xs :
  exists ys,
    filter_unique_images set_order (map PStr xs) = Ok (map PStr ys) /\
    groups_ok (fold_left group_str xs []) /\
    Forall2 chosen (fold_left group_str xs []) ys.
Proof.
  destruct (filter_attempt_str xs) as (ys & Hys & Hok & Hch).
  exists ys. unfold filter_unique_images. rewrite Hys. auto.
Qed.



(** C1 (the code departs from the claim). The candidates are two sizes of
    one photo followed by a candidate whose text is the photo's 32-hex
    identifier. The two sizes form the group of that identity, yet the
    deduplicator returns only the third candidate: filing it under its own
    text overwrites the group, so no member of the group is returned. *)
Theorem filter_unique_images_group_overwritten
        (set_order : list pyval -> list pyval) :
  asset_group photo_id [photo_url "192" "jpg"; photo_url "768" "jpg"; photo_id]
    = [photo_url "192" "jpg"; photo_url "768" "jpg"] /\
  has_identity photo_id = false /\
  filter_unique_images set_order
    [PStr (photo_url "192" "jpg"); PStr (photo_url "768" "jpg"); PStr photo_id]
    = Ok [PStr photo_id].
Proof. repeat split; vm_compute; reflexivity. Qed.

(** C2. The deduplicator is idempotent on lists of strings: it returns a
    list of strings, and applied to that list it returns it unchanged. *)
Theorem filter_unique_images_idempotent
        (set_order : list pyval -> list pyval) (xs : list string) :
  exists ys,
    filter_unique_images set_order (map PStr xs) = Ok (map PStr ys) /\
    filter_unique_images set_order (map PStr ys) = Ok (map PStr ys).
Proof.
  destruct (filter_unique_images_str set_order xs) as (ys & Hys & [Hnd _] & Hch).
  exists ys. split; [exact Hys|].
  unfold filter_unique_images. rewrite filter_attempt_distinct; [reflexivity|].
  rewrite (chosen_keys Hch). exact Hnd.
Qed.

Lemma resolver_calls_ok g :
  Forall group_ok g -> Forall (fun urls => 2 <= List.length urls) (resolver_calls g).
Proof.
  unfold resolver_calls. induction 1 as [|[k us] g [Hne _] _ IH]; simpl.
  - constructor.
  - simpl in Hne. destruct us as [|u [|u' us]]; simpl; [congruence | exact IH |].
    constructor; [simpl; lia | exact IH].
Qed.

(** C10. On a non-empty list [select_highest_resolution] returns, and
    returns an entry of the list; and whatever candidates the grouping
    loop has accepted, every list the deduplicator hands to it has at
    least two entries, so the call on an empty list, which raises, does
    not occur and the [try] block of the deduplicator returns. *)
Theorem select_highest_resolution_safe
        (urls image_urls : list pyval) (image_groups : groups) :
  urls <> [] ->
  foldM group_url image_urls [] = Ok image_groups ->
  (exists u, select_highest_resolution urls = Ok u /\ In u urls) /\
  Forall (fun called => 2 <= List.length called) (resolver_calls image_groups) /\
  returns (filter_attempt image_urls) /\
  raises (select_highest_resolution []).
Proof.
  intros Hne Hfold. split; [now apply select_highest_resolution_total|].
  destruct (foldM_group_ok_inv _ _ Hfold) as (xs & -> & ->).
  pose proof (fold_group_str_ok xs groups_ok_nil) as [_ Hok].
  split; [now apply resolver_calls_ok|]. split.
  - destruct (filter_attempt_str xs) as (ys & Hys & _). eexists. exact Hys.
  - eexists. reflexivity.
Qed.

Lemma select_highest_resolution_safe_witness :
  (exists u,
      select_highest_resolution
        [PStr (photo_url "192" "jpg"); PStr (photo_url "768" "jpg")] = Ok u /\
      In u [PStr (photo_url "192" "jpg"); PStr (photo_url "768" "jpg")]) /\
  Forall (fun called => 2 <= List.length called)
         (resolver_calls
            [(photo_id, [PStr (photo_url "192" "jpg"); PStr (photo_url "768" "jpg")]);
             ("x.png", [PStr "x.png"])]) /\
  returns (filter_attempt
             [PStr (photo_url "192" "jpg"); PStr "x.png"; PStr (photo_url "768" "jpg")]) /\
  raises (select_highest_resolution []).
Proof.
  apply (@select_highest_resolution_safe
           [PStr (photo_url "192" "jpg"); PStr (photo_url "768" "jpg")]
           [PStr (photo_url "192" "jpg"); PStr "x.png"; PStr (photo_url "768" "jpg")]).
  - discriminate.
  - vm_compute. reflexivity.
Defined.

(* ================================================================== *)
(** * Properties of the URL classifier *)
(* ================================================================== *)

(** C5. The classifier is a total function to [bool]: on every value
    that is not a string, and on the empty string, it answers [false];
    it accepts the two image URLs of the claim and rejects the page URL. *)
Theorem is_image_url_classifies (v : pyval) :
  Py.is_str v = false ->
  is_image_url v = false /\
  is_image_url (PStr EmptyString) = false /\
  is_image_url (PStr "https://example.com/a.jpg") = true /\
  is_image_url (PStr "https://photos.zillowstatic.com/fp/abcd...-cc_ft_768.jpg") = true /\
  is_image_url (PStr "https://example.com/page.html") = false.
Proof.
  intros Hv. split.
  - unfold is_image_url. rewrite Hv. simpl. now rewrite orb_true_r.
  - repeat split; vm_compute; reflexivity.
Qed.

Lemma is_image_url_classifies_witness :
  is_image_url (PInt 7) = false /\
  is_image_url (PStr EmptyString) = false /\
  is_image_url (PStr "https://example.com/a.jpg") = true /\
  is_image_url (PStr "https://photos.zillowstatic.com/fp/abcd...-cc_ft_768.jpg") = true /\
  is_image_url (PStr "https://example.com/page.html") = false.
Proof. apply (@is_image_url_classifies (PInt 7)). reflexivity. Defined.

(** Any string that holds one of the extensions is accepted. *)
Lemma is_image_url_extension s ext :
  In ext image_extensions -> Str.contains ext (Str.lower s) = true ->
  is_image_url (PStr s) = true.
Proof.
  intros Hin Hc. unfold is_image_url.
  assert (Hs : s <> EmptyString).
  { intros ->. simpl in Hin.
    repeat (destruct Hin as [<-|Hin]; [discriminate Hc|]). destruct Hin. }
  assert (H : existsb (fun e => Str.contains e (Str.lower s)) image_extensions = true).
  { apply existsb_exists. eauto. }
  change (Py.truthy (PStr s)) with (negb (s =? EmptyString)).
  change (Py.is_str (PStr s)) with true.
  destruct (String.eqb_spec s EmptyString) as [|_]; [contradiction|].
  cbn [negb orb]. now rewrite H.
Qed.

(* ================================================================== *)
(** * Properties of the structured-data extractor *)
(* ================================================================== *)

Lemma find_all_with_filter name attr value soup :
  BS4.find_all_with name attr value soup =
  filter (fun n => match BS4.get attr n with
                   | Some v => v =? value
                   | None => false
                   end) (BS4.find_all name soup).
Proof.
  unfold BS4.find_all_with, BS4.find_all.
  induction (BS4.all_nodes soup) as [|n ns IH]; simpl; [reflexivity|].
  destruct (BS4.name_is name n); simpl.
  - destruct (match BS4.get attr n with Some v => v =? value | None => false end);
      now rewrite IH.
  - exact IH.
Qed.

Section StructuredDataFacts.
Variable html_parser : string -> exc BS4.soup.
Variable json_loads : string -> exc pyval.

(** The extractor returns, whatever the parser and [json.loads] do. *)
Lemma extract_json_from_page_returns html_content :
  returns (extract_json_from_page html_parser json_loads html_content).
Proof.
  unfold extract_json_from_page.
  destruct (extract_json_attempt _ _ _) as [r|e]; eexists; reflexivity.
Qed.

(** A decode error on one script tag, match or fragment is passed over:
    the loop goes on with the next one. *)
Lemma method1_skips_decode_error script rest s msg :
  BS4.string_of script = Some s ->
  json_loads s = Raise (MkExn JSONDecodeError msg) ->
  first_result (method1_script json_loads) (script :: rest) =
  first_result (method1_script json_loads) rest.
Proof.
  intros Hs Hl. simpl. unfold method1_script. rewrite Hs. simpl. rewrite Hl.
  reflexivity.
Qed.

Lemma method2_skips_decode_error m rest msg :
  json_loads m = Raise (MkExn JSONDecodeError msg) ->
  first_result (method2_match json_loads) (m :: rest) =
  first_result (method2_match json_loads) rest.
Proof.
  intros Hl. simpl. unfold method2_match.
  destruct (Str.startswith "{" m); [now rewrite Hl|].
  destruct (Str.startswith "[" m); [now rewrite Hl | reflexivity].
Qed.

Lemma method3_skips_decode_error m rest msg :
  json_loads m = Raise (MkExn JSONDecodeError msg) ->
  first_result (method3_match json_loads) (m :: rest) =
  first_result (method3_match json_loads) rest.
Proof. intros Hl. simpl. unfold method3_match. now rewrite Hl. Qed.

(** A JSON script tag without a text ends the extraction: the
    [TypeError] of [json.loads(None)] is not among the exceptions the
    loop passes over. *)
Lemma method1_empty_script_raises script rest :
  BS4.string_of script = None ->
  raises (first_result (method1_script json_loads) (script :: rest)).
Proof.
  intros Hs. simpl. unfold method1_script. rewrite Hs. simpl.
  eexists. reflexivity.
Qed.
End StructuredDataFacts.

Lemma first_result_map {A B C : Type} (g : B -> exc (option C)) (h : A -> B) l :
  first_result (fun x => g (h x)) l = first_result g (map h l).
Proof.
  induction l as [|x l IH]; simpl; [reflexivity|].
  destruct (g (h x)) as [[y|]|e]; simpl; auto.
Qed.

Section PhotosPayload.
Variable html_parser : string -> exc BS4.soup.
Variable json_loads : string -> exc pyval.
Hypothesis loads_array : json_loads photos_array_text = Ok photos_array.
Hypothesis loads_payload : json_loads photos_payload_text = Ok photos_payload.

Lemma method1_photos script :
  BS4.string_of script = Some photos_payload_text ->
  method1_script json_loads script = Ok None.
Proof.
  intros Hs. unfold method1_script. rewrite Hs. simpl. rewrite loads_payload.
  reflexivity.
Qed.

Lemma method2_match_photos :
  method2_match json_loads photos_array_text =
  Ok (Some (PDict [("images", photos_array)])).
Proof.
  unfold method2_match.
  replace (Str.startswith "{" photos_array_text) with false
    by (vm_compute; reflexivity).
  replace (Str.startswith "[" photos_array_text) with true
    by (vm_compute; reflexivity).
  rewrite loads_array. reflexivity.
Qed.

Lemma method2_photos script :
  BS4.string_of script = Some photos_payload_text ->
  method2_script json_loads script = Ok (Some (PDict [("images", photos_array)])).
Proof.
  intros Hs. unfold method2_script. rewrite Hs.
  replace (str_truthy (Some photos_payload_text)) with true
    by (vm_compute; reflexivity).
  rewrite (first_result_map (first_result (method2_match json_loads))
                            (fun pattern => Re.findall1 pattern photos_payload_text)).
  replace (map (fun pattern => Re.findall1 pattern photos_payload_text) patterns)
    with [@nil string; []; []; []; []; []; [photos_array_text]; []]
    by (vm_compute; reflexivity).
  cbn [first_result bind]. rewrite method2_match_photos. reflexivity.
Qed.

(** The payload of the example, in the only script block of a page. *)
Lemma extract_json_photos html_content soup script :
  html_parser html_content = Ok soup ->
  BS4.find_all "script" soup = [script] ->
  BS4.string_of script = Some photos_payload_text ->
  extract_json_from_page html_parser json_loads html_content =
  Ok (Some (PDict [("images", photos_array)])).
Proof.
  intros Hp Hall Hs. unfold extract_json_from_page, extract_json_attempt.
  rewrite Hp. cbn [bind]. rewrite find_all_with_filter, Hall.
  assert (H1 : forall l, incl l [script] ->
               first_result (method1_script json_loads) l = Ok None).
  { induction l as [|x l IH]; intros Hincl; [reflexivity|].
    assert (x = script) as ->.
    { destruct (Hincl x (or_introl eq_refl)) as [<-|[]]. reflexivity. }
    cbn [first_result]. rewrite (method1_photos _ Hs). cbn [bind].
    apply IH. intros y Hy. apply Hincl. now right. }
  unfold or_else at 1. rewrite H1 by apply incl_filter. cbn [bind].
  unfold or_else. cbn [first_result]. rewrite (method2_photos _ Hs). reflexivity.
Qed.
End PhotosPayload.

Lemma search_for_images_photos :
  search_for_images (PDict [("images", photos_array)]) =
  [PStr "https://x/a.jpg"; PStr "https://x/a.jpg";
   PStr "https://x/b.png"; PStr "https://x/b.png"].
Proof. vm_compute. reflexivity. Qed.

Lemma iteration_order_in set_order l x :
  PySet.iteration_order set_order -> In x (PySet.members l) -> In x (set_order l).
Proof.
  intros Hord Hin. eapply Permutation_in; [|exact Hin].
  apply Permutation_sym. apply Hord.
Qed.

(** ** The walk over a payload *)

Lemma search_for_images_dict_cons key value d :
  search_for_images (PDict ((key, value) :: d)) =
  ((if existsb (String.eqb (Str.lower key)) photo_keys then
      match value with
      | PList l => collection_urls l
      | PStr _ => if is_image_url value then [value] else []
      | _ => []
      end
    else search_for_images value) ++ search_for_images (PDict d))%list.
Proof.
  cbn [search_for_images].
  match goal with
  | |- (?a ++ ?t)%list = (?b ++ ?t)%list => assert (a = b) as ->; [|reflexivity]
  end.
  destruct (existsb (String.eqb (Str.lower key)) photo_keys); [|reflexivity].
  destruct value; reflexivity.
Qed.

(** A truthy value under any of the URL fields of an item of a photo
    collection is appended, whichever of the field names carries it. *)
Lemma search_for_images_any_field d key items fields url_field v :
  In (key, PList items) d ->
  existsb (String.eqb (Str.lower key)) photo_keys = true ->
  In (PDict fields) items ->
  In url_field url_fields ->
  Py.lookup url_field fields = Some v ->
  Py.truthy v = true ->
  In v (search_for_images (PDict d)).
Proof.
  intros Hd Hkey Hitem Hfield Hlook Htruthy.
  induction d as [|[k value] d IH]; [destruct Hd|].
  rewrite search_for_images_dict_cons. apply in_or_app.
  destruct Hd as [[= -> ->]|Hd]; [left | right; now apply IH].
  rewrite Hkey. unfold collection_urls. apply in_flat_map.
  exists (PDict fields). split; [exact Hitem|].
  apply in_or_app. left. unfold item_urls. apply in_flat_map.
  exists url_field. split; [exact Hfield|]. rewrite Hlook, Htruthy. now left.
Qed.

Lemma members_acc_keeps_string seen l u :
  In (PStr u) l -> In (PStr u) (PySet.members_acc seen l) \/ In (PStr u) seen.
Proof.
  revert seen. induction l as [|x l IH]; intros seen; simpl; [tauto|].
  intros [->|Hin].
  - destruct (existsb (PySet.eqb (PStr u)) seen) eqn:E.
    + right. apply existsb_exists in E as (y & Hy & Heq).
      destruct y; simpl in Heq; try discriminate.
      apply String.eqb_eq in Heq. now subst.
    + left. now left.
  - destruct (existsb (PySet.eqb x) seen).
    + now apply IH.
    + destruct (IH (x :: seen) Hin) as [H|[H|H]].
      * left. now right.
      * left. now left.
      * now right.
Qed.

(** A string among the values the walk appends is in the list the
    extractor returns. *)
Lemma extract_image_urls_keeps_string set_order data out u :
  PySet.iteration_order set_order ->
  extract_image_urls set_order data = Ok out ->
  In (PStr u) (search_for_images data) ->
  In (PStr u) out.
Proof.
  intros Hord Hout Hin. unfold extract_image_urls, list_of_set in Hout.
  destruct (forallb PySet.hashable (search_for_images data)); [|discriminate].
  injection Hout as <-. apply iteration_order_in; [exact Hord|].
  destruct (members_acc_keeps_string [] _ _ Hin) as [H|[]]. exact H.
Qed.

(** C7. When the payload of the example is the text of the page's script
    block, the structured-data extractor obtains a tree from it and the
    walk over the tree returns both URLs, the one under [url] and the one
    under [href], and nothing else. The field name makes no difference:
    in any payload, a URL under any of the URL fields of an item of a
    photo collection is among the URLs returned. *)
Theorem extract_image_urls_both_fields
        (html_parser : string -> exc BS4.soup) (json_loads : string -> exc pyval)
        (set_order : list pyval -> list pyval)
        (html_content : string) (soup : BS4.soup) (script : BS4.node) :
  html_parser html_content = Ok soup ->
  BS4.find_all "script" soup = [script] ->
  BS4.string_of script = Some photos_payload_text ->
  json_loads photos_array_text = Ok photos_array ->
  json_loads photos_payload_text = Ok photos_payload ->
  PySet.iteration_order set_order ->
  (exists data out,
      extract_json_from_page html_parser json_loads html_content = Ok (Some data) /\
      extract_image_urls set_order data = Ok out /\
      In (PStr "https://x/a.jpg") out /\
      In (PStr "https://x/b.png") out /\
      Permutation out [PStr "https://x/a.jpg"; PStr "https://x/b.png"]) /\
  (forall d key items fields url_field u out,
      In (key, PList items) d ->
      existsb (String.eqb (Str.lower key)) photo_keys = true ->
      In (PDict fields) items ->
      In url_field url_fields ->
      Py.lookup url_field fields = Some (PStr u) ->
      u <> EmptyString ->
      extract_image_urls set_order (PDict d) = Ok out ->
      In (PStr u) out).
Proof.
  intros Hp Hall Hs Harr Hpay Hord. split.
  - exists (PDict [("images", photos_array)]),
      (set_order (search_for_images (PDict [("images", photos_array)]))).
    split; [now apply (@extract_json_photos html_parser json_loads Harr Hpay
                         html_content soup script)|].
    split.
    + unfold extract_image_urls, list_of_set. rewrite search_for_images_photos.
      reflexivity.
    + rewrite search_for_images_photos.
      split; [|split]; try (apply iteration_order_in; [exact Hord | vm_compute; tauto]).
      exact (Hord [PStr "https://x/a.jpg"; PStr "https://x/a.jpg";
                   PStr "https://x/b.png"; PStr "https://x/b.png"]).
  - intros d key items fields url_field u out Hd Hkey Hitem Hfield Hlook Hu Hout.
    eapply extract_image_urls_keeps_string; [exact Hord | exact Hout |].
    eapply search_for_images_any_field; try eassumption.
    simpl. now destruct (String.eqb_spec u EmptyString).
Qed.

Lemma extract_image_urls_both_fields_witness :
  (exists data out,
      extract_json_from_page (fun _ => Ok photos_page) loads_photos photos_html = Ok (Some data) /\
      extract_image_urls PySet.members data = Ok out /\
      In (PStr "https://x/a.jpg") out /\
      In (PStr "https://x/b.png") out /\
      Permutation out [PStr "https://x/a.jpg"; PStr "https://x/b.png"]) /\
  In (PStr "https://x/b.png") [PStr "https://x/a.jpg"; PStr "https://x/b.png"].
Proof.
  destruct (@extract_image_urls_both_fields
              (fun _ => Ok photos_page) loads_photos PySet.members photos_html photos_page
              (BS4.Tag "script" [("type", "application/json")]
                       [BS4.Text photos_payload_text]))
    as [Hexample Hany].
  - reflexivity.
  - vm_compute. reflexivity.
  - reflexivity.
  - vm_compute. reflexivity.
  - vm_compute. reflexivity.
  - intros l. apply Permutation_refl.
  - split; [exact Hexample|].
    apply (Hany [("photos", photos_array)] "photos"
                [PDict [("url", PStr "https://x/a.jpg")];
                 PDict [("href", PStr "https://x/b.png")]]
                [("href", PStr "https://x/b.png")] "href" "https://x/b.png").
    + now left.
    + reflexivity.
    + right. now left.
    + right. now left.
    + reflexivity.
    + discriminate.
    + vm_compute. reflexivity.
Defined.

(** C6 (the code departs from the claim). A JSON script block without a
    text ends the whole structured-data extraction with an empty result:
    the extraction does not go on to the next block, although that block
    alone would have given a payload. *)
Theorem extract_json_stops_at_empty_script
        (html_parser : string -> exc BS4.soup) (json_loads : string -> exc pyval)
        (html_content : string) (soup : BS4.soup)
        (empty next : BS4.node) (rest : list BS4.node)
        (text : string) (data : pyval) :
  html_parser html_content = Ok soup ->
  BS4.find_all_with "script" "type" "application/json" soup = empty :: next :: rest ->
  BS4.string_of empty = None ->
  BS4.string_of next = Some text ->
  json_loads text = Ok data ->
  py_in_any ["photoGallery"; "images"] data = Ok true ->
  extract_json_from_page html_parser json_loads html_content = Ok None /\
  first_result (method1_script json_loads) (next :: rest) = Ok (Some data).
Proof.
  intros Hp Hscripts Hempty Hnext Hload Hkeys. split.
  - unfold extract_json_from_page, extract_json_attempt.
    rewrite Hp. cbn [bind]. rewrite Hscripts.
    cbn [first_result]. unfold method1_script at 1. rewrite Hempty. reflexivity.
  - cbn [first_result]. unfold method1_script at 1.
    rewrite Hnext. cbn [loads bind]. rewrite Hload. cbn [bind].
    rewrite Hkeys. reflexivity.
Qed.

Lemma extract_json_stops_at_empty_script_witness :
  extract_json_from_page (fun _ => Ok empty_script_page) loads_images empty_script_html = Ok None /\
  first_result (method1_script loads_images) [images_script] = Ok (Some images_payload).
Proof.
  apply (@extract_json_stops_at_empty_script
           (fun _ => Ok empty_script_page) loads_images empty_script_html empty_script_page
           empty_json_script images_script [] images_payload_text images_payload).
  - reflexivity.
  - vm_compute. reflexivity.
  - reflexivity.
  - reflexivity.
  - vm_compute. reflexivity.
  - reflexivity.
Defined.

(* ================================================================== *)
(** * Properties of the pipeline *)
(* ================================================================== *)

Lemma members_order : PySet.iteration_order PySet.members.
Proof. intros l. apply Permutation_refl. Qed.

Lemma members_reversed_order : PySet.iteration_order members_reversed.
Proof. intros l. unfold members_reversed. apply Permutation_sym, Permutation_rev. Qed.

(** On strings the deduplicator does not consult the order of sets. *)
Lemma filter_unique_images_str_order so1 so2 xs :
  filter_unique_images so1 (map PStr xs) = filter_unique_images so2 (map PStr xs).
Proof.
  unfold filter_unique_images.
  destruct (filter_attempt_str xs) as (ys & -> & _). reflexivity.
Qed.

Lemma extract_images_from_html_order html_parser so1 so2 html_content :
  extract_images_from_html html_parser so1 html_content =
  extract_images_from_html html_parser so2 html_content.
Proof.
  unfold extract_images_from_html, extract_images_attempt.
  destruct (html_parser html_content) as [soup|e]; cbn [bind]; [|reflexivity].
  now rewrite (filter_unique_images_str_order so1 so2).
Qed.

(** C8 (counterexample). One page, two orders in which a set may be
    iterated: the pipeline returns the two URLs of the page in one order
    under the first and in the opposite order under the second. *)
Lemma main_image_urls_order_dependent :
  PySet.iteration_order PySet.members /\
  PySet.iteration_order members_reversed /\
  main_image_urls (fun _ => Ok photos_page) loads_photos PySet.members photos_html
    = Ok [PStr "https://x/a.jpg"; PStr "https://x/b.png"] /\
  main_image_urls (fun _ => Ok photos_page) loads_photos members_reversed photos_html
    = Ok [PStr "https://x/b.png"; PStr "https://x/a.jpg"] /\
  main_image_urls (fun _ => Ok photos_page) loads_photos PySet.members photos_html
    <> main_image_urls (fun _ => Ok photos_page) loads_photos members_reversed photos_html.
Proof.
  split; [exact members_order|]. split; [exact members_reversed_order|].
  assert (H1 : main_image_urls (fun _ => Ok photos_page) loads_photos PySet.members photos_html
               = Ok [PStr "https://x/a.jpg"; PStr "https://x/b.png"])
    by (vm_compute; reflexivity).
  assert (H2 : main_image_urls (fun _ => Ok photos_page) loads_photos members_reversed photos_html
               = Ok [PStr "https://x/b.png"; PStr "https://x/a.jpg"])
    by (vm_compute; reflexivity).
  split; [exact H1|]. split; [exact H2|]. rewrite H1, H2. discriminate.
Qed.

(** C8 (as amended). Two runs on the same page return the same list when
    they iterate sets in the same order; the markup fallback returns the
    same list whatever that order is; and the walk over a payload returns
    the same URLs, up to their order, under any two orders. *)
Theorem main_image_urls_deterministic
        (html_parser : string -> exc BS4.soup) (json_loads : string -> exc pyval)
        (so1 so2 : list pyval -> list pyval) (html_content : string) :
  ((forall l, so1 l = so2 l) ->
   main_image_urls html_parser json_loads so1 html_content
     = main_image_urls html_parser json_loads so2 html_content) /\
  extract_images_from_html html_parser so1 html_content
    = extract_images_from_html html_parser so2 html_content /\
  (forall data out1 out2,
      PySet.iteration_order so1 ->
      PySet.iteration_order so2 ->
      extract_image_urls so1 data = Ok out1 ->
      extract_image_urls so2 data = Ok out2 ->
      Permutation out1 out2).
Proof.
  split; [|split].
  - intros Hsame. unfold main_image_urls.
    destruct (extract_json_from_page html_parser json_loads html_content)
      as [json_data|e]; cbn [bind]; [|reflexivity].
    assert (Hx : forall d, extract_image_urls so1 d = extract_image_urls so2 d).
    { intros d. unfold extract_image_urls, list_of_set. now rewrite Hsame. }
    assert (Hf : forall l, filter_unique_images so1 l = filter_unique_images so2 l).
    { intros l. unfold filter_unique_images, list_of_set. now rewrite Hsame. }
    destruct json_data as [d|]; [destruct (Py.truthy d)|]; try rewrite Hx.
    + destruct (extract_image_urls so2 d) as [[|u us]|e]; cbn [bind];
        [apply extract_images_from_html_order | apply Hf | reflexivity].
    + cbn [bind]. apply extract_images_from_html_order.
    + cbn [bind]. apply extract_images_from_html_order.
  - apply extract_images_from_html_order.
  - intros data out1 out2 Ho1 Ho2 He1 He2.
    unfold extract_image_urls, list_of_set in He1, He2.
    destruct (forallb PySet.hashable (search_for_images data)); [|discriminate].
    injection He1 as <-. injection He2 as <-.
    eapply Permutation_trans; [apply Ho1 | apply Permutation_sym, Ho2].
Qed.

Lemma main_image_urls_deterministic_witness :
  main_image_urls (fun _ => Ok photos_page) loads_photos PySet.members photos_html
    = main_image_urls (fun _ => Ok photos_page) loads_photos
                      (fun l => rev (members_reversed l)) photos_html /\
  Permutation [PStr "https://x/a.jpg"; PStr "https://x/b.png"]
              [PStr "https://x/b.png"; PStr "https://x/a.jpg"].
Proof.
  pose proof (@main_image_urls_deterministic
                (fun _ => Ok photos_page) loads_photos PySet.members
                (fun l => rev (members_reversed l)) photos_html) as [Hsame _].
  pose proof (@main_image_urls_deterministic
                (fun _ => Ok photos_page) loads_photos PySet.members
                members_reversed photos_html) as (_ & _ & Hperm).
  split.
  - apply Hsame. intros l. unfold members_reversed. symmetry. apply rev_involutive.
  - apply (Hperm (PDict [("images", photos_array)])).
    + exact members_order.
    + exact members_reversed_order.
    + vm_compute. reflexivity.
    + vm_compute. reflexivity.
Defined.

(** C9 (counterexample). A page without script, [img] or [picture] tags
    and without a background style, whose text names a photo of the
    source site: the structured-data extractor finds nothing, but the
    markup fallback returns a URL for the photo. *)
Lemma extract_images_from_html_text_only :
  BS4.find_all "script" text_only_page = [] /\
  json_fragments text_only_page = [] /\
  BS4.find_all "img" text_only_page = [] /\
  BS4.find_all "picture" text_only_page = [] /\
  BS4.find_all_attr_re "style" style_pattern text_only_page = [] /\
  extract_json_from_page (fun _ => Ok text_only_page) loads_photos text_only_html
    = Ok None /\
  extract_images_from_html (fun _ => Ok text_only_page) PySet.members text_only_html
    = Ok [PStr (photo_url "1536" "jpg")] /\
  extract_images_from_html (fun _ => Ok text_only_page) PySet.members text_only_html
    <> Ok [].
Proof.
  assert (H : extract_images_from_html (fun _ => Ok text_only_page) PySet.members
                                       text_only_html
              = Ok [PStr (photo_url "1536" "jpg")]) by (vm_compute; reflexivity).
  repeat split; try (vm_compute; reflexivity).
  rewrite H. discriminate.
Qed.

(** ** Pages without a payload *)

Lemma first_result_no_result {A B : Type} (f : A -> exc (option B)) l :
  (forall x, In x l -> no_result (f x)) -> no_result (first_result f l).
Proof.
  induction l as [|x l IH]; intros H; simpl.
  - now left.
  - destruct (H x (or_introl eq_refl)) as [->|(e & ->)]; simpl.
    + apply IH. intros y Hy. apply H. now right.
    + right. eexists. reflexivity.
Qed.

Lemma continue_on_no_result {B : Type} classes (body : exc (option B)) :
  no_result body -> no_result (continue_on classes body).
Proof.
  intros [->|(e & ->)]; simpl; [now left|].
  destruct (existsb _ _); [now left | right; eexists; reflexivity].
Qed.

Lemma or_else_no_result {B : Type} (a b : exc (option B)) :
  no_result a -> no_result b -> no_result (or_else a b).
Proof.
  intros [->|(e & ->)] Hb; simpl; [exact Hb | right; eexists; reflexivity].
Qed.

Lemma in_script_texts script text scripts :
  In script scripts -> BS4.string_of script = Some text ->
  In text (script_texts scripts).
Proof.
  intros Hin Hs. unfold script_texts. apply in_flat_map.
  exists script. split; [exact Hin|]. rewrite Hs. now left.
Qed.

Section NoPayload.
Variable html_parser : string -> exc BS4.soup.
Variable json_loads : string -> exc pyval.
Variable soup : BS4.soup.
Hypothesis no_json : forall s v, In s (json_fragments soup) -> json_loads s <> Ok v.

Lemma loads_fails {B : Type} s (k : pyval -> exc (option B)) :
  In s (json_fragments soup) -> no_result (bind (json_loads s) k).
Proof.
  intros Hin. destruct (json_loads s) as [v|e] eqn:E.
  - exfalso. eapply no_json; eassumption.
  - right. eexists. reflexivity.
Qed.

Lemma method1_no_result script :
  In script (BS4.find_all_with "script" "type" "application/json" soup) ->
  no_result (method1_script json_loads script).
Proof.
  intros Hin. unfold method1_script. apply continue_on_no_result.
  destruct (BS4.string_of script) as [text|] eqn:Hs; simpl.
  - apply loads_fails. unfold json_fragments. apply in_or_app. left.
    eapply in_script_texts; eassumption.
  - right. eexists. reflexivity.
Qed.

Lemma method2_no_result script :
  In script (BS4.find_all "script" soup) ->
  no_result (method2_script json_loads script).
Proof.
  intros Hin. unfold method2_script.
  destruct (BS4.string_of script) as [text|] eqn:Hs;
    [|destruct (str_truthy None); now left].
  destruct (str_truthy (Some text)); [|now left].
  apply first_result_no_result. intros pattern Hpat.
  apply first_result_no_result. intros m Hm.
  assert (Hfrag : In m (json_fragments soup)).
  { unfold json_fragments. apply in_or_app. right. apply in_or_app. left.
    apply in_flat_map. exists text. split; [eapply in_script_texts; eassumption|].
    apply in_flat_map. exists pattern. auto. }
  unfold method2_match. apply continue_on_no_result.
  destruct (Str.startswith "{" m); [now apply loads_fails|].
  destruct (Str.startswith "[" m); [now apply loads_fails | now left].
Qed.

Lemma method3_no_result script :
  In script (BS4.find_all "script" soup) ->
  no_result (method3_script json_loads script).
Proof.
  intros Hin. unfold method3_script.
  destruct (BS4.string_of script) as [text|] eqn:Hs; [|now left].
  destruct (negb (text =? EmptyString)); [|now left]. cbn [andb].
  destruct (Str.contains "photo" (Str.lower text) || Str.contains "image" (Str.lower text))
    eqn:Hmention; [|now left].
  apply first_result_no_result. intros m Hm.
  unfold method3_match. apply continue_on_no_result. apply loads_fails.
  unfold json_fragments. apply in_or_app. right. apply in_or_app. right.
  apply in_flat_map. exists text. split; [eapply in_script_texts; eassumption|].
  now rewrite Hmention.
Qed.

(** When nothing in the scripts of a page parses as JSON, the
    structured-data extractor returns nothing. *)
Lemma extract_json_no_payload html_content :
  html_parser html_content = Ok soup ->
  extract_json_from_page html_parser json_loads html_content = Ok None.
Proof.
  intros Hp. unfold extract_json_from_page, extract_json_attempt.
  rewrite Hp. cbn [bind].
  match goal with
  | |- match ?r with _ => _ end = _ => assert (H : no_result r)
  end.
  { apply or_else_no_result; [|apply or_else_no_result];
      apply first_result_no_result; intros script Hin.
    - now apply method1_no_result.
    - now apply method2_no_result.
    - now apply method3_no_result. }
  destruct H as [->|(e & ->)]; reflexivity.
Qed.
End NoPayload.

(** C9 (as amended). On a page whose scripts hold nothing that parses as
    JSON, without [img] and [picture] tags, without a background style
    and without a [data-src] attribute, whose text holds no photo URL of
    the source site, the structured-data extractor finds nothing, the
    markup fallback and the pipeline return the empty list, and the
    orchestrator, given the empty list, returns the summary with 0
    uploads out of 0 without touching the world. *)
Theorem nothing_to_extract
        (html_parser : string -> exc BS4.soup) (json_loads : string -> exc pyval)
        (set_order : list pyval -> list pyval)
        (html_content : string) (soup : BS4.soup)
        (World : Type)
        (http_get : pyval -> World -> exc string * World)
        (s3_connect : World -> exc unit * World)
        (put_object : string -> string -> string -> string -> World -> exc unit * World)
        (getenv_bucket : World -> string)
        (url_path : pyval -> exc string)
        (download_all_images : list pyval -> string -> io World pyval)
        (listing_id : string) (bucket_name : option string) (st : state World) :
  html_parser html_content = Ok soup ->
  (forall s v, In s (json_fragments soup) -> json_loads s <> Ok v) ->
  BS4.find_all "img" soup = [] ->
  BS4.find_all "picture" soup = [] ->
  BS4.find_all_attr_re "style" style_pattern soup = [] ->
  BS4.find_all_attr "data-src" soup = [] ->
  Re.findall2 zillow_photo_pattern html_content = [] ->
  extract_json_from_page html_parser json_loads html_content = Ok None /\
  extract_images_from_html html_parser set_order html_content = Ok [] /\
  main_image_urls html_parser json_loads set_order html_content = Ok [] /\
  download_and_upload_to_s3 http_get s3_connect put_object getenv_bucket url_path
                            download_all_images [] listing_id bucket_name st
    = (Ok (PDict [("success", PInt 0); ("total", PInt 0); ("s3_urls", PList [])]), st).
Proof.
  intros Hp Hscript Himg Hpic Hstyle Hdata Hraw.
  pose proof (@extract_json_no_payload html_parser json_loads soup Hscript
                html_content Hp) as Hjson.
  assert (Hhtml : extract_images_from_html html_parser set_order html_content = Ok []).
  { unfold extract_images_from_html, extract_images_attempt. rewrite Hp. cbn [bind].
    unfold html_candidates, tree_candidates, raw_candidates.
    rewrite Himg, Hpic, Hstyle, Hdata, Hraw. reflexivity. }
  split; [exact Hjson|]. split; [exact Hhtml|]. split; [|reflexivity].
  unfold main_image_urls. rewrite Hjson. cbn [bind]. exact Hhtml.
Qed.

Lemma nothing_to_extract_witness :
  extract_json_from_page (fun _ => Ok plain_script_page) loads_photos plain_script_html = Ok None /\
  extract_images_from_html (fun _ => Ok plain_script_page) PySet.members plain_script_html = Ok [] /\
  main_image_urls (fun _ => Ok plain_script_page) loads_photos PySet.members plain_script_html
    = Ok [] /\
  download_and_upload_to_s3
    (fun (_ : pyval) (w : unit) => (Ok "bytes", w)) (fun w => (Ok tt, w))
    (fun _ _ _ _ w => (Ok tt, w)) (fun _ => "zillow-images")
    (fun _ => Ok "/a.jpg") (fun _ _ st => (Ok (PInt 0), st))
    [] "zpid_1" None (MkState tt [])
    = (Ok (PDict [("success", PInt 0); ("total", PInt 0); ("s3_urls", PList [])]),
       MkState tt []).
Proof.
  apply (@nothing_to_extract
           (fun _ => Ok plain_script_page) loads_photos PySet.members plain_script_html
           plain_script_page).
  - reflexivity.
  - intros s v Hin.
    assert (Hs : s = "not json").
    { vm_compute in Hin. destruct Hin as [<-|[]]. reflexivity. }
    subst s. vm_compute. discriminate.
  - vm_compute. reflexivity.
  - vm_compute. reflexivity.
  - vm_compute. reflexivity.
  - vm_compute. reflexivity.
  - vm_compute. reflexivity.
Defined.

(* ================================================================== *)
(** * Properties of the fetch/upload orchestrator *)
(* ================================================================== *)

(** The summary of the upload path holds counts, the list of S3 URLs and
    two names: no record of a failed item fits in it. *)
Lemma summary_has_no_failure_record uploaded total s3_urls bucket listing_id url :
  ~ has_failure_record
      (PDict [("success", py_nat uploaded); ("total", py_nat total);
              ("s3_urls", PList (map PStr s3_urls));
              ("bucket", PStr bucket); ("listing_id", PStr listing_id)]) url.
Proof.
  intros (d & key & items & record & uf & df & detail & Hd & Hk & Hin & _).
  injection Hd as <-. cbn [Py.lookup] in Hk.
  repeat match type of Hk with
         | (if ?c then _ else _) = _ => destruct c; [try discriminate Hk|]
         end; try discriminate Hk.
  injection Hk as <-. apply in_map_iff in Hin as (s & Hs & _). discriminate Hs.
Qed.

Section OrchestratorFacts.
Variable World : Type.
Variable http_get : pyval -> World -> exc string * World.
Variable s3_connect : World -> exc unit * World.
Variable put_object : string -> string -> string -> string -> World -> exc unit * World.
Variable getenv_bucket : World -> string.
Variable url_path : pyval -> exc string.
Variable download_all_images : list pyval -> string -> io World pyval.

Let process_url' := process_url http_get put_object url_path.
Let process_urls' := process_urls http_get put_object url_path.

(** One turn of the loop returns, whatever the world answers, and its
    first message names the URL it works on. *)
Lemma process_url_returns listing_id bucket total i url st :
  exists r st' evs,
    process_url' listing_id bucket total i url st = (Ok r, st') /\
    printed st' = (printed st ++ EvProcessing i total url :: evs)%list.
Proof.
  unfold process_url', process_url, try_except, io_bind, print, call, lift,
    upload_to_s3, try_except, io_bind, print, call, ret. cbn [world printed].
  destruct (http_get url (world st)) as [[content|e] w]; cbn [world printed].
  - destruct (url_path url) as [path|e]; cbn [world printed].
    + destruct (put_object _ _ _ _ w) as [[[]|e] w']; cbn [world printed].
      * do 3 eexists. split; [reflexivity|]. rewrite <- app_assoc. reflexivity.
      * destruct (existsb _ _); cbn [world printed].
        -- do 3 eexists. split; [reflexivity|]. rewrite <- !app_assoc. reflexivity.
        -- do 3 eexists. split; [reflexivity|]. rewrite <- app_assoc. reflexivity.
    + do 3 eexists. split; [reflexivity|]. rewrite <- app_assoc. reflexivity.
  - do 3 eexists. split; [reflexivity|]. rewrite <- app_assoc. reflexivity.
Qed.

(** The loop returns and works on every URL of the list: a failure on
    one URL does not end it. *)
Lemma process_urls_all listing_id bucket total urls : forall i count s3_urls st,
  exists count' s3_urls' st',
    process_urls' listing_id bucket total i urls count s3_urls st
      = (Ok (count', s3_urls'), st') /\
    (List.length s3_urls = count -> List.length s3_urls' = count') /\
    (forall e, In e (printed st) -> In e (printed st')) /\
    (forall j url, nth_error urls j = Some url ->
                   In (EvProcessing (i + j) total url) (printed st')).
Proof.
  induction urls as [|url urls IH]; intros i count s3_urls st.
  - exists count, s3_urls, st. split; [reflexivity|]. split; [auto|]. split; [auto|].
    intros [|j] u H; discriminate H.
  - destruct (process_url_returns listing_id bucket total i url st)
      as (r & st1 & evs & Hrun & Hprinted).
    cbn [process_urls' process_urls]. unfold process_urls' in IH.
    unfold io_bind. fold process_url'. rewrite Hrun.
    destruct r as [s3_url|].
    + destruct (IH (S i) (count + 1) (s3_urls ++ [s3_url])%list st1)
        as (c' & u' & st' & Hrest & Hlen & Hmono & Hall).
      exists c', u', st'. split; [exact Hrest|]. split; [|split].
      * intros Hc. apply Hlen. rewrite length_app. simpl. lia.
      * intros e He. apply Hmono. rewrite Hprinted. apply in_or_app. now left.
      * intros [|j] u Hj; simpl in Hj.
        -- injection Hj as <-. apply Hmono. rewrite Hprinted, Nat.add_0_r.
           apply in_or_app. right. now left.
        -- replace (i + S j) with (S i + j) by lia. now apply Hall.
    + destruct (IH (S i) count s3_urls st1)
        as (c' & u' & st' & Hrest & Hlen & Hmono & Hall).
      exists c', u', st'. split; [exact Hrest|]. split; [exact Hlen|]. split.
      * intros e He. apply Hmono. rewrite Hprinted. apply in_or_app. now left.
      * intros [|j] u Hj; simpl in Hj.
        -- injection Hj as <-. apply Hmono. rewrite Hprinted, Nat.add_0_r.
           apply in_or_app. right. now left.
        -- replace (i + S j) with (S i + j) by lia. now apply Hall.
Qed.

(** An image that is fetched and uploaded gives an S3 URL. *)
Lemma process_url_uploaded listing_id bucket total i url path st :
  (forall w, exists content w', http_get url w = (Ok content, w')) ->
  url_path url = Ok path ->
  (forall b k body ct w, exists w', put_object b k body ct w = (Ok tt, w')) ->
  exists st',
    process_url' listing_id bucket total i url st
      = (Ok (Some ("https://" ++ bucket ++ ".s3.amazonaws.com/" ++
                   "listings/" ++ listing_id ++ "/" ++ filename_of path i)), st') /\
    printed st' = (printed st ++ [EvProcessing i total url;
                                  EvUploaded (filename_of path i)])%list.
Proof.
  intros Hget Hpath Hput.
  unfold process_url', process_url, try_except, io_bind, print, call, lift,
    upload_to_s3, try_except, io_bind, print, call, ret. cbn [world printed].
  destruct (Hget (world st)) as (content & w & ->). cbn [world printed].
  rewrite Hpath. cbn [world printed].
  match goal with
  | |- context [put_object ?b ?k ?body ?ct w] =>
      destruct (Hput b k body ct w) as (w' & ->)
  end.
  cbn [world printed]. eexists. split; [reflexivity|].
  rewrite <- app_assoc. reflexivity.
Qed.

(** An image whose fetch raises is passed over: the error is printed
    and nothing is returned for it. *)
Lemma process_url_fetch_error listing_id bucket total i url e st :
  (forall w, exists w', http_get url w = (Raise e, w')) ->
  exists st',
    process_url' listing_id bucket total i url st = (Ok None, st') /\
    printed st' = (printed st ++ [EvProcessing i total url;
                                  EvError url (exn_msg e)])%list.
Proof.
  intros Hget.
  unfold process_url', process_url, try_except, io_bind, print, call, lift,
    upload_to_s3, try_except, io_bind, print, call, ret. cbn [world printed].
  destruct (Hget (world st)) as (w & ->). cbn [world printed].
  eexists. split; [reflexivity|]. rewrite <- app_assoc. reflexivity.
Qed.

(** With a client at hand the orchestrator returns a summary for any
    batch: the total is the number of URLs, the count of uploads is the
    number of S3 URLs listed, and every URL of the batch has been worked
    on, whatever happened to the others. *)
Lemma download_and_upload_visits_all image_urls listing_id bucket_name st :
  image_urls <> [] ->
  (forall w, exists w', s3_connect w = (Ok tt, w')) ->
  exists uploaded s3_urls bucket st',
    download_and_upload_to_s3 http_get s3_connect put_object getenv_bucket url_path
                              download_all_images image_urls listing_id bucket_name st
      = (Ok (PDict [("success", py_nat uploaded);
                    ("total", py_nat (List.length image_urls));
                    ("s3_urls", PList (map PStr s3_urls));
                    ("bucket", PStr bucket); ("listing_id", PStr listing_id)]), st') /\
    List.length s3_urls = uploaded /\
    (forall j url, nth_error image_urls j = Some url ->
                   In (EvProcessing (1 + j) (List.length image_urls) url) (printed st')).
Proof.
  intros Hne Hconn. unfold download_and_upload_to_s3.
  destruct image_urls as [|u0 us]; [congruence|]. set (urls := u0 :: us).
  unfold get_s3_client, io_bind, call.
  destruct (Hconn (world st)) as (w0 & ->). cbn [negb].
  set (st0 := {| world := w0; printed := printed st |}).
  set (pick := if str_truthy bucket_name
               then ret (match bucket_name with Some b => b | None => EmptyString end)
               else fun st1 : state World => (Ok (getenv_bucket (world st1)), st1)).
  assert (Hpick : exists bucket, pick st0 = (Ok bucket, st0)).
  { unfold pick. destruct (str_truthy bucket_name); eexists; reflexivity. }
  destruct Hpick as (bucket & ->).
  unfold print at 1. cbn [world printed].
  destruct (process_urls_all listing_id bucket (List.length urls) urls 1 0 []
              {| world := w0; printed := (printed st ++ [EvStart (List.length urls)])%list |})
    as (count & s3_urls & st1 & Hrun & Hlen & _ & Hall).
  unfold process_urls' in Hrun. cbn [world printed st0]. rewrite Hrun.
  unfold print, ret. cbn [world printed].
  exists count, s3_urls, bucket. eexists. split; [reflexivity|].
  split; [now apply Hlen|].
  intros j url Hj. cbn [printed]. apply in_or_app. left. now apply Hall.
Qed.

End OrchestratorFacts.

(** C3 (counterexample). A batch of three URLs whose second fetch raises
    a connection error: the summary counts 2 uploads out of 3 and lists
    the two S3 URLs, but holds no record of the failed item; the error
    detail is printed, not returned. *)
Lemma summary_without_failure_record :
  fst (demo_run [PStr "https://x/a.jpg"; PStr "https://x/b.jpg"; PStr "https://x/c.jpg"])
    = Ok (PDict [("success", PInt 2); ("total", PInt 3);
                 ("s3_urls",
                  PList [PStr "https://zillow-images.s3.amazonaws.com/listings/zpid_1/a.jpg";
                         PStr "https://zillow-images.s3.amazonaws.com/listings/zpid_1/c.jpg"]);
                 ("bucket", PStr "zillow-images"); ("listing_id", PStr "zpid_1")]) /\
  ~ has_failure_record
      (PDict [("success", PInt 2); ("total", PInt 3);
              ("s3_urls",
               PList [PStr "https://zillow-images.s3.amazonaws.com/listings/zpid_1/a.jpg";
                      PStr "https://zillow-images.s3.amazonaws.com/listings/zpid_1/c.jpg"]);
              ("bucket", PStr "zillow-images"); ("listing_id", PStr "zpid_1")])
      (PStr "https://x/b.jpg") /\
  In (EvError (PStr "https://x/b.jpg") "connection refused")
     (printed (snd (demo_run [PStr "https://x/a.jpg"; PStr "https://x/b.jpg";
                              PStr "https://x/c.jpg"]))).
Proof.
  split; [vm_compute; reflexivity|]. split.
  - apply (@summary_has_no_failure_record 2 3
             ["https://zillow-images.s3.amazonaws.com/listings/zpid_1/a.jpg";
              "https://zillow-images.s3.amazonaws.com/listings/zpid_1/c.jpg"]
             "zillow-images" "zpid_1").
  - vm_compute. tauto.
Qed.

(** C3 (as amended). With an S3 client at hand, a batch of three URLs
    whose second fetch raises while the other two are fetched and
    uploaded: all three URLs are worked on in turn, the summary counts 3
    in total and 2 uploads and lists the two S3 URLs; the failed item has
    no record in the summary, its error detail is printed. *)
Theorem download_and_upload_isolates_failure
        (World : Type)
        (http_get : pyval -> World -> exc string * World)
        (s3_connect : World -> exc unit * World)
        (put_object : string -> string -> string -> string -> World -> exc unit * World)
        (getenv_bucket : World -> string)
        (url_path : pyval -> exc string)
        (download_all_images : list pyval -> string -> io World pyval)
        (listing_id : string) (bucket_name : option string)
        (u1 u2 u3 : pyval) (p1 p3 : string) (e : exn) (st : state World) :
  (forall w, exists w', s3_connect w = (Ok tt, w')) ->
  (forall w, exists content w', http_get u1 w = (Ok content, w')) ->
  url_path u1 = Ok p1 ->
  (forall w, exists w', http_get u2 w = (Raise e, w')) ->
  (forall w, exists content w', http_get u3 w = (Ok content, w')) ->
  url_path u3 = Ok p3 ->
  (forall b k body ct w, exists w', put_object b k body ct w = (Ok tt, w')) ->
  exists bucket st',
    download_and_upload_to_s3 http_get s3_connect put_object getenv_bucket url_path
                              download_all_images [u1; u2; u3] listing_id bucket_name st
      = (Ok (PDict [("success", PInt 2); ("total", PInt 3);
                    ("s3_urls",
                     PList [PStr ("https://" ++ bucket ++ ".s3.amazonaws.com/" ++
                                  "listings/" ++ listing_id ++ "/" ++ filename_of p1 1);
                            PStr ("https://" ++ bucket ++ ".s3.amazonaws.com/" ++
                                  "listings/" ++ listing_id ++ "/" ++ filename_of p3 3)]);
                    ("bucket", PStr bucket); ("listing_id", PStr listing_id)]), st') /\
    printed st' =
      (printed st ++ [EvStart 3;
                      EvProcessing 1 3 u1; EvUploaded (filename_of p1 1);
                      EvProcessing 2 3 u2; EvError u2 (exn_msg e);
                      EvProcessing 3 3 u3; EvUploaded (filename_of p3 3);
                      EvSummary 2 3])%list /\
    forall summary st'',
      download_and_upload_to_s3 http_get s3_connect put_object getenv_bucket url_path
                                download_all_images [u1; u2; u3] listing_id bucket_name st
        = (Ok summary, st'') ->
      ~ has_failure_record summary u2.
Proof.
  intros Hconn Hget1 Hpath1 Hget2 Hget3 Hpath3 Hput.
  assert (Hrun : exists bucket st',
    download_and_upload_to_s3 http_get s3_connect put_object getenv_bucket url_path
                              download_all_images [u1; u2; u3] listing_id bucket_name st
      = (Ok (PDict [("success", py_nat 2); ("total", py_nat 3);
                    ("s3_urls",
                     PList (map PStr
                       [("https://" ++ bucket ++ ".s3.amazonaws.com/" ++
                         "listings/" ++ listing_id ++ "/" ++ filename_of p1 1);
                        ("https://" ++ bucket ++ ".s3.amazonaws.com/" ++
                         "listings/" ++ listing_id ++ "/" ++ filename_of p3 3)]));
                    ("bucket", PStr bucket); ("listing_id", PStr listing_id)]), st') /\
    printed st' =
      (printed st ++ [EvStart 3;
                      EvProcessing 1 3 u1; EvUploaded (filename_of p1 1);
                      EvProcessing 2 3 u2; EvError u2 (exn_msg e);
                      EvProcessing 3 3 u3; EvUploaded (filename_of p3 3);
                      EvSummary 2 3])%list).
  { unfold download_and_upload_to_s3, get_s3_client, io_bind, call.
    destruct (Hconn (world st)) as (w0 & ->). cbn [negb].
    set (st0 := {| world := w0; printed := printed st |}).
    set (pick := if str_truthy bucket_name
                 then ret (match bucket_name with Some b => b | None => EmptyString end)
                 else fun st1 : state World => (Ok (getenv_bucket (world st1)), st1)).
    assert (Hpick : exists bucket, pick st0 = (Ok bucket, st0)).
    { unfold pick. destruct (str_truthy bucket_name); eexists; reflexivity. }
    destruct Hpick as (bucket & ->).
    unfold print at 1. cbn [world printed List.length].
    cbn [process_urls]. unfold io_bind.
    match goal with
    | |- context [process_url _ _ _ ?l ?b ?t ?i u1 ?s] =>
        destruct (@process_url_uploaded World http_get put_object url_path l b t i u1 p1 s
                    Hget1 Hpath1 Hput) as (st1 & Hrun1 & Hpr1)
    end.
    cbv zeta in Hrun1. rewrite Hrun1.
    match goal with
    | |- context [process_url _ _ _ ?l ?b ?t ?i u2 ?s] =>
        destruct (@process_url_fetch_error World http_get put_object url_path l b t i u2 e s
                    Hget2) as (st2 & Hrun2 & Hpr2)
    end.
    cbv zeta in Hrun2. rewrite Hrun2.
    match goal with
    | |- context [process_url _ _ _ ?l ?b ?t ?i u3 ?s] =>
        destruct (@process_url_uploaded World http_get put_object url_path l b t i u3 p3 s
                    Hget3 Hpath3 Hput) as (st3 & Hrun3 & Hpr3)
    end.
    cbv zeta in Hrun3. rewrite Hrun3.
    unfold ret, print. cbn [world printed app List.length Nat.add].
    exists bucket. eexists. split; [reflexivity|].
    cbn [printed]. rewrite Hpr3, Hpr2, Hpr1. cbn [printed].
    rewrite <- !app_assoc. reflexivity. }
  destruct Hrun as (bucket & st' & Hrun & Hprinted).
  exists bucket, st'. split; [exact Hrun|]. split; [exact Hprinted|].
  intros summary st'' Heq. rewrite Hrun in Heq.
  apply (f_equal (fun r => match fst r with Ok v => v | Raise _ => PNone end)) in Heq.
  cbn [fst] in Heq. subst summary.
  apply summary_has_no_failure_record.
Qed.

Lemma download_and_upload_isolates_failure_witness :
  exists bucket st',
    demo_run [PStr "https://x/a.jpg"; PStr "https://x/b.jpg"; PStr "https://x/c.jpg"]
      = (Ok (PDict [("success", PInt 2); ("total", PInt 3);
                    ("s3_urls",
                     PList [PStr ("https://" ++ bucket ++ ".s3.amazonaws.com/" ++
                                  "listings/" ++ "zpid_1" ++ "/" ++ filename_of "/a.jpg" 1);
                            PStr ("https://" ++ bucket ++ ".s3.amazonaws.com/" ++
                                  "listings/" ++ "zpid_1" ++ "/" ++ filename_of "/c.jpg" 3)]);
                    ("bucket", PStr bucket); ("listing_id", PStr "zpid_1")]), st') /\
    printed st' =
      ([] ++ [EvStart 3;
              EvProcessing 1 3 (PStr "https://x/a.jpg"); EvUploaded (filename_of "/a.jpg" 1);
              EvProcessing 2 3 (PStr "https://x/b.jpg");
              EvError (PStr "https://x/b.jpg") "connection refused";
              EvProcessing 3 3 (PStr "https://x/c.jpg"); EvUploaded (filename_of "/c.jpg" 3);
              EvSummary 2 3])%list /\
    forall summary st'',
      demo_run [PStr "https://x/a.jpg"; PStr "https://x/b.jpg"; PStr "https://x/c.jpg"]
        = (Ok summary, st'') ->
      ~ has_failure_record summary (PStr "https://x/b.jpg").
Proof.
  apply (@download_and_upload_isolates_failure
           unit demo_http_get (fun w => (Ok tt, w)) (fun _ _ _ _ w => (Ok tt, w))
           (fun _ => "zillow-images") demo_url_path (fun _ _ st => (Ok (PInt 0), st))
           "zpid_1" None
           (PStr "https://x/a.jpg") (PStr "https://x/b.jpg") (PStr "https://x/c.jpg")
           "/a.jpg" "/c.jpg" (MkExn RequestException "connection refused")
           (MkState tt [])).
  - intros w. exists w. reflexivity.
  - intros w. exists "image bytes", w. reflexivity.
  - reflexivity.
  - intros w. exists w. reflexivity.
  - intros w. exists "image bytes", w. reflexivity.
  - reflexivity.
  - intros b k body ct w. exists w. reflexivity.
Defined.

(* ================================================================== *)
(** * Soundness of the matcher *)
(* ================================================================== *)

Lemma strip_prefix_spec l s s' : Re.strip_prefix l s = Some s' -> s = l ++ s'.
Proof.
  revert s. induction l as [|a l IH]; intros s; simpl.
  - now intros [= ->].
  - destruct s as [|b s]; [discriminate|].
    destruct (Ascii.eqb_spec a b) as [->|]; [|discriminate].
    intros H. now rewrite (IH _ H).
Qed.

Lemma strip_prefix_app l s : Re.strip_prefix l (l ++ s) = Some s.
Proof.
  induction l as [|a l IH]; simpl; [reflexivity|]. now rewrite Ascii.eqb_refl.
Qed.

Lemma strip_n_spec n p s s' :
  Re.strip_n n p s = Some s' ->
  exists pre, s = pre ++ s' /\ String.length pre = n /\ all_chars p pre = true.
Proof.
  revert s. induction n as [|n IH]; intros s; simpl.
  - intros [= ->]. exists EmptyString. auto.
  - destruct s as [|c s]; [discriminate|].
    destruct (p c) eqn:Hc; [|discriminate].
    intros H. destruct (IH _ H) as (pre & -> & Hlen & Hall).
    exists (String c pre). simpl. rewrite Hc, Hall, Hlen. auto.
Qed.

Lemma strip_n_app n p pre s :
  String.length pre = n -> all_chars p pre = true ->
  Re.strip_n n p (pre ++ s) = Some s.
Proof.
  revert n. induction pre as [|c pre IH]; intros n Hlen Hall; simpl in *.
  - now subst n.
  - subst n. apply andb_true_iff in Hall as [Hc Hall]. simpl. rewrite Hc. now apply IH.
Qed.

Lemma length_append a b : String.length (a ++ b) = String.length a + String.length b.
Proof. induction a as [|c a IH]; simpl; [reflexivity | now rewrite IH]. Qed.

Lemma take_append a b : Str.take (String.length (a ++ b) - String.length b) (a ++ b) = a.
Proof.
  rewrite length_append.
  replace (String.length a + String.length b - String.length b) with (String.length a) by lia.
  induction a as [|c a IH]; simpl.
  - destruct b; reflexivity.
  - now rewrite IH.
Qed.

Lemma append_assoc (a b c : string) : (a ++ b) ++ c = a ++ (b ++ c).
Proof. induction a as [|x a IH]; simpl; [reflexivity | now rewrite IH]. Qed.

(** Whatever the matcher hands to its continuation is a match. *)
Lemma step_sound (A : Type) r : forall s caps (k : string -> list string -> option A) x,
  Re.step r s caps k = Some x ->
  exists s' new, matches r s s' new /\ k s' (caps ++ new)%list = Some x.
Proof.
  induction r as [l|p|r1 IH1 r2 IH2|r1 IH1 r2 IH2|p|p|p|n p|r IH];
    intros s caps k x; cbn [Re.step].
  - destruct (Re.strip_prefix l s) as [s'|] eqn:E; [|discriminate].
    apply strip_prefix_spec in E as ->. intros H.
    exists s', []. rewrite app_nil_r. split; [constructor | exact H].
  - destruct s as [|c s']; [discriminate|].
    destruct (p c) eqn:Hc; [|discriminate]. intros H.
    exists s', []. rewrite app_nil_r. split; [now constructor | exact H].
  - intros H. apply IH1 in H as (s1 & n1 & M1 & H).
    apply IH2 in H as (s' & n2 & M2 & H).
    exists s', (n1 ++ n2)%list. rewrite app_assoc. split; [econstructor; eassumption | exact H].
  - destruct (Re.step r1 s caps k) as [y|] eqn:E1.
    + intros [= <-]. apply IH1 in E1 as (s' & n & M & H).
      exists s', n. split; [now apply M_Alt_l | exact H].
    + intros H. apply IH2 in H as (s' & n & M & H).
      exists s', n. split; [now apply M_Alt_r | exact H].
  - induction s as [|c s IHs].
    + intros H. exists EmptyString, []. rewrite app_nil_r.
      split; [apply (M_Star p EmptyString EmptyString); reflexivity | exact H].
    + destruct (p c) eqn:Hc.
      * match goal with
        | |- match ?t with _ => _ end = _ -> _ => destruct t as [y|] eqn:E
        end.
        -- intros [= <-]. destruct (IHs eq_refl) as (s' & new & M & H).
           inversion M as [| | | | |p' pre s0 Hall| | | | |]; subst.
           exists s', []. split; [|exact H].
           apply (M_Star p (String c pre) s'). simpl. now rewrite Hc.
        -- intros H. exists (String c s), []. rewrite app_nil_r.
           split; [apply (M_Star p EmptyString); reflexivity | exact H].
      * intros H. exists (String c s), []. rewrite app_nil_r.
        split; [apply (M_Star p EmptyString); reflexivity | exact H].
  - induction s as [|c s IHs].
    + destruct (k EmptyString caps) as [y|] eqn:E; [|discriminate].
      intros [= <-]. exists EmptyString, []. rewrite app_nil_r.
      split; [apply (M_StarLazy p EmptyString EmptyString); reflexivity | exact E].
    + destruct (k (String c s) caps) as [y|] eqn:E.
      * intros [= <-]. exists (String c s), []. rewrite app_nil_r.
        split; [apply (M_StarLazy p EmptyString); reflexivity | exact E].
      * destruct (p c) eqn:Hc; [|discriminate].
        intros H. destruct (IHs H) as (s' & new & M & H').
        inversion M as [| | | | | |p' pre s0 Hall| | | |]; subst.
        exists s', []. split; [|exact H'].
        apply (M_StarLazy p (String c pre) s'). simpl. now rewrite Hc.
  - destruct s as [|c s'].
    + intros H. exists EmptyString, []. rewrite app_nil_r. split; [constructor | exact H].
    + destruct (p c) eqn:Hc.
      * destruct (k s' caps) as [y|] eqn:E.
        -- intros [= <-]. exists s', []. rewrite app_nil_r.
           split; [now constructor | exact E].
        -- intros H. exists (String c s'), []. rewrite app_nil_r.
           split; [constructor | exact H].
      * intros H. exists (String c s'), []. rewrite app_nil_r.
        split; [constructor | exact H].
  - destruct (Re.strip_n n p s) as [s'|] eqn:E; [|discriminate].
    apply strip_n_spec in E as (pre & -> & Hlen & Hall). intros H.
    exists s', []. rewrite app_nil_r. split; [now constructor | exact H].
  - intros H. apply IH in H as (s' & n & M & H).
    exists s', (n ++ [Str.take (String.length s - String.length s') s])%list.
    rewrite app_assoc. split; [now constructor | exact H].
Qed.

(** A match takes a prefix off the input. *)
Lemma matches_prefix r s s' new :
  matches r s s' new -> exists pre, s = pre ++ s'.
Proof.
  induction 1;
    repeat match goal with
           | H : exists pre, _ = pre ++ _ |- _ => destruct H as (? & ->)
           end;
    try (eexists; reflexivity);
    try (exists EmptyString; reflexivity);
    try (exists (String c EmptyString); reflexivity).
  eexists. apply eq_sym, append_assoc.
Qed.

Lemma match_here_sound r s m :
  Re.match_here r s = Some m ->
  exists pre, s = pre ++ Re.m_rest m /\ Re.m_text m = pre /\
              matches r s (Re.m_rest m) (Re.m_groups m).
Proof.
  unfold Re.match_here. intros H.
  apply step_sound in H as (s' & new & M & H). injection H as <-. simpl.
  destruct (matches_prefix M) as (pre & ->).
  exists pre. split; [reflexivity|]. split; [apply take_append | exact M].
Qed.

Lemma finditer_sound r s : forall skip m,
  In m (Re.finditer r skip s) -> exists s', Re.match_here r s' = Some m.
Proof.
  induction s as [|c s IH]; intros skip m; destruct skip as [|n]; simpl.
  - destruct (Re.match_here r EmptyString) as [m0|] eqn:E; simpl; [|tauto].
    intros [<-|[]]. eauto.
  - tauto.
  - destruct (Re.match_here r (String c s)) as [m0|] eqn:E; simpl.
    + intros [<-|H]; [eauto | eapply IH; eassumption].
    + apply IH.
  - apply IH.
Qed.

(** ** The photo pattern *)

Ltac invert_matches :=
  repeat match goal with
         | H : matches (Re.Seq _ _) _ _ _ |- _ => inversion H; clear H; subst
         | H : matches (Re.Grp _) _ _ _ |- _ => inversion H; clear H; subst
         | H : matches (Re.Rep _ _) _ _ _ |- _ => inversion H; clear H; subst
         | H : matches (Re.Alt _ _) _ _ _ |- _ => inversion H; clear H; subst
         | H : matches (Re.Lit _) _ _ _ |- _ => inversion H; clear H; subst
         | H : matches (Re.Chr _) _ _ _ |- _ => inversion H; clear H; subst
         | H : matches (Re.Star _) _ _ _ |- _ => inversion H; clear H; subst
         end.

(** The groups of a match of the photo pattern are a 32-character
    identifier and one of the three extensions. *)
Lemma zillow_match_groups s m :
  Re.match_here zillow_photo_pattern s = Some m ->
  is_photo_id (Re.group 1 m) /\ is_photo_ext (Re.group 2 m).
Proof.
  intros H. apply match_here_sound in H as (pre & _ & _ & M).
  unfold Re.group. destruct m as [text groups rest]. simpl in *.
  cbv [zillow_photo_pattern Re.seqs Re.lits Re.alts Re.Plus map] in M.
  invert_matches; cbn [app nth Nat.sub]; rewrite take_append;
    (split; [split; assumption|]); unfold is_photo_ext;
    rewrite take_append; auto.
Qed.

Lemma raw_candidates_shape html_content u :
  In u (raw_candidates html_content) ->
  exists id ext, is_photo_id id /\ is_photo_ext ext /\ u = cdn_url id "1536" ext.
Proof.
  unfold raw_candidates, Re.findall2. rewrite map_map.
  intros H. apply in_map_iff in H as (m & <- & Hm).
  apply finditer_sound in Hm as (s' & Hm).
  apply zillow_match_groups in Hm as [Hid Hext].
  exists (Re.group 1 m), (Re.group 2 m).
  split; [exact Hid|]. split; [exact Hext | reflexivity].
Qed.

(** ** Photo URLs of the source site *)

Section StepEquations.
Variable A : Type.
Implicit Types (k : string -> list string -> option A).

Lemma step_seq r1 r2 s caps k :
  Re.step (Re.Seq r1 r2) s caps k =
  Re.step r1 s caps (fun s' caps' => Re.step r2 s' caps' k).
Proof. reflexivity. Qed.

Lemma step_grp r s caps k :
  Re.step (Re.Grp r) s caps k =
  Re.step r s caps
          (fun s' caps' =>
             k s' (caps' ++ [Str.take (String.length s - String.length s') s])%list).
Proof. reflexivity. Qed.

Lemma step_lit l s caps k : Re.step (Re.Lit l) (l ++ s) caps k = k s caps.
Proof. cbn [Re.step]. now rewrite strip_prefix_app. Qed.

Lemma step_chr p c s caps k :
  p c = true -> Re.step (Re.Chr p) (String c s) caps k = k s caps.
Proof. intros H. cbn [Re.step]. now rewrite H. Qed.

Lemma step_rep n p pre s caps k :
  String.length pre = n -> all_chars p pre = true ->
  Re.step (Re.Rep n p) (pre ++ s) caps k = k s caps.
Proof. intros Hn Hp. cbn [Re.step]. now rewrite (@strip_n_app n p pre s Hn Hp). Qed.

Lemma step_star_stop p pre rest caps k x :
  all_chars p pre = true ->
  match rest with String c _ => p c = false | EmptyString => True end ->
  k rest caps = Some x ->
  Re.step (Re.Star p) (pre ++ rest) caps k = Some x.
Proof.
  intros Hall Hstop Hk. cbn [Re.step].
  induction pre as [|c pre IH]; simpl in *.
  - destruct rest as [|c r]; [exact Hk|]. now rewrite Hstop.
  - apply andb_true_iff in Hall as [Hc Hall]. rewrite Hc, (IH Hall). reflexivity.
Qed.
End StepEquations.

Lemma hex_is_not_dash c : Str.is_hex_lower c = true -> Ascii.eqb "-"%char c = false.
Proof.
  intros H. destruct (Ascii.eqb_spec "-"%char c) as [<-|]; [discriminate H | reflexivity].
Qed.

Lemma search_resolution_skip_hex id t :
  all_chars Str.is_hex_lower id = true ->
  Re.search resolution_pattern (id ++ t) = Re.search resolution_pattern t.
Proof.
  induction id as [|c id IH]; simpl; [reflexivity|].
  intros H. apply andb_true_iff in H as [Hc Hall].
  unfold Re.match_here, resolution_pattern. cbn [Re.seqs Re.step Re.strip_prefix].
  rewrite (hex_is_not_dash _ Hc). now apply IH.
Qed.

Lemma match_resolution size ext :
  nonempty_digits size ->
  exists m, Re.match_here resolution_pattern ("-cc_ft_" ++ size ++ "." ++ ext) = Some m /\
            Re.group 1 m = size.
Proof.
  intros [Hne Hall]. destruct size as [|d size]; [congruence|].
  simpl in Hall. apply andb_true_iff in Hall as [Hd Hall].
  unfold Re.match_here, resolution_pattern, Re.Plus. cbn [Re.seqs].
  rewrite step_seq, step_lit, step_seq, step_grp, step_seq.
  change (String d size ++ "." ++ ext) with (String d (size ++ String "." ext)).
  rewrite step_chr by exact Hd.
  eexists. split.
  - apply step_star_stop; [exact Hall | reflexivity |].
    change (String "." ext) with ("." ++ ext).
    rewrite step_lit. reflexivity.
  - unfold Re.group. cbn [Re.m_groups Nat.sub nth app].
    exact (take_append (String d size) ("." ++ ext)).
Qed.

Lemma resolution_cdn_url id size ext :
  is_photo_id id -> nonempty_digits size ->
  resolution (cdn_url id size ext) = Str.int size.
Proof.
  intros [_ Hhex] Hsize. unfold resolution, cdn_url.
  replace (Re.search resolution_pattern
             ("https://photos.zillowstatic.com/fp/" ++ id ++ "-cc_ft_" ++ size ++ "." ++ ext))
    with (Re.search resolution_pattern (id ++ "-cc_ft_" ++ size ++ "." ++ ext))
    by reflexivity.
  rewrite search_resolution_skip_hex by exact Hhex.
  destruct (@match_resolution size ext Hsize) as (m & Hm & Hg).
  assert (Hs : Re.search resolution_pattern ("-cc_ft_" ++ size ++ "." ++ ext) = Some m).
  { change ("-cc_ft_" ++ size ++ "." ++ ext)
      with (String "-" ("cc_ft_" ++ size ++ "." ++ ext)) in *.
    cbn [Re.search]. now rewrite Hm. }
  rewrite Hs. now rewrite Hg.
Qed.

Lemma match_base id size ext :
  is_photo_id id -> nonempty_digits size -> is_photo_ext ext ->
  exists m, Re.match_here base_pattern ("/" ++ id ++ "-cc_ft_" ++ size ++ "." ++ ext) = Some m /\
            Re.group 1 m = id.
Proof.
  intros [Hlen Hhex] [Hne Hall] Hext. destruct size as [|d size]; [congruence|].
  simpl in Hall. apply andb_true_iff in Hall as [Hd Hall].
  unfold Re.match_here, base_pattern, Re.Plus, Re.lits. cbn [Re.seqs Re.alts map].
  rewrite step_seq, step_lit, step_seq, step_grp.
  rewrite step_rep by assumption.
  rewrite take_append.
  rewrite step_seq, step_lit, step_seq, step_seq.
  change (String d size ++ "." ++ ext) with (String d (size ++ String "." ext)).
  rewrite step_chr by exact Hd.
  eexists. split.
  - apply step_star_stop; [exact Hall | reflexivity |].
    change (String "." ext) with ("." ++ ext).
    rewrite step_seq, step_lit, step_grp.
    destruct Hext as [ -> | [ -> | -> ] ]; cbn [Re.step Re.strip_prefix Ascii.eqb Bool.eqb].
    all: reflexivity.
  - reflexivity.
Qed.

Lemma search_base_cdn_url id size ext :
  is_photo_id id -> nonempty_digits size -> is_photo_ext ext ->
  exists m, Re.search base_pattern (cdn_url id size ext) = Some m /\ Re.group 1 m = id.
Proof.
  intros Hid Hsize Hext.
  destruct (match_base Hid Hsize Hext) as (m & Hm & Hg).
  exists m. split; [|exact Hg]. unfold cdn_url.
  replace (Re.search base_pattern
             ("https://photos.zillowstatic.com/fp/" ++ id ++ "-cc_ft_" ++ size ++ "." ++ ext))
    with (Re.search base_pattern ("/" ++ id ++ "-cc_ft_" ++ size ++ "." ++ ext))
    by reflexivity.
  change ("/" ++ id ++ "-cc_ft_" ++ size ++ "." ++ ext)
    with (String "/" (id ++ "-cc_ft_" ++ size ++ "." ++ ext)) in *.
  cbn [Re.search]. now rewrite Hm.
Qed.

(** A photo URL of the source site is filed under its identifier, and
    its resolution token is its size. *)
Lemma cdn_url_facts id size ext :
  is_photo_id id -> nonempty_digits size -> is_photo_ext ext ->
  has_identity (cdn_url id size ext) = true /\
  asset_key (cdn_url id size ext) = id /\
  resolution (cdn_url id size ext) = Str.int size.
Proof.
  intros Hid Hsize Hext.
  destruct (search_base_cdn_url Hid Hsize Hext) as (m & Hm & Hg).
  unfold has_identity, asset_key. rewrite Hm. simpl.
  repeat split; [exact Hg | now apply resolution_cdn_url].
Qed.

Lemma digits_1536 : nonempty_digits "1536".
Proof. split; [discriminate | reflexivity]. Qed.

Lemma digits_768 : nonempty_digits "768".
Proof. split; [discriminate | reflexivity]. Qed.

Lemma digits_192 : nonempty_digits "192".
Proof. split; [discriminate | reflexivity]. Qed.

(** ** One group *)

Lemma fold_group_str_same_key k xs : forall us,
  Forall (fun x => has_identity x = true /\ asset_key x = k) xs ->
  fold_left group_str xs [(k, us)] = [(k, (us ++ map PStr xs)%list)].
Proof.
  induction xs as [|x xs IH]; intros us Hall; simpl.
  - now rewrite app_nil_r.
  - pose proof (Forall_inv Hall) as [Hid Hk].
    pose proof (Forall_inv_tail Hall) as Hrest.
    unfold group_str at 2. rewrite Hid, Hk. unfold Py.has_key. simpl.
    rewrite String.eqb_refl. simpl. rewrite String.eqb_refl.
    rewrite IH by assumption. now rewrite <- app_assoc.
Qed.

(** Candidates that all share one identity come out as one URL, the
    first of largest resolution. *)
Lemma filter_unique_images_one_group set_order k x xs :
  Forall (fun y => has_identity y = true /\ asset_key y = k) (x :: xs) ->
  exists best,
    filter_unique_images set_order (map PStr (x :: xs)) = Ok [PStr best] /\
    first_max resolution (x :: xs) best.
Proof.
  intros Hall.
  destruct (filter_unique_images_str set_order (x :: xs)) as (ys & Hys & _ & Hch).
  assert (Hg : fold_left group_str (x :: xs) [] = [(k, map PStr (x :: xs))]).
  { pose proof (Forall_inv Hall) as [Hid Hk].
    pose proof (Forall_inv_tail Hall) as Hrest. simpl.
    unfold group_str at 2. rewrite Hid, Hk. simpl.
    rewrite String.eqb_refl. now rewrite fold_group_str_same_key. }
  rewrite Hg in Hch.
  inversion Hch as [|e y g ys' (zs & Hzs & Hmax & _) Hnil]; subst.
  inversion Hnil; subst.
  cbn [snd] in Hzs. change (PStr x :: map PStr xs) with (map PStr (x :: xs)) in Hzs.
  apply map_PStr_inj in Hzs. subst zs.
  exists y. split; [exact Hys | exact Hmax].
Qed.

Lemma first_max_ge {A : Type} (f : A -> N) l b v :
  first_max f l b -> In v l -> (f v <= f b)%N.
Proof.
  intros (pre & post & -> & Hpre & Hpost) Hin.
  rewrite Forall_forall in Hpre, Hpost.
  apply in_app_or in Hin as [Hin|[<-|Hin]].
  - specialize (Hpre _ Hin). lia.
  - lia.
  - now apply Hpost.
Qed.

Lemma photo_id_ok : is_photo_id photo_id.
Proof. split; reflexivity. Qed.

(** C4. Every match of the photo pattern in the raw text of a page adds
    to the candidates the URL of the matched photo at size 1536, whatever
    size the text names: a URL of the same identity whose resolution
    token is 1536. And when a page shows one photo at the sizes 192, 768
    and 1536, the markup fallback returns exactly one URL, that of size
    1536. *)
Theorem extract_images_from_html_full_size
        (html_parser : string -> exc BS4.soup) (set_order : list pyval -> list pyval)
        (html_content : string) (soup : BS4.soup) (id ext : string) :
  html_parser html_content = Ok soup ->
  is_photo_id id ->
  is_photo_ext ext ->
  Re.findall2 zillow_photo_pattern html_content = [(id, ext); (id, ext); (id, ext)] ->
  Forall (fun u => In u [cdn_url id "192" ext; cdn_url id "768" ext;
                         cdn_url id "1536" ext])
         (tree_candidates soup) ->
  (forall (any_html : string) (any_soup : BS4.soup) (m : string * string),
      In m (Re.findall2 zillow_photo_pattern any_html) ->
      In (full_url m) (html_candidates any_soup any_html) /\
      full_url m = cdn_url (fst m) "1536" (snd m) /\
      has_identity (full_url m) = true /\
      asset_key (full_url m) = fst m /\
      resolution (full_url m) = 1536%N) /\
  extract_images_from_html html_parser set_order html_content
    = Ok [PStr (cdn_url id "1536" ext)].
Proof.
  intros Hp Hid Hext Hraw Htree. split.
  - intros any_html any_soup m Hm.
    assert (Hin : In (full_url m) (raw_candidates any_html)) by now apply in_map.
    split; [unfold html_candidates; apply in_or_app; now right|].
    destruct (raw_candidates_shape _ _ Hin) as (id' & ext' & Hid' & Hext' & Hu).
    unfold Re.findall2 in Hm. apply in_map_iff in Hm as (mt & <- & Hmt).
    apply finditer_sound in Hmt as (s' & Hmt).
    apply zillow_match_groups in Hmt as [Hg1 Hg2]. cbn [fst snd].
    destruct (cdn_url_facts Hg1 digits_1536 Hg2) as (Hi & Hk & Hr).
    repeat split; assumption.
  - destruct (cdn_url_facts Hid digits_192 Hext) as (Hi1 & Hk1 & Hr1).
    destruct (cdn_url_facts Hid digits_768 Hext) as (Hi2 & Hk2 & Hr2).
    destruct (cdn_url_facts Hid digits_1536 Hext) as (Hi3 & Hk3 & Hr3).
    unfold extract_images_from_html, extract_images_attempt.
    rewrite Hp. cbn [bind]. unfold html_candidates, raw_candidates. rewrite Hraw.
    change (map full_url [(id, ext); (id, ext); (id, ext)])
      with [cdn_url id "1536" ext; cdn_url id "1536" ext; cdn_url id "1536" ext].
    set (raw := [cdn_url id "1536" ext; cdn_url id "1536" ext; cdn_url id "1536" ext]).
    assert (Hall : Forall (fun y => has_identity y = true /\ asset_key y = id)
                          (tree_candidates soup ++ raw)).
    { apply Forall_app. split.
      - eapply Forall_impl; [|exact Htree]. simpl.
        intros u [<-|[<-|[<-|[]]]]; auto.
      - repeat constructor; assumption. }
    assert (Hsub : forall u, In u (tree_candidates soup ++ raw) ->
                   In u [cdn_url id "192" ext; cdn_url id "768" ext; cdn_url id "1536" ext]).
    { intros u Hu. apply in_app_or in Hu as [Hu|Hu].
      - rewrite Forall_forall in Htree. now apply Htree.
      - simpl in Hu. simpl. tauto. }
    assert (Hraw_in : In (cdn_url id "1536" ext) (tree_candidates soup ++ raw)).
    { apply in_or_app. right. now left. }
    destruct (tree_candidates soup ++ raw)%list as [|x xs] eqn:Ecand; [destruct Hraw_in|].
    destruct (filter_unique_images_one_group set_order Hall) as (best & Hrun & Hmax).
    rewrite Hrun.
    pose proof (@first_max_ge _ _ _ _ _ Hmax Hraw_in) as Hge.
    pose proof (Hsub _ (@first_max_in _ _ _ _ Hmax)) as Hbest.
    rewrite Hr3 in Hge.
    destruct Hbest as [<-|[<-|[<-|[]]]].
    + rewrite Hr1 in Hge. vm_compute in Hge. now exfalso.
    + rewrite Hr2 in Hge. vm_compute in Hge. now exfalso.
    + reflexivity.
Qed.

Lemma extract_images_from_html_full_size_witness :
  (forall (any_html : string) (any_soup : BS4.soup) (m : string * string),
      In m (Re.findall2 zillow_photo_pattern any_html) ->
      In (full_url m) (html_candidates any_soup any_html) /\
      full_url m = cdn_url (fst m) "1536" (snd m) /\
      has_identity (full_url m) = true /\
      asset_key (full_url m) = fst m /\
      resolution (full_url m) = 1536%N) /\
  extract_images_from_html (fun _ => Ok variants_page) PySet.members variants_html
    = Ok [PStr (cdn_url photo_id "1536" "jpg")].
Proof.
  apply (@extract_images_from_html_full_size
           (fun _ => Ok variants_page) PySet.members variants_html variants_page
           photo_id "jpg").
  - reflexivity.
  - exact photo_id_ok.
  - left. reflexivity.
  - vm_compute. reflexivity.
  - vm_compute. repeat constructor; tauto.
Defined.


(* ================================================================== *)
(** * Further properties of the deduplicator *)
(* ================================================================== *)

Unset Implicit Arguments.

Lemma keys_group_str g s :
  map fst (group_str g s) =
  if Py.has_key (asset_key s) g then map fst g
  else (map fst g ++ [asset_key s])%list.
Proof.
  rewrite group_str_cases.
  destruct (Py.has_key (asset_key s) g) eqn:Hk.
  - destruct (has_identity s).
    + apply append_at_keys.
    + apply setitem_keys_present. now apply has_key_in_keys.
  - rewrite map_app. reflexivity.
Qed.

Lemma keys_group_str_incl g s k :
  In k (map fst g) -> In k (map fst (group_str g s)).
Proof.
  intros Hin. rewrite keys_group_str.
  destruct (Py.has_key (asset_key s) g); [exact Hin | apply in_or_app; now left].
Qed.

Lemma keys_group_str_own g s : In (asset_key s) (map fst (group_str g s)).
Proof.
  rewrite keys_group_str.
  destruct (Py.has_key (asset_key s) g) eqn:Hk.
  - now apply has_key_in_keys.
  - apply in_or_app. right. now left.
Qed.

Lemma keys_fold_group_str xs : forall g k,
  In k (map fst g) \/ In k (map asset_key xs) ->
  In k (map fst (fold_left group_str xs g)).
Proof.
  induction xs as [|x xs IH]; intros g k; simpl.
  - intros [H|[]]. exact H.
  - intros [H|[<-|H]]; apply IH.
    + left. now apply keys_group_str_incl.
    + left. apply keys_group_str_own.
    + now right.
Qed.

(** The members of the groups are candidates. *)
Lemma members_group_str (P : pyval -> Prop) g s :
  Forall (fun e => Forall P (snd e)) g -> P (PStr s) ->
  Forall (fun e => Forall P (snd e)) (group_str g s).
Proof.
  intros Hg Hs. rewrite group_str_cases.
  destruct (Py.has_key (asset_key s) g).
  - destruct (has_identity s).
    + apply append_at_forall; [exact Hg|].
      intros us Hus. simpl in *. apply Forall_app. split; [exact Hus|].
      constructor; [exact Hs | constructor].
    + apply setitem_forall; [exact Hg|]. simpl. constructor; [exact Hs | constructor].
  - apply Forall_app. split; [exact Hg|].
    constructor; [|constructor]. simpl. constructor; [exact Hs | constructor].
Qed.

Lemma members_fold_group_str (P : pyval -> Prop) xs : forall g,
  Forall (fun e => Forall P (snd e)) g ->
  (forall x, In x xs -> P (PStr x)) ->
  Forall (fun e => Forall P (snd e)) (fold_left group_str xs g).
Proof.
  induction xs as [|x xs IH]; intros g Hg Hxs; simpl; [exact Hg|].
  apply IH.
  - apply members_group_str; [exact Hg | apply Hxs; now left].
  - intros y Hy. apply Hxs. now right.
Qed.

Lemma chosen_in_group g ys :
  Forall2 chosen g ys ->
  forall y, In y ys -> exists e, In e g /\ In (PStr y) (snd e).
Proof.
  induction 1 as [|e y0 g ys (zs & Hzs & Hmax & _) _ IH]; intros y; simpl; [tauto|].
  intros [<-|Hin].
  - exists e. split; [now left|]. rewrite Hzs. apply in_map.
    eapply first_max_in. exact Hmax.
  - destruct (IH y Hin) as (e' & He' & Hy). exists e'. split; [now right | exact Hy].
Qed.

Lemma PStr_in_map x xs : In (PStr x) (map PStr xs) -> In x xs.
Proof.
  intros H. apply in_map_iff in H as (y & [= ->] & Hy). exact Hy.
Qed.

Lemma NoDup_map_inv_string (f : string -> string) l : NoDup (map f l) -> NoDup l.
Proof.
  induction l as [|x l IH]; simpl; intros H; [constructor|].
  inversion H as [|? ? Hnot Hnd]; subst. constructor; [|now apply IH].
  intros Hin. apply Hnot. now apply in_map.
Qed.

(** What the deduplicator returns is a choice among the candidates with
    pairwise different asset keys. *)
Lemma filter_unique_images_incl
      (set_order : list pyval -> list pyval) (xs : list string) :
  exists ys,
    filter_unique_images set_order (map PStr xs) = Ok (map PStr ys) /\
    incl ys xs /\
    NoDup (map asset_key ys).
Proof.
  destruct (filter_unique_images_str set_order xs) as (ys & Hys & [Hnd Hok] & Hch).
  exists ys. split; [exact Hys|]. split.
  - intros y Hy. destruct (chosen_in_group _ _ Hch y Hy) as (e & He & Hin).
    pose proof (members_fold_group_str (fun v => In v (map PStr xs)) xs []
                  (Forall_nil _) (fun x Hx => in_map PStr xs x Hx)) as Hmem.
    rewrite Forall_forall in Hmem. specialize (Hmem e He).
    rewrite Forall_forall in Hmem. apply PStr_in_map. now apply Hmem.
  - rewrite (@chosen_keys _ _ Hch). exact Hnd.
Qed.

(** X1. On a list of strings the deduplicator returns a selection of its
    input: every URL it returns is one of the candidates, no two of them
    share an asset key (so none is repeated), and there are at most as
    many as candidates. *)
Theorem filter_unique_images_selection
        (set_order : list pyval -> list pyval) (xs : list string) :
  exists ys,
    filter_unique_images set_order (map PStr xs) = Ok (map PStr ys) /\
    incl ys xs /\
    NoDup (map asset_key ys) /\
    NoDup ys /\
    List.length ys <= List.length xs.
Proof.
  destruct (filter_unique_images_incl set_order xs) as (ys & Hys & Hincl & Hkeys).
  exists ys.
  assert (Hnodup : NoDup ys) by exact (NoDup_map_inv_string asset_key ys Hkeys).
  repeat split; try assumption.
  apply NoDup_incl_length; assumption.
Qed.

(** X2. Every asset keeps a representative: for each candidate, exactly
    one of the URLs returned has the candidate's asset key. *)
Theorem filter_unique_images_covers
        (set_order : list pyval -> list pyval) (xs : list string) (x : string) :
  In x xs ->
  exists ys y,
    filter_unique_images set_order (map PStr xs) = Ok (map PStr ys) /\
    filter (fun z => asset_key z =? asset_key x) ys = [y].
Proof.
  intros Hx.
  destruct (filter_unique_images_str set_order xs) as (ys & Hys & [Hnd Hok] & Hch).
  assert (Hkey : In (asset_key x) (map asset_key ys)).
  { rewrite (@chosen_keys _ _ Hch). apply keys_fold_group_str. right. now apply in_map. }
  apply in_map_iff in Hkey as (y & Hy & Hin).
  exists ys, y. split; [exact Hys|]. rewrite <- Hy.
  apply filter_unique_key; [|exact Hin].
  rewrite (@chosen_keys _ _ Hch). exact Hnd.
Qed.

Lemma filter_unique_images_covers_witness :
  exists ys y,
    filter_unique_images PySet.members
      (map PStr [photo_url "192" "jpg"; "https://x/a.png"; photo_url "768" "jpg"])
      = Ok (map PStr ys) /\
    filter (fun z => asset_key z =? asset_key (photo_url "192" "jpg")) ys = [y].
Proof.
  apply (filter_unique_images_covers PySet.members
           [photo_url "192" "jpg"; "https://x/a.png"; photo_url "768" "jpg"]
           (photo_url "192" "jpg")).
  left. reflexivity.
Defined.



(** ** Candidates that are not strings *)

Lemma foldM_group_url_raises vs g :
  existsb (fun v => negb (Py.is_str v)) vs = true ->
  raises (foldM group_url vs g).
Proof.
  intros Hex. destruct (foldM group_url vs g) as [g'|e] eqn:E; [|eexists; reflexivity].
  exfalso. apply foldM_group_ok_inv in E as (xs & -> & _).
  apply existsb_exists in Hex as (v & Hv & Hns).
  apply in_map_iff in Hv as (x & <- & _). discriminate Hns.
Qed.

(** X4. One candidate that is not a string turns the deduplicator into a
    plain [list(set(...))]: no grouping and no choice by resolution takes
    place. The result is an arrangement of the distinct candidates when
    all of them are hashable, and a [TypeError] when one is a list or a
    dictionary. *)
Theorem filter_unique_images_non_string
        (set_order : list pyval -> list pyval) (image_urls : list pyval) :
  existsb (fun v => negb (Py.is_str v)) image_urls = true ->
  PySet.iteration_order set_order ->
  (forallb PySet.hashable image_urls = true ->
   filter_unique_images set_order image_urls = Ok (set_order image_urls) /\
   Permutation (set_order image_urls) (PySet.members image_urls)) /\
  (forallb PySet.hashable image_urls = false ->
   filter_unique_images set_order image_urls = Raise (type_error "unhashable type")).
Proof.
  intros Hex Hord.
  assert (Hfb : filter_unique_images set_order image_urls
                = list_of_set set_order image_urls).
  { unfold filter_unique_images, filter_attempt.
    destruct (foldM_group_url_raises image_urls [] Hex) as (e & ->). reflexivity. }
  rewrite Hfb. unfold list_of_set. split; intros ->.
  - split; [reflexivity | apply Hord].
  - reflexivity.
Qed.

Lemma filter_unique_images_non_string_witness :
  (forallb PySet.hashable [PStr (photo_url "192" "jpg"); PInt 7; PStr (photo_url "768" "jpg")]
   = true ->
   filter_unique_images PySet.members
     [PStr (photo_url "192" "jpg"); PInt 7; PStr (photo_url "768" "jpg")]
   = Ok (PySet.members [PStr (photo_url "192" "jpg"); PInt 7; PStr (photo_url "768" "jpg")]) /\
   Permutation
     (PySet.members [PStr (photo_url "192" "jpg"); PInt 7; PStr (photo_url "768" "jpg")])
     (PySet.members [PStr (photo_url "192" "jpg"); PInt 7; PStr (photo_url "768" "jpg")])) /\
  (forallb PySet.hashable [PStr (photo_url "192" "jpg"); PInt 7; PStr (photo_url "768" "jpg")]
   = false ->
   filter_unique_images PySet.members
     [PStr (photo_url "192" "jpg"); PInt 7; PStr (photo_url "768" "jpg")]
   = Raise (type_error "unhashable type")).
Proof.
  apply (filter_unique_images_non_string PySet.members
           [PStr (photo_url "192" "jpg"); PInt 7; PStr (photo_url "768" "jpg")]).
  - reflexivity.
  - exact members_order.
Defined.

(** ** The resolver on any list *)

Lemma mapM_url_resolution_raises urls :
  existsb (fun v => negb (Py.is_str v)) urls = true ->
  raises (mapM url_resolution urls).
Proof.
  induction urls as [|u urls IH]; simpl; [discriminate|].
  destruct u as [| | |s| |]; simpl; try (intros _; eexists; reflexivity).
  intros H. rewrite url_resolution_str. simpl.
  destruct (IH H) as (e & ->). eexists. reflexivity.
Qed.

(** X5. When an entry of the list is not a string the resolver gives up
    on resolutions and returns the first entry of the list. *)
Theorem select_highest_resolution_non_string (url : pyval) (urls : list pyval) :
  existsb (fun v => negb (Py.is_str v)) (url :: urls) = true ->
  select_highest_resolution (url :: urls) = Ok url.
Proof.
  intros Hex. unfold select_highest_resolution.
  destruct (mapM_url_resolution_raises (url :: urls) Hex) as (e & ->). reflexivity.
Qed.

Lemma select_highest_resolution_non_string_witness :
  select_highest_resolution
    [PStr (photo_url "192" "jpg"); PNone; PStr (photo_url "768" "jpg")]
  = Ok (PStr (photo_url "192" "jpg")).
Proof.
  apply (select_highest_resolution_non_string
           (PStr (photo_url "192" "jpg")) [PNone; PStr (photo_url "768" "jpg")]).
  reflexivity.
Defined.



(* ================================================================== *)
(** * Further properties of the URL classifier *)
(* ================================================================== *)

Lemma prefix_app p b : String.prefix p (p ++ b) = true.
Proof.
  induction p as [|c p IH]; simpl; [now destruct b|].
  destruct (ascii_dec c c) as [_|Hne]; [exact IH | now elim Hne].
Qed.

Lemma contains_prefix p s : String.prefix p s = true -> Str.contains p s = true.
Proof. intros H. destruct s; cbn [Str.contains]; rewrite H; reflexivity. Qed.

Lemma contains_here p b : Str.contains p (p ++ b) = true.
Proof. apply contains_prefix, prefix_app. Qed.

Lemma contains_app_r p a s : Str.contains p s = true -> Str.contains p (a ++ s) = true.
Proof.
  intros H. induction a as [|c a IH]; [exact H|].
  change (String c a ++ s) with (String c (a ++ s)). cbn [Str.contains].
  rewrite IH. apply orb_true_r.
Qed.

Lemma search_sound r s m :
  Re.search r s = Some m -> exists pre s', s = pre ++ s' /\ Re.match_here r s' = Some m.
Proof.
  induction s as [|c s IH]; simpl.
  - destruct (Re.match_here r EmptyString) as [m0|] eqn:E; [|discriminate].
    intros [= <-]. exists EmptyString, EmptyString. auto.
  - destruct (Re.match_here r (String c s)) as [m0|] eqn:E.
    + intros [= <-]. exists EmptyString, (String c s). auto.
    + intros H. destruct (IH H) as (pre & s' & -> & Hm).
      exists (String c pre), s'. auto.
Qed.

Lemma contains_extension ext t :
  In ext image_extensions -> Str.contains ext t = true ->
  existsb (fun e => Str.contains e t) image_extensions = true.
Proof. intros Hin Hc. apply existsb_exists. exists ext. auto. Qed.

Ltac found_extension ext :=
  solve [ apply (contains_extension ext);
          [ simpl; tauto
          | repeat first [ apply (contains_here ext) | apply contains_app_r ] ] ].

(** A match of one of the four hosting patterns holds an extension. *)
Lemma image_pattern_holds_extension pattern t m :
  In pattern image_patterns -> Re.search pattern t = Some m ->
  existsb (fun e => Str.contains e t) image_extensions = true.
Proof.
  intros Hpat Hs. apply search_sound in Hs as (pre & s' & -> & Hm).
  apply match_here_sound in Hm as (_ & _ & _ & M).
  destruct m as [text groups rest]. cbn [Re.m_rest Re.m_groups] in M.
  cbv [image_patterns ext7 ext5 Re.seqs Re.lits Re.alts Re.Plus map] in Hpat.
  destruct Hpat as [<-|[<-|[<-|[<-|[]]]]]; invert_matches;
    first [ found_extension ".jpg" | found_extension ".jpeg" | found_extension ".png"
          | found_extension ".gif" | found_extension ".webp" | found_extension ".bmp"
          | found_extension ".tiff" ].
Qed.

(** X7. The classifier is the extension test and nothing more: a string
    is accepted exactly when its lower-case form holds one of the seven
    extensions somewhere; the four hosting patterns never accept a
    string that the extension test rejects. *)
Theorem is_image_url_is_extension_test (s : string) :
  is_image_url (PStr s) =
  existsb (fun ext => Str.contains ext (Str.lower s)) image_extensions.
Proof.
  unfold is_image_url.
  change (Py.truthy (PStr s)) with (negb (s =? EmptyString)).
  change (Py.is_str (PStr s)) with true.
  destruct (String.eqb_spec s EmptyString) as [->|_]; [reflexivity|].
  cbn [negb orb].
  destruct (existsb (fun ext => Str.contains ext (Str.lower s)) image_extensions) eqn:Hext;
    [reflexivity|].
  destruct (existsb (fun pattern => is_some (Re.search pattern (Str.lower s)))
                    image_patterns) eqn:Hpat; [|reflexivity].
  apply existsb_exists in Hpat as (pattern & Hin & Hsome).
  destruct (Re.search pattern (Str.lower s)) as [m|] eqn:Hs; [|discriminate].
  rewrite (image_pattern_holds_extension pattern _ m Hin Hs) in Hext. discriminate.
Qed.

(* ================================================================== *)
(** * Further properties of the walk over a payload *)
(* ================================================================== *)

Lemma lower_char_not_capital c : Str.in_range 65 90 (Str.lower_char c) = false.
Proof.
  destruct c as [[] [] [] [] [] [] [] []]; vm_compute; reflexivity.
Qed.

Lemma lower_has_no_capital s :
  all_chars (fun c => negb (Str.in_range 65 90 c)) (Str.lower s) = true.
Proof.
  induction s as [|c s IH]; simpl; [reflexivity|].
  now rewrite lower_char_not_capital, IH.
Qed.

Lemma lower_is_not_photoGallery key : (Str.lower key =? "photoGallery") = false.
Proof.
  destruct (String.eqb_spec (Str.lower key) "photoGallery") as [E|]; [|reflexivity].
  pose proof (lower_has_no_capital key) as H. rewrite E in H. discriminate H.
Qed.

(** X8. The first entry of the list of photo-collection keys,
    [photoGallery], is never matched, because keys are compared in lower
    case: only [images], [photos] and [pictures] (in any letter case)
    name a collection. A dictionary entry under a key such as
    [photoGallery] is walked like any other entry, so the URL fields of
    its items are not read. *)
Theorem photoGallery_is_no_collection_key
        (key : string) (value : pyval) (d : list (string * pyval)) :
  Str.lower key = "photogallery" ->
  existsb (String.eqb (Str.lower key)) photo_keys = false /\
  search_for_images (PDict ((key, value) :: d))
    = (search_for_images value ++ search_for_images (PDict d))%list /\
  (forall any_key,
      existsb (String.eqb (Str.lower any_key)) photo_keys
      = existsb (String.eqb (Str.lower any_key)) ["images"; "photos"; "pictures"]).
Proof.
  intros Hkey.
  assert (Hany : forall any_key,
             existsb (String.eqb (Str.lower any_key)) photo_keys
             = existsb (String.eqb (Str.lower any_key)) ["images"; "photos"; "pictures"]).
  { intros any_key. cbn [existsb photo_keys].
    destruct (String.eqb_spec (Str.lower any_key) "photoGallery") as [E|_];
      [|reflexivity].
    pose proof (lower_is_not_photoGallery any_key) as H. rewrite E in H. discriminate H. }
  assert (Hno : existsb (String.eqb (Str.lower key)) photo_keys = false).
  { rewrite Hany, Hkey. reflexivity. }
  split; [exact Hno|]. split; [|exact Hany].
  rewrite search_for_images_dict_cons, Hno. reflexivity.
Qed.

Lemma photoGallery_is_no_collection_key_witness :
  existsb (String.eqb (Str.lower "photoGallery")) photo_keys = false /\
  search_for_images (PDict [("photoGallery", PList [PDict [("url", PStr "photo-17")]])])
    = (search_for_images (PList [PDict [("url", PStr "photo-17")]])
       ++ search_for_images (PDict []))%list /\
  (forall any_key,
      existsb (String.eqb (Str.lower any_key)) photo_keys
      = existsb (String.eqb (Str.lower any_key)) ["images"; "photos"; "pictures"]).
Proof.
  apply (photoGallery_is_no_collection_key
           "photoGallery" (PList [PDict [("url", PStr "photo-17")]]) []).
  reflexivity.
Defined.

Lemma collection_urls_no_dict l :
  forallb (fun item => negb (Py.is_dict item)) l = true -> collection_urls l = [].
Proof.
  induction l as [|item l IH]; simpl; [reflexivity|].
  intros H. apply andb_true_iff in H as [Hitem Hl].
  rewrite (IH Hl). destruct item; try reflexivity. discriminate Hitem.
Qed.

(** X9. Under a photo-collection key only items that are dictionaries
    are read: a collection that lists its URLs as plain strings (or
    holds anything else that is not a dictionary) contributes nothing. *)
Theorem search_for_images_skips_plain_items
        (key : string) (items : list pyval) (d : list (string * pyval)) :
  existsb (String.eqb (Str.lower key)) photo_keys = true ->
  forallb (fun item => negb (Py.is_dict item)) items = true ->
  search_for_images (PDict ((key, PList items) :: d)) = search_for_images (PDict d).
Proof.
  intros Hkey Hitems. rewrite search_for_images_dict_cons, Hkey.
  now rewrite (collection_urls_no_dict items Hitems).
Qed.

Lemma search_for_images_skips_plain_items_witness :
  search_for_images
    (PDict [("images", PList [PStr "https://x/a.jpg"; PStr "https://x/b.png"]);
            ("cover", PStr "https://x/c.jpg")])
  = search_for_images (PDict [("cover", PStr "https://x/c.jpg")]).
Proof.
  apply (search_for_images_skips_plain_items
           "images" [PStr "https://x/a.jpg"; PStr "https://x/b.png"]
           [("cover", PStr "https://x/c.jpg")]); reflexivity.
Defined.

(** Induction on Python values. *)
Lemma pyval_induction (P : pyval -> Prop) :
  P PNone -> (forall b, P (PBool b)) -> (forall z, P (PInt z)) ->
  (forall s, P (PStr s)) ->
  (forall l, Forall P l -> P (PList l)) ->
  (forall d, Forall (fun kv => P (snd kv)) d -> P (PDict d)) ->
  forall v, P v.
Proof.
  intros Hnone Hbool Hint Hstr Hlist Hdict. fix IH 1.
  intros [|b|z|s|l|d].
  - exact Hnone.
  - apply Hbool.
  - apply Hint.
  - apply Hstr.
  - apply Hlist. induction l as [|x l IHl]; constructor; [apply IH | exact IHl].
  - apply Hdict. induction d as [|[k x] d IHd]; constructor; [apply IH | exact IHd].
Qed.

Lemma is_image_url_truthy v : is_image_url v = true -> Py.truthy v = true.
Proof.
  unfold is_image_url. destruct (Py.truthy v); [reflexivity | discriminate].
Qed.

Lemma search_for_images_list l :
  search_for_images (PList l) = flat_map search_for_images l.
Proof. reflexivity. Qed.

Lemma Forall_flat_map_intro {A B : Type} (P : B -> Prop) (f : A -> list B) l :
  Forall (fun x => Forall P (f x)) l -> Forall P (flat_map f l).
Proof.
  induction 1 as [|x l Hx _ IH]; simpl; [constructor|].
  apply Forall_app. split; assumption.
Qed.

Lemma Forall_flat_map_elim {A B : Type} (P : B -> Prop) (f : A -> list B) l :
  Forall P (flat_map f l) -> Forall (fun x => Forall P (f x)) l.
Proof.
  induction l as [|x l IH]; simpl; intros H; [constructor|].
  apply Forall_app in H as [Hx Hl]. constructor; [exact Hx | now apply IH].
Qed.

Lemma item_urls_truthy fields : Forall (fun v => Py.truthy v = true) (item_urls fields).
Proof.
  unfold item_urls. apply Forall_flat_map_intro. apply Forall_forall.
  intros url_field _. destruct (Py.lookup url_field fields) as [v|]; [|constructor].
  destruct (Py.truthy v) eqn:Hv; constructor; [exact Hv | constructor].
Qed.

(** Whatever the walk appends is truthy. *)
Lemma search_for_images_truthy data :
  Forall (fun v => Py.truthy v = true) (search_for_images data).
Proof.
  induction data as [|b|z|s|l IH|d IH] using pyval_induction; try constructor.
  - cbn [search_for_images]. destruct (is_image_url (PStr s)) eqn:E; constructor.
    + now apply is_image_url_truthy.
    + constructor.
  - rewrite search_for_images_list. now apply Forall_flat_map_intro.
  - induction IH as [|[key value] d Hvalue _ IHd]; [constructor|].
    rewrite search_for_images_dict_cons. apply Forall_app. split; [|exact IHd].
    cbn [snd] in Hvalue.
    destruct (existsb (String.eqb (Str.lower key)) photo_keys); [|exact Hvalue].
    destruct value as [| | |s|l|]; try constructor.
    + destruct (is_image_url (PStr s)) eqn:E; constructor.
      * now apply is_image_url_truthy.
      * constructor.
    + rewrite search_for_images_list in Hvalue.
      apply Forall_flat_map_elim in Hvalue.
      unfold collection_urls. apply Forall_flat_map_intro.
      eapply Forall_impl; [|exact Hvalue]. cbv beta.
      intros item Hitem. destruct item; try constructor.
      apply Forall_app. split; [apply item_urls_truthy | exact Hitem].
Qed.

Lemma eqb_refl_hashable v : PySet.hashable v = true -> PySet.eqb v v = true.
Proof.
  destruct v; simpl; intros H; try discriminate; try reflexivity.
  - apply Bool.eqb_reflx.
  - apply Z.eqb_refl.
  - apply String.eqb_refl.
Qed.

Lemma members_acc_incl seen l v : In v (PySet.members_acc seen l) -> In v l.
Proof.
  revert seen. induction l as [|x l IH]; intros seen; simpl; [tauto|].
  destruct (existsb (PySet.eqb x) seen).
  - intros H. right. exact (IH _ H).
  - intros [->|H]; [now left | right; exact (IH _ H)].
Qed.

Lemma members_acc_unseen seen l v :
  In v (PySet.members_acc seen l) -> existsb (PySet.eqb v) seen = false.
Proof.
  revert seen. induction l as [|x l IH]; intros seen; simpl; [tauto|].
  destruct (existsb (PySet.eqb x) seen) eqn:E.
  - apply IH.
  - intros [<-|H]; [exact E|].
    apply IH in H. simpl in H. now apply orb_false_iff in H.
Qed.

Lemma members_acc_nodup seen l :
  forallb PySet.hashable l = true -> NoDup (PySet.members_acc seen l).
Proof.
  revert seen. induction l as [|x l IH]; intros seen; simpl; [constructor|].
  intros H. apply andb_true_iff in H as [Hx Hl].
  destruct (existsb (PySet.eqb x) seen); [now apply IH|].
  constructor; [|now apply IH].
  intros Hin. apply members_acc_unseen in Hin. simpl in Hin.
  rewrite (eqb_refl_hashable x Hx) in Hin. discriminate Hin.
Qed.

(** X10. What [extract_image_urls] returns holds no value twice, and
    every value in it was met by the walk over the payload, is truthy
    (never [None], [False], [0] or the empty string) and is hashable;
    a string the walk met is always returned. *)
Theorem extract_image_urls_result
        (set_order : list pyval -> list pyval) (json_data : pyval) (out : list pyval) :
  PySet.iteration_order set_order ->
  extract_image_urls set_order json_data = Ok out ->
  NoDup out /\
  (forall v, In v out ->
             In v (search_for_images json_data) /\
             Py.truthy v = true /\ PySet.hashable v = true) /\
  (forall u, In (PStr u) (search_for_images json_data) -> In (PStr u) out).
Proof.
  intros Hord Hout. split; [|split].
  - unfold extract_image_urls, list_of_set in Hout.
    destruct (forallb PySet.hashable (search_for_images json_data)) eqn:Hh;
      [|discriminate].
    injection Hout as <-.
    eapply Permutation_NoDup; [apply Permutation_sym; apply Hord|].
    now apply members_acc_nodup.
  - intros v Hv. unfold extract_image_urls, list_of_set in Hout.
    destruct (forallb PySet.hashable (search_for_images json_data)) eqn:Hh;
      [|discriminate].
    injection Hout as <-.
    assert (Hin : In v (search_for_images json_data)).
    { apply (members_acc_incl []). eapply Permutation_in; [apply Hord | exact Hv]. }
    split; [exact Hin|]. split.
    + exact (proj1 (Forall_forall _ _) (search_for_images_truthy json_data) v Hin).
    + exact (proj1 (forallb_forall _ _) Hh v Hin).
  - intros u Hu. eapply extract_image_urls_keeps_string; eassumption.
Qed.

Lemma extract_image_urls_result_witness :
  let json_data :=
    PDict [("images",
            PList [PDict [("url", PStr "https://x/a.jpg"); ("href", PStr "https://x/a.jpg")];
                   PDict [("src", PStr "https://x/b.png"); ("alt", PStr "front")]])] in
  let out := [PStr "https://x/a.jpg"; PStr "https://x/b.png"] in
  NoDup out /\
  (forall v, In v out ->
             In v (search_for_images json_data) /\
             Py.truthy v = true /\ PySet.hashable v = true) /\
  (forall u, In (PStr u) (search_for_images json_data) -> In (PStr u) out).
Proof.
  apply (extract_image_urls_result PySet.members).
  - intros l. apply Permutation_refl.
  - vm_compute. reflexivity.
Defined.

(** X11. A URL field of a photo-collection item is appended without a
    type test, so a field that holds a non-empty array or object reaches
    [set(...)]: [extract_image_urls] then raises [TypeError] instead of
    returning a list. *)
Theorem extract_image_urls_unhashable_field
        (set_order : list pyval -> list pyval)
        (d : list (string * pyval)) (key : string) (items : list pyval)
        (fields : list (string * pyval)) (url_field : string) (v : pyval) :
  In (key, PList items) d ->
  existsb (String.eqb (Str.lower key)) photo_keys = true ->
  In (PDict fields) items ->
  In url_field url_fields ->
  Py.lookup url_field fields = Some v ->
  Py.truthy v = true ->
  PySet.hashable v = false ->
  extract_image_urls set_order (PDict d) = Raise (type_error "unhashable type").
Proof.
  intros Hd Hkey Hitem Hfield Hlook Htruthy Hhash.
  pose proof (@search_for_images_any_field d key items fields url_field v
                Hd Hkey Hitem Hfield Hlook Htruthy) as Hin.
  unfold extract_image_urls, list_of_set.
  destruct (forallb PySet.hashable (search_for_images (PDict d))) eqn:E;
    [|reflexivity].
  rewrite (proj1 (forallb_forall _ _) E v Hin) in Hhash. discriminate Hhash.
Qed.

Lemma extract_image_urls_unhashable_field_witness :
  extract_image_urls PySet.members
    (PDict [("photos",
             PList [PDict [("url", PDict [("small", PStr "https://x/a.jpg")])]])])
  = Raise (type_error "unhashable type").
Proof.
  apply (extract_image_urls_unhashable_field PySet.members
           [("photos",
             PList [PDict [("url", PDict [("small", PStr "https://x/a.jpg")])]])]
           "photos"
           [PDict [("url", PDict [("small", PStr "https://x/a.jpg")])]]
           [("url", PDict [("small", PStr "https://x/a.jpg")])]
           "url" (PDict [("small", PStr "https://x/a.jpg")])).
  - left. reflexivity.
  - reflexivity.
  - left. reflexivity.
  - left. reflexivity.
  - reflexivity.
  - reflexivity.
  - reflexivity.
Defined.

(* ================================================================== *)
(** * Where a payload comes from *)
(* ================================================================== *)

Lemma first_result_some {A B : Type} (f : A -> exc (option B)) l y :
  first_result f l = Ok (Some y) -> exists x, In x l /\ f x = Ok (Some y).
Proof.
  induction l as [|x l IH]; simpl; [discriminate|].
  destruct (f x) as [[y'|]|e] eqn:E; simpl; intros H; try discriminate.
  - injection H as ->. exists x. split; [now left | exact E].
  - destruct (IH H) as (x' & Hin & Hx'). exists x'. split; [now right | exact Hx'].
Qed.

Lemma or_else_some {B : Type} (a b : exc (option B)) y :
  or_else a b = Ok (Some y) -> a = Ok (Some y) \/ b = Ok (Some y).
Proof.
  unfold or_else. destruct a as [[y'|]|e]; simpl; intros H;
    [left; exact H | right; exact H | discriminate].
Qed.

Lemma continue_on_some {B : Type} classes (body : exc (option B)) y :
  continue_on classes body = Ok (Some y) -> body = Ok (Some y).
Proof.
  unfold continue_on. destruct body as [r|e]; [tauto|].
  destruct (existsb _ classes); discriminate.
Qed.

Lemma py_in_ok k k' v b : py_in k v = Ok b -> exists b', py_in k' v = Ok b'.
Proof. destruct v; simpl; intros H; try discriminate; eauto. Qed.

Lemma py_in_any_true ks v :
  py_in_any ks v = Ok true -> exists k, In k ks /\ py_in k v = Ok true.
Proof.
  induction ks as [|k ks IH]; simpl; [discriminate|].
  destruct (py_in k v) as [[|]|e] eqn:E; simpl; intros H; try discriminate.
  - exists k. split; [now left | exact E].
  - destruct (IH H) as (k' & Hin & Hk'). exists k'. split; [now right | exact Hk'].
Qed.

Lemma py_in_any_intro ks v k :
  In k ks -> py_in k v = Ok true -> py_in_any ks v = Ok true.
Proof.
  induction ks as [|k0 ks IH]; simpl; [tauto|].
  intros [->|Hin] Hk.
  - now rewrite Hk.
  - destruct (py_in_ok k k0 v _ Hk) as ([|] & ->); simpl; [reflexivity | now apply IH].
Qed.

Lemma py_in_any_incl ks ks' v :
  incl ks ks' -> py_in_any ks v = Ok true -> py_in_any ks' v = Ok true.
Proof.
  intros Hincl H. destruct (py_in_any_true ks v H) as (k & Hin & Hk).
  apply (py_in_any_intro ks' v k); [now apply Hincl | exact Hk].
Qed.

Section Provenance.
Variable html_parser : string -> exc BS4.soup.
Variable json_loads : string -> exc pyval.

(** A payload returned by [extract_json_from_page] is never made
    up: the page was parsed, some text taken from its script blocks was
    accepted by [json.loads], and the payload is the decoded value, or
    that value wrapped as [{images: value}] when it is a list. In the
    sense of Python's [in] it always mentions one of the keys the three
    methods look for. *)
Theorem extract_json_from_page_provenance (html_content : string) (data : pyval) :
  extract_json_from_page html_parser json_loads html_content = Ok (Some data) ->
  exists soup fragment value,
    html_parser html_content = Ok soup /\
    In fragment (json_fragments soup) /\
    json_loads fragment = Ok value /\
    (data = value \/
     data = PDict [("images", value)] /\ exists items, value = PList items) /\
    py_in_any payload_keys data = Ok true.
Proof.
  unfold extract_json_from_page, extract_json_attempt.
  destruct (html_parser html_content) as [soup|e] eqn:Hp; cbn [bind]; [|discriminate].
  intros H.
  match type of H with
  | match ?r with _ => _ end = _ =>
      assert (Hr : r = Ok (Some data)) by (destruct r; [exact H | discriminate H])
  end.
  clear H. exists soup.
  apply or_else_some in Hr as [H1|Hr]; [|apply or_else_some in Hr as [H2|H3]].
  - (* method 1 *)
    apply first_result_some in H1 as (script & Hin & H1).
    unfold method1_script in H1. apply continue_on_some in H1.
    unfold loads in H1.
    destruct (BS4.string_of script) as [text|] eqn:Htext; [|discriminate].
    destruct (json_loads text) as [v|e] eqn:Hv; cbn [bind] in H1; [|discriminate].
    destruct (py_in_any ["photoGallery"; "images"] v) as [[|]|e] eqn:Hf;
      cbn [bind] in H1; try discriminate.
    injection H1 as <-. exists text, v. repeat split.
    + unfold json_fragments. apply in_or_app. left.
      eapply in_script_texts; eassumption.
    + exact Hv.
    + now left.
    + eapply py_in_any_incl; [|exact Hf].
      intros k [<-|[<-|[]]]; unfold payload_keys; simpl; tauto.
  - (* method 2 *)
    apply first_result_some in H2 as (script & Hin & H2).
    unfold method2_script in H2.
    destruct (str_truthy (BS4.string_of script)); [|discriminate].
    destruct (BS4.string_of script) as [text|] eqn:Htext; [|discriminate].
    apply first_result_some in H2 as (pattern & Hpat & H2).
    apply first_result_some in H2 as (m & Hm & H2).
    assert (Hfrag : In m (json_fragments soup)).
    { unfold json_fragments. apply in_or_app. right. apply in_or_app. left.
      apply in_flat_map. exists text. split.
      - eapply in_script_texts; eassumption.
      - apply in_flat_map. exists pattern. split; assumption. }
    unfold method2_match in H2. apply continue_on_some in H2.
    destruct (Str.startswith "{" m).
    + destruct (json_loads m) as [v|e] eqn:Hv; cbn [bind] in H2; [|discriminate].
      destruct (py_in_any ["photoGallery"; "images"; "photos"] v) as [[|]|e] eqn:Hf;
        cbn [bind] in H2; try discriminate.
      injection H2 as <-. exists m, v. repeat split; try assumption.
      * now left.
      * eapply py_in_any_incl; [|exact Hf].
        intros k [<-|[<-|[<-|[]]]]; unfold payload_keys; simpl; tauto.
    + destruct (Str.startswith "[" m); [|discriminate].
      destruct (json_loads m) as [v|e] eqn:Hv; cbn [bind] in H2; [|discriminate].
      destruct v as [| | | |[|item items]|]; try discriminate.
      cbv beta iota in H2.
      match type of H2 with
      | context [existsb looks_like_image_item ?l] =>
          destruct (existsb looks_like_image_item l); [|discriminate]
      end.
      injection H2 as <-. exists m, (PList (item :: items)).
      repeat split; try assumption.
      right. split; [reflexivity | eauto].
  - (* method 3 *)
    apply first_result_some in H3 as (script & Hin & H3).
    unfold method3_script in H3.
    destruct (BS4.string_of script) as [text|] eqn:Htext; [|discriminate].
    destruct (negb (text =? EmptyString)); cbn [andb] in H3; [|discriminate].
    destruct (Str.contains "photo" (Str.lower text)
              || Str.contains "image" (Str.lower text)) eqn:Hmention; [|discriminate].
    apply first_result_some in H3 as (m & Hm & H3).
    unfold method3_match in H3. apply continue_on_some in H3.
    destruct (json_loads m) as [v|e] eqn:Hv; cbn [bind] in H3; [|discriminate].
    destruct (py_in_any ["url"; "href"; "src"; "photo"; "image"] v) as [[|]|e] eqn:Hf;
      cbn [bind] in H3; try discriminate.
    injection H3 as <-. exists m, v. repeat split.
    + unfold json_fragments. apply in_or_app. right. apply in_or_app. right.
      apply in_flat_map. exists text. split.
      * eapply in_script_texts; eassumption.
      * rewrite Hmention. exact Hm.
    + exact Hv.
    + now left.
    + eapply py_in_any_incl; [|exact Hf].
      intros k [<-|[<-|[<-|[<-|[<-|[]]]]]]; unfold payload_keys; simpl; tauto.
Qed.

End Provenance.

Lemma extract_json_from_page_provenance_witness :
  exists soup fragment value,
    Ok photos_page = Ok soup /\
    In fragment (json_fragments soup) /\
    loads_photos fragment = Ok value /\
    (PDict [("images", photos_array)] = value \/
     PDict [("images", photos_array)] = PDict [("images", value)]
     /\ exists items, value = PList items) /\
    py_in_any payload_keys (PDict [("images", photos_array)]) = Ok true.
Proof.
  apply (extract_json_from_page_provenance
           (fun _ => Ok photos_page) loads_photos photos_html
           (PDict [("images", photos_array)])).
  vm_compute. reflexivity.
Defined.

(* ================================================================== *)
(** * The markup fallback *)
(* ================================================================== *)

Lemma lower_app a b : Str.lower (a ++ b) = Str.lower a ++ Str.lower b.
Proof. induction a as [|c a IH]; simpl; [reflexivity | now rewrite IH]. Qed.

Lemma is_image_url_holds_extension s :
  is_image_url (PStr s) = true ->
  existsb (fun ext => Str.contains ext (Str.lower s)) image_extensions = true.
Proof.
  unfold is_image_url.
  change (Py.truthy (PStr s)) with (negb (s =? EmptyString)).
  change (Py.is_str (PStr s)) with true.
  destruct (String.eqb_spec s EmptyString) as [->|_]; [discriminate|].
  cbn [negb orb].
  destruct (existsb (fun ext => Str.contains ext (Str.lower s)) image_extensions) eqn:Hext;
    [reflexivity|].
  destruct (existsb (fun pattern => is_some (Re.search pattern (Str.lower s)))
                    image_patterns) eqn:Hpat; [|discriminate].
  intros _.
  apply existsb_exists in Hpat as (pattern & Hin & Hsome).
  destruct (Re.search pattern (Str.lower s)) as [m|] eqn:Hs; [|discriminate].
  rewrite (image_pattern_holds_extension pattern _ m Hin Hs) in Hext. discriminate.
Qed.

(** Text put in front of an image URL leaves it an image URL. *)
Lemma is_image_url_prepend a s :
  is_image_url (PStr s) = true -> is_image_url (PStr (a ++ s)) = true.
Proof.
  intros H. apply is_image_url_holds_extension in H.
  apply existsb_exists in H as (ext & Hin & Hc).
  apply (@is_image_url_extension (a ++ s) ext Hin).
  rewrite lower_app. now apply contains_app_r.
Qed.

Lemma absolute_image src :
  is_image_url (PStr src) = true -> absolute_image_url (absolute src).
Proof.
  intros H. unfold absolute_image_url, absolute.
  destruct (Str.startswith "//" src) eqn:E2.
  - split; [now apply is_image_url_prepend | reflexivity].
  - destruct (Str.startswith "/" src) eqn:E1.
    + split; [now apply is_image_url_prepend | reflexivity].
    + split; assumption.
Qed.

Lemma img_source_absolute img attrs :
  Forall absolute_image_url (img_source img attrs).
Proof.
  induction attrs as [|attr attrs IH]; simpl; [constructor|].
  destruct (str_truthy (BS4.get attr img)); [|exact IH].
  destruct (BS4.get attr img) as [src|]; [|exact IH].
  destruct (is_image_url (PStr src)) eqn:E; [|exact IH].
  constructor; [now apply absolute_image | constructor].
Qed.

Lemma image_urls_of_absolute urls : Forall absolute_image_url (image_urls_of urls).
Proof.
  unfold image_urls_of. apply Forall_flat_map_intro. apply Forall_forall.
  intros url _. destruct (is_image_url (PStr url)) eqn:E; [|constructor].
  constructor; [now apply absolute_image | constructor].
Qed.

Lemma tree_candidates_absolute soup : Forall absolute_image_url (tree_candidates soup).
Proof.
  unfold tree_candidates.
  apply Forall_app; split; [|apply Forall_app; split; [|apply Forall_app; split]];
    apply Forall_flat_map_intro; apply Forall_forall; intros x _.
  - apply img_source_absolute.
  - unfold picture_urls. apply Forall_flat_map_intro. apply Forall_forall.
    intros source _. unfold source_urls.
    destruct (BS4.get "srcset" source) as [srcset|]; [|constructor].
    destruct (negb (srcset =? EmptyString)); [|constructor].
    apply image_urls_of_absolute.
  - unfold background_urls.
    destruct (Re.search background_pattern _); [|constructor].
    apply image_urls_of_absolute.
  - unfold data_src_urls.
    destruct (str_truthy (BS4.get "data-src" x)); [|constructor].
    destruct (BS4.get "data-src" x); [|constructor].
    apply image_urls_of_absolute.
Qed.

Lemma cdn_url_absolute id size ext :
  is_photo_ext ext -> absolute_image_url (cdn_url id size ext).
Proof.
  intros Hext. split; [|reflexivity].
  unfold cdn_url.
  change ("https://photos.zillowstatic.com/fp/" ++ id ++ "-cc_ft_" ++ size ++ "." ++ ext)
    with ("https://photos.zillowstatic.com/fp/" ++ (id ++ ("-cc_ft_" ++ (size ++ "." ++ ext)))).
  do 4 apply is_image_url_prepend.
  destruct Hext as [ -> | [ -> | -> ] ]; reflexivity.
Qed.

Lemma raw_candidates_absolute html_content :
  Forall absolute_image_url (raw_candidates html_content).
Proof.
  apply Forall_forall. intros u Hu.
  apply raw_candidates_shape in Hu as (id & ext & _ & Hext & ->).
  now apply cdn_url_absolute.
Qed.

(** X12. The markup fallback never raises and returns a list of strings:
    the empty list when the parser fails, otherwise a choice among the
    candidates it collected from the page. Every URL it returns is
    accepted by the image classifier and is not relative (it does not
    start with a slash), and no two of them share an asset key. *)
Theorem extract_images_from_html_result
        (html_parser : string -> exc BS4.soup)
        (set_order : list pyval -> list pyval) (html_content : string) :
  exists ys,
    extract_images_from_html html_parser set_order html_content = Ok (map PStr ys) /\
    NoDup (map asset_key ys) /\
    Forall absolute_image_url ys /\
    (forall soup, html_parser html_content = Ok soup ->
                  incl ys (html_candidates soup html_content)) /\
    (forall e, html_parser html_content = Raise e -> ys = []).
Proof.
  unfold extract_images_from_html, extract_images_attempt.
  destruct (html_parser html_content) as [soup|e] eqn:Hp; cbn [bind].
  - destruct (filter_unique_images_incl set_order (html_candidates soup html_content))
      as (ys & Hys & Hincl & Hkeys).
    exists ys. rewrite Hys. split; [reflexivity|]. split; [exact Hkeys|].
    split; [|split].
    + apply Forall_forall. intros y Hy. apply Hincl in Hy.
      unfold html_candidates in Hy. apply in_app_or in Hy as [Hy|Hy].
      * exact (proj1 (Forall_forall _ _) (tree_candidates_absolute soup) y Hy).
      * exact (proj1 (Forall_forall _ _) (raw_candidates_absolute html_content) y Hy).
    + intros soup' [= <-]. exact Hincl.
    + intros e' [=].
  - exists []. split; [reflexivity|]. split; [constructor|].
    split; [constructor|]. split; [intros soup' [=] | reflexivity].
Qed.

(* ================================================================== *)
(** * Further properties of the orchestrator *)
(* ================================================================== *)

Lemma all_chars_app p a b : all_chars p (a ++ b) = all_chars p a && all_chars p b.
Proof.
  induction a as [|c a IH]; simpl; [reflexivity|]. now rewrite IH, andb_assoc.
Qed.

Lemma basename_acc_no_slash s : forall acc,
  no_slash acc = true -> no_slash (Path.basename_acc acc s) = true.
Proof.
  induction s as [|c s IH]; intros acc Hacc; simpl; [exact Hacc|].
  destruct (Ascii.eqb c "/") eqn:E.
  - apply IH. reflexivity.
  - apply IH. unfold no_slash in *. rewrite all_chars_app, Hacc. simpl. now rewrite E.
Qed.

Lemma string_of_uint_no_slash d :
  no_slash (DecimalString.NilZero.string_of_uint d) = true.
Proof.
  assert (H : no_slash (DecimalString.NilEmpty.string_of_uint d) = true).
  { induction d; simpl; auto. }
  destruct d; try exact H; reflexivity.
Qed.

Lemma zeros_no_slash k : no_slash (Str.zeros k) = true.
Proof. induction k as [|k IH]; simpl; auto. Qed.

Lemma numbered_name_ok i : object_name ("image_" ++ Str.of_nat_pad 3 i ++ ".jpg").
Proof.
  split; [discriminate|]. split.
  - change ("image_" ++ Str.of_nat_pad 3 i ++ ".jpg")
      with (String "i" (String "m" (String "a" (String "g" (String "e" (String "_"
              (Str.of_nat_pad 3 i ++ ".jpg"))))))).
    cbn [Str.contains]. repeat (rewrite orb_true_iff; right).
    apply contains_app_r. reflexivity.
  - unfold no_slash. rewrite !all_chars_app. unfold Str.of_nat_pad.
    rewrite all_chars_app.
    fold (no_slash (Str.zeros (3 - String.length (Str.of_nat i)))).
    fold (no_slash (Str.of_nat i)).
    rewrite zeros_no_slash. unfold Str.of_nat. rewrite string_of_uint_no_slash.
    reflexivity.
Qed.

(** The name under which an image is stored is a plain file name. *)
Lemma filename_of_object_name path i : object_name (filename_of path i).
Proof.
  unfold filename_of.
  destruct (Path.basename path =? EmptyString) eqn:Eempty; cbn [orb];
    [apply numbered_name_ok|].
  destruct (Str.contains "." (Path.basename path)) eqn:Edot; cbn [negb];
    [|apply numbered_name_ok].
  split; [|split].
  - intros H. rewrite H in Eempty. discriminate Eempty.
  - exact Edot.
  - apply basename_acc_no_slash. reflexivity.
Qed.

Section OrchestratorMore.
Variable World : Type.
Variable http_get : pyval -> World -> exc string * World.
Variable s3_connect : World -> exc unit * World.
Variable put_object : string -> string -> string -> string -> World -> exc unit * World.
Variable getenv_bucket : World -> string.
Variable url_path : pyval -> exc string.
Variable download_all_images : list pyval -> string -> io World pyval.

(** One turn of the loop returns; an S3 URL it returns points into the
    folder of the listing. *)
Lemma process_url_stored listing_id bucket total i url st :
  exists r st' evs,
    process_url http_get put_object url_path listing_id bucket total i url st
      = (Ok r, st') /\
    printed st' = (printed st ++ EvProcessing i total url :: evs)%list /\
    (forall s3_url, r = Some s3_url -> stored_under bucket listing_id s3_url).
Proof.
  unfold process_url, try_except, io_bind, print, call, lift,
    upload_to_s3, try_except, io_bind, print, call, ret. cbn [world printed].
  destruct (http_get url (world st)) as [[content|e] w]; cbn [world printed].
  - destruct (url_path url) as [path|e]; cbn [world printed].
    + destruct (put_object _ _ _ _ w) as [[[]|e] w']; cbn [world printed].
      * do 3 eexists. split; [reflexivity|]. split.
        -- rewrite <- app_assoc. reflexivity.
        -- intros s3_url [= <-]. exists (filename_of path i).
           split; [reflexivity | apply filename_of_object_name].
      * destruct (existsb _ _); cbn [world printed].
        -- do 3 eexists. split; [reflexivity|]. split.
           ++ rewrite <- !app_assoc. reflexivity.
           ++ intros s3_url [=].
        -- do 3 eexists. split; [reflexivity|]. split.
           ++ rewrite <- app_assoc. reflexivity.
           ++ intros s3_url [=].
    + do 3 eexists. split; [reflexivity|]. split.
      * rewrite <- app_assoc. reflexivity.
      * intros s3_url [=].
  - do 3 eexists. split; [reflexivity|]. split.
    + rewrite <- app_assoc. reflexivity.
    + intros s3_url [=].
Qed.

Lemma process_urls_stored listing_id bucket total urls : forall i count s3_urls st,
  exists count' s3_urls' st',
    process_urls http_get put_object url_path listing_id bucket total i urls
                 count s3_urls st
      = (Ok (count', s3_urls'), st') /\
    count' <= count + List.length urls /\
    (List.length s3_urls = count -> List.length s3_urls' = count') /\
    (Forall (stored_under bucket listing_id) s3_urls ->
     Forall (stored_under bucket listing_id) s3_urls') /\
    (forall e, In e (printed st) -> In e (printed st')) /\
    (forall j url, nth_error urls j = Some url ->
                   In (EvProcessing (i + j) total url) (printed st')).
Proof.
  induction urls as [|url urls IH]; intros i count s3_urls st.
  - exists count, s3_urls, st. split; [reflexivity|]. split; [simpl; lia|].
    split; [auto|]. split; [auto|]. split; [auto|].
    intros [|j] u H; discriminate H.
  - destruct (process_url_stored listing_id bucket total i url st)
      as (r & st1 & evs & Hrun & Hprinted & Hstored).
    cbn [process_urls]. unfold io_bind. rewrite Hrun.
    destruct r as [s3_url|].
    + destruct (IH (S i) (count + 1) (s3_urls ++ [s3_url])%list st1)
        as (c' & u' & st' & Hrest & Hle & Hlen & Hall_stored & Hmono & Hall).
      exists c', u', st'. split; [exact Hrest|].
      split; [simpl; lia|]. split; [|split; [|split]].
      * intros Hc. apply Hlen. rewrite length_app. simpl. lia.
      * intros Hs. apply Hall_stored. apply Forall_app. split; [exact Hs|].
        constructor; [now apply Hstored | constructor].
      * intros e He. apply Hmono. rewrite Hprinted. apply in_or_app. now left.
      * intros [|j] u Hj; simpl in Hj.
        -- injection Hj as <-. apply Hmono. rewrite Hprinted, Nat.add_0_r.
           apply in_or_app. right. now left.
        -- replace (i + S j) with (S i + j) by lia. now apply Hall.
    + destruct (IH (S i) count s3_urls st1)
        as (c' & u' & st' & Hrest & Hle & Hlen & Hall_stored & Hmono & Hall).
      exists c', u', st'. split; [exact Hrest|].
      split; [simpl; lia|]. split; [exact Hlen|]. split; [exact Hall_stored|]. split.
      * intros e He. apply Hmono. rewrite Hprinted. apply in_or_app. now left.
      * intros [|j] u Hj; simpl in Hj.
        -- injection Hj as <-. apply Hmono. rewrite Hprinted, Nat.add_0_r.
           apply in_or_app. right. now left.
        -- replace (i + S j) with (S i + j) by lia. now apply Hall.
Qed.

(** X13. With a client at hand the orchestrator returns a summary for any
    batch, whatever the fetches and uploads do: the total is the number
    of URLs, the count of uploads is the number of S3 URLs listed and at
    most the total, every S3 URL listed points to a plain file name in
    the folder of the listing, a bucket name that is given and not empty
    is the one used, and every URL of the batch has been worked on. *)
Theorem download_and_upload_summary
        (image_urls : list pyval) (listing_id : string) (bucket_name : option string)
        (st : state World) :
  image_urls <> [] ->
  (forall w, exists w', s3_connect w = (Ok tt, w')) ->
  exists uploaded s3_urls bucket st',
    download_and_upload_to_s3 http_get s3_connect put_object getenv_bucket url_path
                              download_all_images image_urls listing_id bucket_name st
      = (Ok (PDict [("success", py_nat uploaded);
                    ("total", py_nat (List.length image_urls));
                    ("s3_urls", PList (map PStr s3_urls));
                    ("bucket", PStr bucket); ("listing_id", PStr listing_id)]), st') /\
    List.length s3_urls = uploaded /\
    uploaded <= List.length image_urls /\
    Forall (stored_under bucket listing_id) s3_urls /\
    (forall b, bucket_name = Some b -> b <> EmptyString -> bucket = b) /\
    (forall j url, nth_error image_urls j = Some url ->
                   In (EvProcessing (1 + j) (List.length image_urls) url) (printed st')) /\
    last (printed st') EvFallbackLocal = EvSummary uploaded (List.length image_urls).
Proof.
  intros Hne Hconn. unfold download_and_upload_to_s3.
  destruct image_urls as [|u0 us]; [congruence|]. set (urls := u0 :: us).
  unfold get_s3_client, io_bind, call.
  destruct (Hconn (world st)) as (w0 & ->). cbn [negb].
  set (st0 := {| world := w0; printed := printed st |}).
  set (pick := if str_truthy bucket_name
               then ret (match bucket_name with Some b => b | None => EmptyString end)
               else fun st1 : state World => (Ok (getenv_bucket (world st1)), st1)).
  assert (Hpick : exists bucket, pick st0 = (Ok bucket, st0) /\
                    (forall b, bucket_name = Some b -> b <> EmptyString -> bucket = b)).
  { unfold pick. destruct bucket_name as [b0|]; simpl.
    - destruct (String.eqb_spec b0 EmptyString) as [->|Hb]; simpl.
      + eexists. split; [reflexivity|]. intros b [= <-] Hb. congruence.
      + eexists. split; [reflexivity|]. intros b [= <-] _. reflexivity.
    - eexists. split; [reflexivity|]. intros b [=]. }
  destruct Hpick as (bucket & -> & Hbucket).
  unfold print at 1. cbn [world printed].
  destruct (process_urls_stored listing_id bucket (List.length urls) urls 1 0 []
              {| world := w0; printed := (printed st ++ [EvStart (List.length urls)])%list |})
    as (count & s3_urls & st1 & Hrun & Hle & Hlen & Hstored & _ & Hall).
  cbn [world printed st0]. rewrite Hrun.
  unfold print, ret. cbn [world printed].
  exists count, s3_urls, bucket. eexists. split; [reflexivity|].
  split; [now apply Hlen|]. split; [exact Hle|].
  split; [apply Hstored; constructor|]. split; [exact Hbucket|]. split.
  - intros j url Hj. cbn [printed]. apply in_or_app. left. now apply Hall.
  - cbn [printed]. apply last_last.
Qed.

(** X14. When the connection to S3 fails, the orchestrator fetches and
    uploads nothing. Missing credentials and a client error are printed
    and the batch is handed to the local download, with the folder
    [zillow_images_<listing id>] and without the bucket name; an
    exception of any other class leaves the orchestrator as it is, with
    nothing printed. *)
Theorem download_and_upload_without_client
        (image_urls : list pyval) (listing_id : string) (bucket_name : option string)
        (st : state World) (e : exn) (w' : World) :
  image_urls <> [] ->
  s3_connect (world st) = (Raise e, w') ->
  download_and_upload_to_s3 http_get s3_connect put_object getenv_bucket url_path
                            download_all_images image_urls listing_id bucket_name st
  = match exn_cls e with
    | NoCredentialsError =>
        download_all_images image_urls ("zillow_images_" ++ listing_id)
          (MkState w' (printed st ++ [EvNoCredentials; EvFallbackLocal]))
    | ClientError =>
        download_all_images image_urls ("zillow_images_" ++ listing_id)
          (MkState w' (printed st ++ [EvS3Access (exn_msg e); EvFallbackLocal]))
    | _ => (Raise e, MkState w' (printed st))
    end.
Proof.
  intros Hne Hconn. unfold download_and_upload_to_s3.
  destruct image_urls as [|u0 us]; [congruence|].
  unfold get_s3_client, io_bind, call. rewrite Hconn.
  destruct (exn_cls e); try reflexivity;
    unfold print, ret; cbn [world printed negb];
    rewrite <- app_assoc; reflexivity.
Qed.

(** X15. An upload that raises does not end the batch and is not counted.
    A client error is caught by [upload_to_s3]: the error and the failed
    file name are printed. An exception of any other class is caught by
    the loop: the error is printed with the URL. In both cases the turn
    returns no S3 URL. *)
Theorem process_url_upload_error
        (listing_id bucket : string) (total i : nat) (url : pyval)
        (content path : string) (e : exn) (st : state World) (w1 w2 : World) :
  http_get url (world st) = (Ok content, w1) ->
  url_path url = Ok path ->
  (forall content_type,
      put_object bucket ("listings/" ++ listing_id ++ "/" ++ filename_of path i)
                 content content_type w1 = (Raise e, w2)) ->
  process_url http_get put_object url_path listing_id bucket total i url st
  = (Ok None,
     MkState w2
       (printed st ++
        EvProcessing i total url ::
        (if exn_class_eqb (exn_cls e) ClientError
         then [EvUploadError (exn_msg e); EvUploadFailed (filename_of path i)]
         else [EvError url (exn_msg e)]))).
Proof.
  intros Hget Hpath Hput.
  unfold process_url, try_except, io_bind, print, call, lift,
    upload_to_s3, try_except, io_bind, print, call, ret. cbn [world printed].
  rewrite Hget. cbn [world printed]. rewrite Hpath. cbn [world printed].
  rewrite Hput. cbn [world printed existsb].
  rewrite orb_false_r.
  destruct (exn_class_eqb (exn_cls e) ClientError); cbn [world printed];
    rewrite <- ?app_assoc; reflexivity.
Qed.

End OrchestratorMore.

Lemma download_and_upload_summary_witness :
  exists uploaded s3_urls bucket st',
    demo_run [PStr "https://x/a.jpg"; PStr "https://x/b.jpg"]
      = (Ok (PDict [("success", py_nat uploaded);
                    ("total", py_nat 2);
                    ("s3_urls", PList (map PStr s3_urls));
                    ("bucket", PStr bucket); ("listing_id", PStr "zpid_1")]), st') /\
    List.length s3_urls = uploaded /\
    uploaded <= 2 /\
    Forall (stored_under bucket "zpid_1") s3_urls /\
    (forall b, @None string = Some b -> b <> EmptyString -> bucket = b) /\
    (forall j url,
        nth_error [PStr "https://x/a.jpg"; PStr "https://x/b.jpg"] j = Some url ->
        In (EvProcessing (1 + j) 2 url) (printed st')) /\
    last (printed st') EvFallbackLocal = EvSummary uploaded 2.
Proof.
  apply (download_and_upload_summary
           unit demo_http_get (fun w => (Ok tt, w)) (fun _ _ _ _ w => (Ok tt, w))
           (fun _ => "zillow-images") demo_url_path
           (fun _ _ st => (Ok (PInt 0), st))
           [PStr "https://x/a.jpg"; PStr "https://x/b.jpg"] "zpid_1" None
           (MkState tt [])).
  - discriminate.
  - intros w. exists w. reflexivity.
Defined.

Lemma download_and_upload_without_client_witness :
  download_and_upload_to_s3
    demo_http_get
    (fun w => (Raise (MkExn NoCredentialsError "Unable to locate credentials"), w))
    (fun _ _ _ _ w => (Ok tt, w)) (fun _ => "zillow-images") demo_url_path
    (fun _ _ st => (Ok (PInt 0), st))
    [PStr "https://x/a.jpg"] "zpid_1" (Some "photos") (MkState tt [])
  = (Ok (PInt 0), MkState tt [EvNoCredentials; EvFallbackLocal]).
Proof.
  apply (download_and_upload_without_client
           unit demo_http_get
           (fun w => (Raise (MkExn NoCredentialsError "Unable to locate credentials"), w))
           (fun _ _ _ _ w => (Ok tt, w)) (fun _ => "zillow-images") demo_url_path
           (fun _ _ st => (Ok (PInt 0), st))
           [PStr "https://x/a.jpg"] "zpid_1" (Some "photos") (MkState tt [])
           (MkExn NoCredentialsError "Unable to locate credentials") tt).
  - discriminate.
  - reflexivity.
Defined.

Lemma process_url_upload_error_witness :
  process_url demo_http_get
    (fun _ _ _ _ w => (Raise (MkExn ClientError "AccessDenied"), w)) demo_url_path
    "zpid_1" "zillow-images" 3 1 (PStr "https://x/a.jpg") (MkState tt [])
  = (Ok None,
     MkState tt [EvProcessing 1 3 (PStr "https://x/a.jpg");
                 EvUploadError "AccessDenied"; EvUploadFailed "a.jpg"]).
Proof.
  apply (process_url_upload_error
           unit demo_http_get
           (fun _ _ _ _ w => (Raise (MkExn ClientError "AccessDenied"), w)) demo_url_path
           "zpid_1" "zillow-images" 3 1 (PStr "https://x/a.jpg")
           "image bytes" "/a.jpg" (MkExn ClientError "AccessDenied")
           (MkState tt []) tt tt).
  - reflexivity.
  - reflexivity.
  - intros content_type. reflexivity.
Defined.

(* ================================================================== *)
(** * The identifier of a listing *)
(* ================================================================== *)

Lemma string_of_uint_digits d :
  all_chars Str.is_digit (DecimalString.NilZero.string_of_uint d) = true.
Proof.
  assert (H : all_chars Str.is_digit (DecimalString.NilEmpty.string_of_uint d) = true).
  { induction d; simpl; auto. }
  destruct d; try exact H; reflexivity.
Qed.

Lemma zeros_digits k : all_chars Str.is_digit (Str.zeros k) = true.
Proof. induction k as [|k IH]; simpl; auto. Qed.

Lemma zeros_length k : String.length (Str.zeros k) = k.
Proof. induction k as [|k IH]; simpl; auto. Qed.

Lemma of_nat_pad_digits w n :
  all_chars Str.is_digit (Str.of_nat_pad w n) = true /\
  w <= String.length (Str.of_nat_pad w n).
Proof.
  unfold Str.of_nat_pad. split.
  - rewrite all_chars_app, zeros_digits. apply string_of_uint_digits.
  - rewrite length_append, zeros_length. lia.
Qed.

Lemma digits_no_slash s : all_chars Str.is_digit s = true -> no_slash s = true.
Proof.
  unfold no_slash. induction s as [|c s IH]; simpl; [reflexivity|].
  intros H. apply andb_true_iff in H as [Hc Hs]. rewrite (IH Hs), andb_true_r.
  destruct (Ascii.eqb_spec c "/") as [->|_]; [discriminate Hc | reflexivity].
Qed.

(** The group of a match of the pattern is the run of digits between
    the slash and [_zpid/]. *)
Lemma zpid_match_group s m :
  Re.match_here zpid_pattern s = Some m ->
  nonempty_digits (Re.group 1 m) /\
  s = "/" ++ Re.group 1 m ++ "_zpid/" ++ Re.m_rest m.
Proof.
  intros H. apply match_here_sound in H as (pre & _ & _ & M).
  unfold Re.group. destruct m as [text groups rest]. simpl in *.
  cbv [zpid_pattern Re.seqs Re.Plus] in M.
  invert_matches. cbn [app nth Nat.sub].
  match goal with
  | |- context [Str.take _ (String ?c (?p ++ ?r))] =>
      change (String c (p ++ r)) with (String c p ++ r)
  end.
  rewrite !take_append. split.
  - split; [discriminate|]. simpl. rewrite andb_true_iff. split; assumption.
  - reflexivity.
Qed.

(** X16. The identifier of a listing is [zpid_] followed by the digits
    that stand between a slash and [_zpid/] in the URL, or, when the URL
    holds no such part, [listing_] followed by at least six digits. It
    never holds a slash, so the key [listings/<id>/<file>] has the
    listing as its second part. *)
Theorem generate_listing_id_shape (hash : string -> Z) (url : string) :
  no_slash (generate_listing_id hash url) = true /\
  ((exists digits,
       generate_listing_id hash url = "zpid_" ++ digits /\
       nonempty_digits digits /\
       Str.contains ("/" ++ digits ++ "_zpid/") url = true)
   \/
   (exists digits,
       generate_listing_id hash url = "listing_" ++ digits /\
       all_chars Str.is_digit digits = true /\
       6 <= String.length digits /\
       Re.search zpid_pattern url = None)).
Proof.
  unfold generate_listing_id.
  destruct (Re.search zpid_pattern url) as [m|] eqn:Hs.
  - apply search_sound in Hs as (pre & s' & -> & Hm).
    apply zpid_match_group in Hm as [Hd Hs'].
    split.
    + unfold no_slash. rewrite all_chars_app. simpl.
      apply digits_no_slash. apply Hd.
    + left. exists (Re.group 1 m). split; [reflexivity|]. split; [exact Hd|].
      apply contains_app_r. rewrite Hs'.
      change ("/" ++ Re.group 1 m ++ "_zpid/" ++ Re.m_rest m)
        with (String "/" (Re.group 1 m ++ "_zpid/" ++ Re.m_rest m)).
      replace (String "/" (Re.group 1 m ++ "_zpid/" ++ Re.m_rest m))
        with (("/" ++ Re.group 1 m ++ "_zpid/") ++ Re.m_rest m)
        by (simpl; rewrite append_assoc; reflexivity).
      apply contains_here.
  - destruct (of_nat_pad_digits 6 (Z.to_nat (hash url mod 1000000))) as [Hd Hlen].
    split.
    + unfold no_slash. rewrite all_chars_app. simpl.
      now apply digits_no_slash.
    + right. eexists. split; [reflexivity|]. auto.
Qed.

(* ================================================================== *)
(** * The local download *)
(* ================================================================== *)







Section LocalFacts.
Variable World : Type.
Variable path_exists : string -> World -> bool.



End LocalFacts.




Section DiskFacts.
Variable Net : Type.
Variable net_get : pyval -> Net -> exc string * Net.
Variable writable : string -> bool.
Variable url_path : pyval -> exc string.





Lemma free_name_more_fuel (World : Type) (path_exists : string -> World -> bool)
      folder_name base_name ext w : forall fuel filename counter name,
  free_name path_exists fuel folder_name base_name ext filename counter w = Some name ->
  free_name path_exists (S fuel) folder_name base_name ext filename counter w = Some name.
Proof.
  induction fuel as [|fuel IH]; intros filename counter name; [discriminate|].
  intros H. cbn [free_name] in H |- *.
  destruct (path_exists (OsPath.join folder_name filename) w); [|exact H].
  apply IH in H. cbn [free_name] in H. exact H.
Qed.



End DiskFacts.


(* ================================================================== *)
(** * The report of main after an upload *)
(* ================================================================== *)

(** X18. When the connection to S3 fails for missing credentials or with
    a client error and the local download returns its count, the
    orchestrator hands that count to [main], which reads it as a
    summary: after the heading of the report [main] raises a
    [TypeError]. *)
Theorem main_s3_branch_after_fallback
        (World : Type)
        (http_get : pyval -> World -> exc string * World)
        (s3_connect : World -> exc unit * World)
        (put_object : string -> string -> string -> string -> World -> exc unit * World)
        (getenv_bucket : World -> string)
        (url_path : pyval -> exc string)
        (download_all_images : list pyval -> string -> io World pyval)
        (image_urls : list pyval) (listing_id : string) (bucket : option string)
        (st : state World) (e : exn) (w' : World) :
  image_urls <> [] ->
  s3_connect (world st) = (Raise e, w') ->
  exn_cls e = NoCredentialsError \/ exn_cls e = ClientError ->
  (forall st1, exists n st2,
      download_all_images image_urls ("zillow_images_" ++ listing_id) st1
      = (Ok (py_nat n), st2)) ->
  exists err st',
    main_s3_branch http_get s3_connect put_object getenv_bucket url_path
                   download_all_images image_urls listing_id bucket st
    = ((Raise err, st'), [RlResults]) /\
    exn_cls err = TypeError.
Proof.
  intros Hne Hconn Hcls Hlocal.
  unfold main_s3_branch, download_and_upload_to_s3.
  destruct image_urls as [|u0 us]; [congruence|].
  unfold get_s3_client, io_bind, call. rewrite Hconn.
  destruct Hcls as [-> | ->]; unfold print, ret; cbn [world printed negb].
  - match goal with
    | |- context [download_all_images _ _ ?st1] =>
        destruct (Hlocal st1) as (n & st2 & ->)
    end.
    eexists _, st2. split; reflexivity.
  - match goal with
    | |- context [download_all_images _ _ ?st1] =>
        destruct (Hlocal st1) as (n & st2 & ->)
    end.
    eexists _, st2. split; reflexivity.
Qed.

Lemma main_s3_branch_after_fallback_witness :
  exists err st',
    main_s3_branch
      demo_http_get
      (fun w => (Raise (MkExn NoCredentialsError "Unable to locate credentials"), w))
      (fun _ _ _ _ w => (Ok tt, w)) (fun _ => "zillow-images") demo_url_path
      (fun _ _ st => (Ok (py_nat 1), st))
      [PStr "https://x/a.jpg"] "zpid_1" None (MkState tt [])
    = ((Raise err, st'), [RlResults]) /\
    exn_cls err = TypeError.
Proof.
  apply (main_s3_branch_after_fallback
           unit demo_http_get
           (fun w => (Raise (MkExn NoCredentialsError "Unable to locate credentials"), w))
           (fun _ _ _ _ w => (Ok tt, w)) (fun _ => "zillow-images") demo_url_path
           (fun _ _ st => (Ok (py_nat 1), st))
           [PStr "https://x/a.jpg"] "zpid_1" None (MkState tt [])
           (MkExn NoCredentialsError "Unable to locate credentials") tt).
  - discriminate.
  - reflexivity.
  - left. reflexivity.
  - intros st1. exists 1, st1. reflexivity.
Defined.
